(** * UnpackAB: the UnityFS bundle normaliser of [src/main.cc]

    A shallow embedding of the decompression dispatcher, of the LZ4AK
    pre-transform and of the container rewriter, with the properties
    the design document states about them.

    Conventions.
    - A byte is [Init.Byte.byte]; a buffer ([std::vector<uint8_t>],
      [std::span]) is a [list byte].  [byte.unsigned] and [byte.of_Z] are
      the conversions [uint8_t -> int] and [int -> uint8_t].
    - Positions into a buffer ([ip], [pos_], [cursor]) are [nat]: a vector
      holds at most [PTRDIFF_MAX] bytes and every increment the program
      applies to a position is below [2^32], so [size_t] arithmetic on a
      position never wraps.  Counters that are not positions ([op]) are
      [Z] reduced modulo [2^64].
    - A C++ exception, and an execution that leaves defined behaviour, is
      a [Raise] of the outcome monad; a loop is a [Fixpoint] on fuel,
      started with enough fuel for the buffer at hand. *)

From Stdlib Require Import ZArith List Lia Bool String.
From coqutil Require Import Byte Word.LittleEndianList.
From stdpp Require Import base numbers option list.

Open Scope Z_scope.

(** ** Machine integers *)

Definition INT_MAX : Z := 2 ^ 31 - 1.
Definition INT_MIN : Z := - 2 ^ 31.
Definition PTRDIFF_MAX : Z := 2 ^ 63 - 1.

(** Conversion to an unsigned type of [w] bits. *)
Definition to_unsigned (w : Z) (z : Z) : Z := z mod 2 ^ w.

(** Conversion to a signed type of [w] bits (modular). *)
Definition to_signed (w : Z) (z : Z) : Z :=
  let u := z mod 2 ^ w in
  if decide (u < 2 ^ (w - 1)) then u else u - 2 ^ w.

Definition to_size_t : Z → Z := to_unsigned 64.
Definition to_int : Z → Z := to_signed 32.
Definition to_uint32 : Z → Z := to_unsigned 32.

#[global] Arguments to_unsigned : simpl never.
#[global] Arguments to_signed : simpl never.

(** ** Outcomes *)

Inductive error : Type :=
  (* exceptions *)
  | out_of_range
  | length_error
  | Invalid_LZMA_data
  | LZMA_Decomp_failed
  | LZ4_Decomp_failed
  | LZHAM_Decomp_failed (status : Z)
  | Unknown_compression_type
  | LZ4AK_decompression_failed (code : Z)
  | Only_UnityFS_format_supported
  (* undefined behaviour *)
  | signed_overflow
  | out_of_bounds
  (* the loop model ran out of fuel *)
  | out_of_fuel.

Inductive outcome (A : Type) : Type :=
  | Ok (a : A)
  | Raise (e : error).
Arguments Ok {A} a.
Arguments Raise {A} e.

#[global] Instance outcome_ret : MRet outcome := λ A a, Ok a.
#[global] Instance outcome_bind : MBind outcome := λ A B f m,
  match m with
  | Ok a => f a
  | Raise e => Raise e
  end.

(** [data[i]] and [data[i] = x] on a vector or span: outside the buffer
    the access is undefined. *)
Definition index (data : list byte) (i : nat) : outcome byte :=
  match data !! i with
  | Some b => Ok b
  | None => Raise out_of_bounds
  end.

Definition store (data : list byte) (i : nat) (x : byte) : outcome (list byte) :=
  if decide (i < length data)%nat then Ok (<[i := x]> data)
  else Raise out_of_bounds.

(** [int + int]. *)
Definition int_add (a b : Z) : outcome Z :=
  let s := a + b in
  if decide (INT_MIN ≤ s ≤ INT_MAX) then Ok s else Raise signed_overflow.

(** ** The LZ4AK pre-transform *)

(** [read_extra_length]: the loop, on (length, cursor). *)
Fixpoint read_extra_length_loop (fuel : nat) (data : list byte)
    (length : Z) (cursor : nat) : outcome (Z * nat) :=
  if decide (cursor < List.length data)%nat then
    match fuel with
    | O => Raise out_of_fuel
    | S fuel =>
        b ← index data cursor;
        length ← int_add length (byte.unsigned b);
        let cursor := S cursor in
        if decide (byte.unsigned b ≠ 0xFF) then Ok (length, cursor)
        else read_extra_length_loop fuel data length cursor
    end
  else Ok (length, cursor).

Definition read_extra_length (data : list byte) (cursor : nat)
    : outcome (Z * nat) :=
  read_extra_length_loop (length data) data 0 cursor.

(** The locals of [decompress_lzak]'s rewrite loop. *)
Record lzak_state : Type := LzakState {
  fixed_data : list byte;
  ip : nat;
  op : Z
}.

Definition literal_len (token : byte) : Z :=
  Z.land (byte.unsigned token) 0x0F.

Definition match_len_nibble (token : byte) : Z :=
  Z.land (Z.shiftr (byte.unsigned token) 4) 0x0F.

(** The value stored back over the token. *)
Definition fixed_token (token : byte) : byte :=
  byte.of_Z (Z.lor (Z.shiftl (literal_len token) 4) (match_len_nibble token)).

(** [size_t current = nibble; if (nibble == 0x0F) current +=
    read_extra_length(fixed_data, ip);] *)
Definition extended_length (data : list byte) (nibble : Z) (ip : nat)
    : outcome (Z * nat) :=
  if decide (nibble = 0x0F) then
    '(extra, ip) ← read_extra_length data ip;
    Ok (to_size_t (nibble + to_size_t extra), ip)
  else Ok (nibble, ip).

(** One pass through the body of [while (ip < size)]; the boolean tells
    whether the loop goes on ([true]) or was left by [break]. *)
Definition lzak_body (uncompressed_size : Z) (st : lzak_state)
    : outcome (lzak_state * bool) :=
  let size := length (fixed_data st) in
  token ← index (fixed_data st) (ip st);
  data ← store (fixed_data st) (ip st) (fixed_token token);
  let ip := S (ip st) in
  '(current_literal_len, ip) ← extended_length data (literal_len token) ip;
  let ip := (ip + Z.to_nat current_literal_len)%nat in
  let op := to_size_t (op st + current_literal_len) in
  if decide (to_size_t uncompressed_size ≤ op) then
    Ok (LzakState data ip op, false)
  else if decide (size < ip + 2)%nat then
    Ok (LzakState data ip op, false)
  else
    b0 ← index data ip;
    b1 ← index data (ip + 1);
    data ← store data ip b1;
    data ← store data (ip + 1) b0;
    let ip := (ip + 2)%nat in
    '(current_match_len, ip) ← extended_length data (match_len_nibble token) ip;
    let op := to_size_t (op + to_size_t (current_match_len + 4)) in
    Ok (LzakState data ip op, true).

Fixpoint lzak_loop (fuel : nat) (uncompressed_size : Z) (st : lzak_state)
    : outcome lzak_state :=
  if decide (ip st < length (fixed_data st))%nat then
    match fuel with
    | O => Raise out_of_fuel
    | S fuel =>
        '(st, continue) ← lzak_body uncompressed_size st;
        if continue : bool then lzak_loop fuel uncompressed_size st
        else Ok st
    end
  else Ok st.

(** The rewrite of [decompress_lzak], from the copy of the input to the
    buffer handed to the LZ4 decoder. *)
Definition lzak_rewrite (compressed_data : list byte) (uncompressed_size : Z)
    : outcome lzak_state :=
  lzak_loop (length compressed_data) uncompressed_size
    (LzakState compressed_data 0 0).

(** ** The libraries behind the dispatcher

    [LzmaLib.h], [lz4.h] and [lzham_static_lib.h] are not part of the
    repository: their entry points and the two status constants the
    program compares against are parameters.  A decoder is given the
    capacity of the destination, the source and the lengths the program
    passes; it answers with its return value and the bytes it wrote at
    the start of the destination. *)

Class Libraries : Type := {
  SZ_OK : Z;
  LzmaUncompress :
    ∀ (destLen : Z) (src : list byte) (srcLen : Z)
      (props : list byte) (propsSize : Z), Z * list byte;
  LZ4_decompress_safe :
    ∀ (src : list byte) (compressedSize : Z) (dstCapacity : Z),
      Z * list byte;
  LZHAM_COMP_STATUS_SUCCESS : Z;
  lzham_decompress_memory :
    ∀ (m_dict_size_log2 : Z) (dst_len : Z) (src : list byte) (src_len : Z),
      Z * list byte
}.

(** The destination after a decoder wrote [out] at its start: a
    [std::vector] keeps its size whatever is written through [data()]. *)
Definition written (dst out : list byte) : list byte :=
  take (length dst) (out ++ drop (length out) dst).

(** [std::vector<uint8_t> v(n)], for [n] already converted to [size_t].
    Running out of memory below [max_size()] is not modelled. *)
Definition vector_alloc (n : Z) : outcome (list byte) :=
  if decide (n ≤ PTRDIFF_MAX) then Ok (replicate (Z.to_nat n) Byte.x00)
  else Raise length_error.

(** [memcpy(dst, src.data(), n)]: reading [n] bytes from a span that holds
    fewer is undefined. *)
Definition memcpy (src : list byte) (n : nat) : outcome (list byte) :=
  if decide (n ≤ length src)%nat then Ok (take n src)
  else Raise out_of_bounds.

(** [v.resize(n)]. *)
Definition resize (n : nat) (v : list byte) : list byte :=
  take n v ++ replicate (n - length v) Byte.x00.

(** ** What goes to stderr *)

Inductive warning : Type :=
  | LZ4AK_expected_got (expected got : Z).

Record logged (A : Type) : Type := Logged {
  stderr : list warning;
  value : outcome A
}.
Arguments Logged {A} stderr value.
Arguments stderr {A} l.
Arguments value {A} l.

#[global] Instance logged_ret : MRet logged := λ A a, Logged [] (Ok a).
#[global] Instance logged_bind : MBind logged := λ A B f m,
  match value m with
  | Ok a => let r := f a in Logged (stderr m ++ stderr r) (value r)
  | Raise e => Logged (stderr m) (Raise e)
  end.

Definition lift {A} (m : outcome A) : logged A := Logged [] m.
Definition throw {A} (e : error) : logged A := Logged [] (Raise e).
Definition println (w : warning) : logged unit := Logged [w] (Ok tt).

(** ** The dispatcher *)

Module CompressionType.
Inductive t : Type :=
  | None
  | Lzma
  | Lz4
  | Lz4hc
  | Lzham
  | Other (code : Z).

(** [static_cast<CompressionType>(code)]. *)
Definition of_Z (code : Z) : t :=
  if decide (code = 0) then None
  else if decide (code = 1) then Lzma
  else if decide (code = 2) then Lz4
  else if decide (code = 3) then Lz4hc
  else if decide (code = 4) then Lzham
  else Other code.
End CompressionType.

Inductive GameMode : Type := Standard | Arknights.

Definition FLAG_COMPRESSION_MASK : Z := 0x3F.
Definition FLAG_BLOCKS_AND_DIR_COMBINED : Z := 0x40.
Definition FLAG_BLOCK_INFO_AT_END : Z := 0x80.
Definition FLAG_BLOCK_INFO_NEEDS_ALIGNMENT : Z := 0x200.

Section Dispatcher.
Context `{Libraries}.

(** [uncompressed_size] is an [int]. *)
Definition decompress_lzak (compressed_data : list byte)
    (uncompressed_size : Z) : logged (list byte) :=
  match compressed_data with
  | [] => mret []
  | _ =>
      st ← lift (lzak_rewrite compressed_data uncompressed_size);
      let fixed_data := fixed_data st in
      dest ← lift (vector_alloc (to_size_t uncompressed_size));
      let '(result, out) :=
        LZ4_decompress_safe fixed_data (to_int (Z.of_nat (length fixed_data)))
          uncompressed_size in
      let dest := written dest out in
      if decide (result < 0) then throw (LZ4AK_decompression_failed result)
      else if decide (result ≠ uncompressed_size) then
        _ ← println (LZ4AK_expected_got uncompressed_size result);
        mret (resize (Z.to_nat (to_size_t result)) dest)
      else mret dest
  end.

(** [decompressed_size] is a [uint32_t]. *)
Definition decompress_block (type : CompressionType.t) (src : list byte)
    (decompressed_size : Z) (mode : GameMode) : logged (list byte) :=
  match type with
  | CompressionType.None => mret src
  | _ =>
      let dst := replicate (Z.to_nat decompressed_size) Byte.x00 in
      match type with
      | CompressionType.Lzma =>
          let src_len := Z.of_nat (length src) in
          let dst_len := decompressed_size in
          if decide (length src < 5)%nat then throw Invalid_LZMA_data
          else
            props ← lift (memcpy src 5);
            let src_len := src_len - 5 in
            let '(res, out) :=
              LzmaUncompress dst_len (drop 5 src) src_len props 5 in
            let dst := written dst out in
            if decide (res ≠ SZ_OK) then throw LZMA_Decomp_failed
            else mret dst
      | CompressionType.Lz4 | CompressionType.Lz4hc =>
          let '(res, out) :=
            LZ4_decompress_safe src (to_int (Z.of_nat (length src)))
              (to_int decompressed_size) in
          let dst := written dst out in
          if decide (res < 0) then throw LZ4_Decomp_failed
          else mret dst
      | CompressionType.Lzham =>
          match mode with
          | Arknights => decompress_lzak src (to_int decompressed_size)
          | Standard =>
              let m_dict_size_log2 := 29 in
              let dst_len := decompressed_size in
              let src_len := Z.of_nat (length src) in
              let '(status, out) :=
                lzham_decompress_memory m_dict_size_log2 dst_len src src_len in
              let dst := written dst out in
              if decide (status ≠ LZHAM_COMP_STATUS_SUCCESS) then
                throw (LZHAM_Decomp_failed status)
              else mret dst
          end
      | _ => throw Unknown_compression_type
      end
  end.
End Dispatcher.

(** ** Byte order

    The host is little-endian: [memcpy] between an integer of [n] bytes
    and a buffer is [le_combine] / [le_split n]. *)

(** [swap_endian<T>] with [sizeof(T) = n], on the unsigned reading of the
    bytes of [u]. *)
Definition swap_endian (n : nat) (u : Z) : Z :=
  if decide (n = 1%nat) then u
  else le_combine (rev (le_split n u)).

(** The big-endian bytes of an integer of [n] bytes, for the statements
    about what is on the wire. *)
Definition be (n : nat) (v : Z) : list byte := rev (le_split n v).
#[global] Arguments be : simpl never.

(** ** BinaryReader: [data] is [data_], [pos] is [pos_] *)

(** [read_be<T>] for an unsigned [T] of [n] bytes. *)
Definition read_be (n : nat) (data : list byte) (pos : nat)
    : outcome (Z * nat) :=
  if decide (length data < pos + n)%nat then Raise out_of_range
  else
    let val := le_combine (take n (drop pos data)) in
    Ok (swap_endian n val, (pos + n)%nat).

(** [read_be<T>] for a signed [T] of [n] bytes. *)
Definition read_be_signed (n : nat) (data : list byte) (pos : nat)
    : outcome (Z * nat) :=
  '(val, pos) ← read_be n data pos;
  Ok (to_signed (8 * Z.of_nat n) val, pos).

Fixpoint read_string_loop (fuel : nat) (data : list byte)
    (s : list byte) (pos : nat) : outcome (list byte * nat) :=
  if decide (pos < length data)%nat then
    b ← index data pos;
    if decide (byte.unsigned b ≠ 0) then
      match fuel with
      | O => Raise out_of_fuel
      | S fuel => read_string_loop fuel data (s ++ [b]) (S pos)
      end
    else Ok (s, pos)
  else Ok (s, pos).

Definition read_string (data : list byte) (pos : nat)
    : outcome (list byte * nat) :=
  '(s, pos) ← read_string_loop (length data) data [] pos;
  Ok (s, S pos).

(** [read_bytes] and [get_span]: a copy and a view are the same list. *)
Definition read_bytes (n : nat) (data : list byte) (pos : nat)
    : outcome (list byte * nat) :=
  if decide (length data < pos + n)%nat then Raise out_of_range
  else Ok (take n (drop pos data), (pos + n)%nat).

Definition get_span (n : nat) (data : list byte) (pos : nat)
    : outcome (list byte * nat) :=
  if decide (length data < pos + n)%nat then Raise out_of_range
  else Ok (take n (drop pos data), (pos + n)%nat).

Fixpoint reader_align_loop (fuel : nat) (alignment pos : nat) : outcome nat :=
  if decide (pos mod alignment ≠ 0)%nat then
    match fuel with
    | O => Raise out_of_fuel
    | S fuel => reader_align_loop fuel alignment (S pos)
    end
  else Ok pos.

Definition reader_align (alignment pos : nat) : outcome nat :=
  reader_align_loop alignment alignment pos.

(** ** BinaryWriter: [ofs] is what the stream holds; the stream was
    opened empty and every write succeeds, so [tellp] is its length. *)

Definition write_be (n : nat) (ofs : list byte) (val : Z) : list byte :=
  let swapped := swap_endian n (to_unsigned (8 * Z.of_nat n) val) in
  ofs ++ le_split n swapped.

Definition write_bytes (ofs : list byte) (data : list byte) : list byte :=
  ofs ++ data.

Definition write_string (ofs : list byte) (s : list byte) : list byte :=
  ofs ++ s ++ [Byte.x00].

Definition writer_align (ofs : list byte) (alignment : nat) : list byte :=
  let pos := length ofs in
  let pad := ((alignment - pos mod alignment) mod alignment)%nat in
  ofs ++ replicate pad Byte.x00.

Definition tell (ofs : list byte) : Z := Z.of_nat (length ofs).

(** ** The container *)

Module ArchiveBlockInfo.
Record t : Type := Build {
  uncompressed_size : Z;
  compressed_size : Z;
  flags : Z
  }.

Definition get_compression (b : t) : CompressionType.t :=
  CompressionType.of_Z (Z.land (flags b) FLAG_COMPRESSION_MASK).
End ArchiveBlockInfo.

Module ArchiveNode.
Record t : Type := Build {
  offset : Z;
  size : Z;
  status : Z;
  path : list byte
  }.
End ArchiveNode.

Definition UnityFS : list byte := list_byte_of_string "UnityFS".

#[global] Instance byte_eq_dec : EqDecision byte := Byte.byte_eq_dec.

(** [for (auto &b : blocks)] over a vector of [count] elements. *)
Fixpoint read_blocks (count : nat) (data : list byte) (pos : nat)
    : outcome (list ArchiveBlockInfo.t * nat) :=
  match count with
  | O => Ok ([], pos)
  | S count =>
      '(uncompressed_size, pos) ← read_be 4 data pos;
      '(compressed_size, pos) ← read_be 4 data pos;
      '(flags, pos) ← read_be 2 data pos;
      '(blocks, pos) ← read_blocks count data pos;
      Ok (ArchiveBlockInfo.Build uncompressed_size compressed_size flags
            :: blocks, pos)
  end.

(** [for (auto &n : nodes)] over a vector of [count] elements. *)
Fixpoint read_nodes (count : nat) (data : list byte) (pos : nat)
    : outcome (list ArchiveNode.t * nat) :=
  match count with
  | O => Ok ([], pos)
  | S count =>
      '(offset, pos) ← read_be_signed 8 data pos;
      '(size, pos) ← read_be_signed 8 data pos;
      '(status, pos) ← read_be 4 data pos;
      '(path, pos) ← read_string data pos;
      '(nodes, pos) ← read_nodes count data pos;
      Ok (ArchiveNode.Build (to_unsigned 64 offset) (to_unsigned 64 size)
            status path :: nodes, pos)
  end.

(** Lines 349-368: the block table and the directory, from the
    decompressed blob. *)
Definition read_block_info (block_info_data : list byte)
    : outcome (list ArchiveBlockInfo.t * list ArchiveNode.t) :=
  '(_, pos) ← read_bytes 16 block_info_data 0;
  '(blocks_count, pos) ← read_be 4 block_info_data pos;
  '(blocks, pos) ← read_blocks (Z.to_nat blocks_count) block_info_data pos;
  '(nodes_count, pos) ← read_be 4 block_info_data pos;
  '(nodes, pos) ← read_nodes (Z.to_nat nodes_count) block_info_data pos;
  Ok (blocks, nodes).

(** What the first part of [process_file] has in its locals at line 369. *)
Record bundle : Type := Bundle {
  version : Z;
  unity_ver : list byte;
  unity_rev : list byte;
  bundle_size : Z;
  compressed_blocks_info_size : Z;
  uncompressed_blocks_info_size : Z;
  flags : Z;
  blocks : list ArchiveBlockInfo.t;
  nodes : list ArchiveNode.t;
  reader_pos : nat
}.

(** The new blob, lines 413-451. *)
Definition push_u32_be (blob : list byte) (v : Z) : list byte :=
  blob ++ le_split 4 (swap_endian 4 v).
Definition push_s64_be (blob : list byte) (v : Z) : list byte :=
  blob ++ le_split 8 (swap_endian 8 (to_unsigned 64 v)).
Definition push_u16_be (blob : list byte) (v : Z) : list byte :=
  blob ++ le_split 2 (swap_endian 2 v).
Definition push_bytes (blob : list byte) (d : list byte) : list byte :=
  blob ++ d.

Definition push_block (blob : list byte) (b : ArchiveBlockInfo.t) : list byte :=
  let blob := push_u32_be blob (ArchiveBlockInfo.uncompressed_size b) in
  let blob := push_u32_be blob (ArchiveBlockInfo.compressed_size b) in
  push_u16_be blob (ArchiveBlockInfo.flags b).

Definition push_node (blob : list byte) (n : ArchiveNode.t) : list byte :=
  let blob := push_s64_be blob (to_signed 64 (ArchiveNode.offset n)) in
  let blob := push_s64_be blob (to_signed 64 (ArchiveNode.size n)) in
  let blob := push_u32_be blob (ArchiveNode.status n) in
  push_bytes blob (ArchiveNode.path n ++ [Byte.x00]).

Definition build_block_info (new_blocks : list ArchiveBlockInfo.t)
    (nodes : list ArchiveNode.t) : list byte :=
  let new_block_info_blob := [] in
  let null_hash := replicate 16 Byte.x00 in
  let blob := push_bytes new_block_info_blob null_hash in
  let blob := push_u32_be blob (to_uint32 (Z.of_nat (length new_blocks))) in
  let blob := foldl push_block blob new_blocks in
  let blob := push_u32_be blob (to_uint32 (Z.of_nat (length nodes))) in
  foldl push_node blob nodes.

(** Lines 458-465. *)
Definition header_end_pos (version : Z) (tell : Z) : Z :=
  let header_min_size := to_signed 64 (tell + 8 + 4 + 4 + 4) in
  let header_end_pos_approx := to_size_t header_min_size in
  if decide (7 ≤ version) then
    let rem := header_end_pos_approx mod 16 in
    if decide (rem ≠ 0) then to_size_t (header_end_pos_approx + (16 - rem))
    else header_end_pos_approx
  else header_end_pos_approx.

(** Lines 453-484: everything written to the output stream. *)
Definition write_bundle (version : Z) (unity_ver unity_rev : list byte)
    (new_block_info_blob all_decompressed_data : list byte) : list byte :=
  let ofs := [] in
  let ofs := write_string ofs UnityFS in
  let ofs := write_be 4 ofs version in
  let ofs := write_string ofs unity_ver in
  let ofs := write_string ofs unity_rev in
  let header_end_pos_approx := header_end_pos version (tell ofs) in
  let total_file_size :=
    to_signed 64
      (to_size_t (header_end_pos_approx
                  + Z.of_nat (length new_block_info_blob)
                  + Z.of_nat (length all_decompressed_data))) in
  let ofs := write_be 8 ofs total_file_size in
  let ofs := write_be 4 ofs (to_uint32 (Z.of_nat (length new_block_info_blob))) in
  let ofs := write_be 4 ofs (to_uint32 (Z.of_nat (length new_block_info_blob))) in
  let new_flags := FLAG_BLOCKS_AND_DIR_COMBINED in
  let ofs := write_be 4 ofs new_flags in
  let ofs := if decide (7 ≤ version) then writer_align ofs 16 else ofs in
  let ofs := write_bytes ofs new_block_info_blob in
  write_bytes ofs all_decompressed_data.

Section Container.
Context `{Libraries}.

(** Lines 321-368: header, block table and directory.  The table is
    inflated with [GameMode::Standard]. *)
Definition read_bundle (raw_file : list byte) : logged bundle :=
  '(signature, pos) ← lift (read_string raw_file 0);
  '(version, pos) ← lift (read_be 4 raw_file pos);
  '(unity_ver, pos) ← lift (read_string raw_file pos);
  '(unity_rev, pos) ← lift (read_string raw_file pos);
  if decide (signature ≠ UnityFS) then throw Only_UnityFS_format_supported
  else
    '(bundle_size, pos) ← lift (read_be_signed 8 raw_file pos);
    '(compressed_blocks_info_size, pos) ← lift (read_be 4 raw_file pos);
    '(uncompressed_blocks_info_size, pos) ← lift (read_be 4 raw_file pos);
    '(flags, pos) ← lift (read_be 4 raw_file pos);
    pos ← lift (if decide (7 ≤ version) then reader_align 16 pos else Ok pos);
    '(raw_block_info, pos) ←
      lift (get_span (Z.to_nat compressed_blocks_info_size) raw_file pos);
    let header_comp :=
      CompressionType.of_Z (Z.land flags FLAG_COMPRESSION_MASK) in
    block_info_data ←
      decompress_block header_comp raw_block_info
        uncompressed_blocks_info_size Standard;
    '(blocks, nodes) ← lift (read_block_info block_info_data);
    mret (Bundle version unity_ver unity_rev bundle_size
            compressed_blocks_info_size uncompressed_blocks_info_size
            flags blocks nodes pos).

(** Lines 389-410: the loop over the blocks, on ([reader]'s position,
    [all_decompressed_data], [new_blocks]). *)
Fixpoint decompress_blocks (game_mode : GameMode) (raw_file : list byte)
    (blocks : list ArchiveBlockInfo.t) (pos : nat)
    (all_decompressed_data : list byte)
    (new_blocks : list ArchiveBlockInfo.t)
    : logged (list byte * list ArchiveBlockInfo.t) :=
  match blocks with
  | [] => mret (all_decompressed_data, new_blocks)
  | old_blk :: blocks =>
      '(compressed_bytes, pos) ←
        lift (get_span (Z.to_nat (ArchiveBlockInfo.compressed_size old_blk))
                raw_file pos);
      raw ← decompress_block (ArchiveBlockInfo.get_compression old_blk)
              compressed_bytes (ArchiveBlockInfo.uncompressed_size old_blk)
              game_mode;
      let all_decompressed_data := all_decompressed_data ++ raw in
      let new_blk :=
        ArchiveBlockInfo.Build (to_uint32 (Z.of_nat (length raw)))
          (to_uint32 (Z.of_nat (length raw))) 0 in
      let new_blocks := new_blocks ++ [new_blk] in
      decompress_blocks game_mode raw_file blocks pos
        all_decompressed_data new_blocks
  end.

(** Lines 370-484, from the parsed bundle to the bytes of the output
    file.  What goes to stdout is left out. *)
Definition rewrite_bundle (game_mode : GameMode) (raw_file : list byte)
    (b : bundle) : logged (list byte) :=
  pos ← lift (if decide (Z.land (flags b) FLAG_BLOCK_INFO_NEEDS_ALIGNMENT ≠ 0)
              then reader_align 16 (reader_pos b) else Ok (reader_pos b));
  '(all_decompressed_data, new_blocks) ←
    decompress_blocks game_mode raw_file (blocks b) pos [] [];
  let new_block_info_blob := build_block_info new_blocks (nodes b) in
  mret (write_bundle (version b) (unity_ver b) (unity_rev b)
          new_block_info_blob all_decompressed_data).

(** [process_file], from the bytes of the input file to the bytes of
    the output file. *)
Definition process_file (raw_file : list byte) (game_mode : GameMode)
    : logged (list byte) :=
  b ← read_bundle raw_file;
  rewrite_bundle game_mode raw_file b.
End Container.

(** ** Vocabulary for the statements *)

(** [rest] is what [data] holds from [pos] on. *)
Definition at_pos (data : list byte) (pos : nat) (rest : list byte) : Prop :=
  (pos ≤ length data)%nat ∧ drop pos data = rest.

(** A string without a zero byte: what [read_string] returns and what
    [c_str()] writes back in full. *)
Definition cstring (s : list byte) : Prop :=
  Forall (λ b, byte.unsigned b ≠ 0) s.

(** The fields of a block and of a node within their C++ types. *)
Definition block_wf (b : ArchiveBlockInfo.t) : Prop :=
  0 ≤ ArchiveBlockInfo.uncompressed_size b < 2 ^ 32
  ∧ 0 ≤ ArchiveBlockInfo.compressed_size b < 2 ^ 32
  ∧ 0 ≤ ArchiveBlockInfo.flags b < 2 ^ 16.

Definition node_wf (n : ArchiveNode.t) : Prop :=
  0 ≤ ArchiveNode.offset n < 2 ^ 64
  ∧ 0 ≤ ArchiveNode.size n < 2 ^ 64
  ∧ 0 ≤ ArchiveNode.status n < 2 ^ 32
  ∧ cstring (ArchiveNode.path n).

(** A block and a node on the wire. *)
Definition block_bytes (b : ArchiveBlockInfo.t) : list byte :=
  be 4 (ArchiveBlockInfo.uncompressed_size b)
  ++ be 4 (ArchiveBlockInfo.compressed_size b)
  ++ be 2 (ArchiveBlockInfo.flags b).

Definition node_bytes (n : ArchiveNode.t) : list byte :=
  be 8 (ArchiveNode.offset n)
  ++ be 8 (ArchiveNode.size n)
  ++ be 4 (ArchiveNode.status n)
  ++ ArchiveNode.path n ++ [Byte.x00].

(** The descriptor [process_file] makes for a decompressed block. *)
Definition new_block (raw : list byte) : ArchiveBlockInfo.t :=
  ArchiveBlockInfo.Build (to_uint32 (Z.of_nat (length raw)))
    (to_uint32 (Z.of_nat (length raw))) 0.

(** The header up to the total-size field, and the padding that brings
    a header of [n] bytes to a multiple of 16 from version 7 on. *)
Definition header_start (version : Z) (unity_ver unity_rev : list byte)
    : list byte :=
  (UnityFS ++ [Byte.x00]) ++ be 4 version
  ++ (unity_ver ++ [Byte.x00]) ++ (unity_rev ++ [Byte.x00]).

Definition header_pad (version : Z) (n : nat) : nat :=
  if decide (7 ≤ version) then ((16 - n mod 16) mod 16)%nat else 0%nat.

(** [raw] is what the dispatcher makes of the compressed bytes of
    [old_blk], a span of [compressed_size] bytes of the input file. *)
Definition inflates `{Libraries} (game_mode : GameMode)
    (old_blk : ArchiveBlockInfo.t) (raw : list byte) : Prop :=
  ∃ (compressed_bytes : list byte) (l : list warning),
    length compressed_bytes
    = Z.to_nat (ArchiveBlockInfo.compressed_size old_blk)
    ∧ decompress_block (ArchiveBlockInfo.get_compression old_blk)
        compressed_bytes (ArchiveBlockInfo.uncompressed_size old_blk)
        game_mode = Logged l (Ok raw).

(** The outcomes that are C++ exceptions, and the computations that
    end in a value or in an exception. *)
Definition thrown (e : error) : Prop :=
  match e with
  | signed_overflow | out_of_bounds | out_of_fuel => False
  | _ => True
  end.

Definition only_out_of_range {A} (m : outcome A) : Prop :=
  ∀ e, m = Raise e → e = out_of_range.

Definition only_throws {A} (m : logged A) : Prop :=
  ∀ e, value m = Raise e → thrown e.

(** ** Fixtures for the examples *)

(** A buffer from its byte values. *)
Definition bs (l : list Z) : list byte := map byte.of_Z l.

(** Libraries for the examples, each decoder a plain copy: it writes
    the source into the destination as far as the capacity goes, reports
    success, and (for LZ4) returns how much it copied; LZ4 refuses a
    negative source size. *)
Definition stored_libraries : Libraries := {|
  SZ_OK := 0;
  LzmaUncompress := λ destLen src srcLen props propsSize,
    (0, take (Z.to_nat destLen) src);
  LZ4_decompress_safe := λ src compressedSize dstCapacity,
    if decide (compressedSize < 0) then (-1, [])
    else (compressedSize `min` dstCapacity, take (Z.to_nat dstCapacity) src);
  LZHAM_COMP_STATUS_SUCCESS := 3;
  lzham_decompress_memory := λ m_dict_size_log2 dst_len src src_len,
    (3, take (Z.to_nat dst_len) src)
|}.

(** A bundle of version 6 with an uncompressed table, two uncompressed
    blocks of 3 and 2 bytes, and one file entry
    [{offset 0, size 5, status 4, path "a.b"}]. *)
Definition two_block_bundle : list byte :=
  bs [0x55; 0x6E; 0x69; 0x74; 0x79; 0x46; 0x53; 0;  (* "UnityFS" *)
      0; 0; 0; 6;                                   (* version *)
      0x35; 0;                                      (* "5" *)
      0x78; 0;                                      (* "x" *)
      0; 0; 0; 0; 0; 0; 0; 0;                       (* bundle size *)
      0; 0; 0; 68;                                  (* compressed table *)
      0; 0; 0; 68;                                  (* uncompressed table *)
      0; 0; 0; 0;                                   (* flags *)
      0; 0; 0; 0; 0; 0; 0; 0; 0; 0; 0; 0; 0; 0; 0; 0;
      0; 0; 0; 2;                                   (* two blocks *)
      0; 0; 0; 3; 0; 0; 0; 3; 0; 0;
      0; 0; 0; 2; 0; 0; 0; 2; 0; 0;
      0; 0; 0; 1;                                   (* one node *)
      0; 0; 0; 0; 0; 0; 0; 0;
      0; 0; 0; 0; 0; 0; 0; 5;
      0; 0; 0; 4;
      0x61; 0x2E; 0x62; 0;                          (* "a.b" *)
      1; 2; 3;                                      (* first block *)
      4; 5].                                        (* second block *)

(** What [process_file] writes for it. *)
Definition two_block_output : list byte :=
  bs [0x55; 0x6E; 0x69; 0x74; 0x79; 0x46; 0x53; 0;
      0; 0; 0; 6;
      0x35; 0;
      0x78; 0;
      0; 0; 0; 0; 0; 0; 0; 109;
      0; 0; 0; 68;
      0; 0; 0; 68;
      0; 0; 0; 0x40;
      0; 0; 0; 0; 0; 0; 0; 0; 0; 0; 0; 0; 0; 0; 0; 0;
      0; 0; 0; 2;
      0; 0; 0; 3; 0; 0; 0; 3; 0; 0;
      0; 0; 0; 2; 0; 0; 0; 2; 0; 0;
      0; 0; 0; 1;
      0; 0; 0; 0; 0; 0; 0; 0;
      0; 0; 0; 0; 0; 0; 0; 5;
      0; 0; 0; 4;
      0x61; 0x2E; 0x62; 0;
      1; 2; 3; 4; 5].

(** A bundle of version 6 whose table is marked LZHAM (flags = 4), with
    no block and one file entry [{offset 0, size 0, status 4, path "a"}]. *)
Definition lzham_table_bundle : list byte :=
  bs [0x55; 0x6E; 0x69; 0x74; 0x79; 0x46; 0x53; 0;
      0; 0; 0; 6;
      0x35; 0;
      0x78; 0;
      0; 0; 0; 0; 0; 0; 0; 0;
      0; 0; 0; 46;
      0; 0; 0; 46;
      0; 0; 0; 4;
      0; 0; 0; 0; 0; 0; 0; 0; 0; 0; 0; 0; 0; 0; 0; 0;
      0; 0; 0; 0;
      0; 0; 0; 1;
      0; 0; 0; 0; 0; 0; 0; 0;
      0; 0; 0; 0; 0; 0; 0; 0;
      0; 0; 0; 4;
      0x61; 0].

(** ** Vocabulary for the further properties *)

(** The number a string of bytes stands for, most significant byte
    first. *)
Definition be_value (l : list byte) : Z :=
  foldl (λ acc b, acc * 256 + byte.unsigned b) 0 l.

(** The bytes in front of the first zero byte. *)
Fixpoint until_zero (l : list byte) : list byte :=
  match l with
  | [] => []
  | b :: l => if decide (byte.unsigned b ≠ 0) then b :: until_zero l else []
  end.

(** The bytes that extend a length by [k]: 0xFF for every full 255, then
    the byte that ends the run. *)
Definition extra_length_bytes (k : Z) : list byte :=
  replicate (Z.to_nat (k / 255)) Byte.xff ++ [byte.of_Z (k mod 255)].

(** A length on the wire: its nibble in the token and what follows the
    token for it. *)
Definition length_nibble (n : Z) : Z := n `min` 15.

Definition length_extension (n : Z) : list byte :=
  if decide (n < 15) then [] else extra_length_bytes (n - 15).

(** A sequence of a compressed block: a run of literals and a match, the
    match given by the two bytes of its distance and by its length beyond
    the 4 bytes every match has. *)
Record sequence : Type := Sequence {
  seq_literals : list byte;
  seq_distance : byte * byte;
  seq_match : Z
}.

Definition seq_literal_len (s : sequence) : Z :=
  Z.of_nat (length (seq_literals s)).

(** A token with [lo] in its low and [hi] in its high nibble. *)
Definition token_of (hi lo : Z) : byte := byte.of_Z (Z.lor (Z.shiftl hi 4) lo).

(** The sequence as the game stores it (literal length in the low nibble
    of the token, distance bytes in the order given) and as an LZ4 block
    has it (literal length in the high nibble, distance bytes
    exchanged). *)
Definition lzak_sequence (s : sequence) : list byte :=
  token_of (length_nibble (seq_match s)) (length_nibble (seq_literal_len s))
  :: length_extension (seq_literal_len s)
  ++ seq_literals s
  ++ [(seq_distance s).1; (seq_distance s).2]
  ++ length_extension (seq_match s).

Definition lz4_sequence (s : sequence) : list byte :=
  token_of (length_nibble (seq_literal_len s)) (length_nibble (seq_match s))
  :: length_extension (seq_literal_len s)
  ++ seq_literals s
  ++ [(seq_distance s).2; (seq_distance s).1]
  ++ length_extension (seq_match s).

(** The last sequence of a block, literals only. *)
Definition lzak_last (literals : list byte) : list byte :=
  token_of 0 (length_nibble (Z.of_nat (length literals)))
  :: length_extension (Z.of_nat (length literals)) ++ literals.

Definition lz4_last (literals : list byte) : list byte :=
  token_of (length_nibble (Z.of_nat (length literals))) 0
  :: length_extension (Z.of_nat (length literals)) ++ literals.

Definition lzak_stream (seqs : list sequence) (literals : list byte)
    : list byte :=
  concat (map lzak_sequence seqs) ++ lzak_last literals.

Definition lz4_stream (seqs : list sequence) (literals : list byte)
    : list byte :=
  concat (map lz4_sequence seqs) ++ lz4_last literals.

(** What the sequences decode to, in bytes. *)
Definition decoded_size (seqs : list sequence) : Z :=
  foldr (λ s acc, seq_literal_len s + (seq_match s + 4) + acc) 0 seqs.

Definition sequence_ok (s : sequence) : Prop :=
  seq_literal_len s ≤ INT_MAX ∧ 0 ≤ seq_match s ≤ INT_MAX.

(** What the blocks of a table take in the file, the descriptor that a
    block stored as it is gets in the new table, and where the blocks
    start: behind the table, at the next multiple of 16 when the flags
    ask for it. *)
Definition payload_size (blocks : list ArchiveBlockInfo.t) : nat :=
  foldr (λ blk acc, (Z.to_nat (ArchiveBlockInfo.compressed_size blk) + acc)%nat)
    0%nat blocks.

Definition stored_descriptor (blk : ArchiveBlockInfo.t) : ArchiveBlockInfo.t :=
  ArchiveBlockInfo.Build (ArchiveBlockInfo.compressed_size blk)
    (ArchiveBlockInfo.compressed_size blk) 0.

Definition data_start (b : bundle) : nat :=
  if decide (Z.land (flags b) FLAG_BLOCK_INFO_NEEDS_ALIGNMENT ≠ 0) then
    (reader_pos b + (16 - reader_pos b mod 16) mod 16)%nat
  else reader_pos b.

(** * Properties *)

(** ** The outcome monad *)

Lemma outcome_bind_Ok {A B} (m : outcome A) (f : A → outcome B) (b : B) :
  m ≫= f = Ok b → ∃ a, m = Ok a ∧ f a = Ok b.
Proof. destruct m as [a|e]; [eauto | discriminate]. Qed.

Lemma outcome_bind_Ok_l {A B} (a : A) (f : A → outcome B) : Ok a ≫= f = f a.
Proof. done. Qed.

Lemma index_Ok (data : list byte) (i : nat) (b : byte) :
  index data i = Ok b ↔ data !! i = Some b.
Proof.
  unfold index. destruct (data !! i); split; congruence.
Qed.

Lemma index_lt (data : list byte) (i : nat) :
  (i < length data)%nat → ∃ b, data !! i = Some b ∧ index data i = Ok b.
Proof.
  intros Hi. destruct (lookup_lt_is_Some_2 data i Hi) as [b Hb].
  exists b. split; [done | by apply index_Ok].
Qed.

Lemma store_lt (data : list byte) (i : nat) (x : byte) :
  (i < length data)%nat → store data i x = Ok (<[i := x]> data).
Proof. intros Hi. unfold store. by rewrite decide_True. Qed.

Lemma byte_unsigned_bounds (b : byte) : 0 ≤ byte.unsigned b ≤ 255.
Proof. pose proof (byte.unsigned_range b). lia. Qed.

Lemma to_size_t_small (z : Z) : 0 ≤ z < 2 ^ 64 → to_size_t z = z.
Proof. intros Hz. unfold to_size_t, to_unsigned. by rewrite Z.mod_small. Qed.

(** ** [read_extra_length] *)

(** With fuel for the rest of the buffer the loop ends: either with a
    sum of at most 255 per byte read and a cursor that did not pass the
    end, or on the overflow of the [int] accumulator. *)
Lemma read_extra_length_loop_spec (fuel : nat) (data : list byte) :
  ∀ (len : Z) (cursor : nat),
    (length data - cursor ≤ fuel)%nat → 0 ≤ len ≤ INT_MAX →
    (∃ len' cursor',
        read_extra_length_loop fuel data len cursor = Ok (len', cursor')
        ∧ (cursor ≤ cursor')%nat
        ∧ (cursor' ≤ cursor `max` length data)%nat
        ∧ len ≤ len' ≤ len + 255 * (Z.of_nat cursor' - Z.of_nat cursor)
        ∧ len' ≤ INT_MAX)
    ∨ (read_extra_length_loop fuel data len cursor = Raise signed_overflow
       ∧ INT_MAX < len + 255 * (Z.of_nat (length data) - Z.of_nat cursor)).
Proof.
  induction fuel as [|fuel IH]; intros len cursor Hfuel Hlen; simpl.
  - rewrite decide_False by lia. left. exists len, cursor. repeat split; lia.
  - destruct (decide (cursor < length data)%nat) as [Hlt|Hge].
    + destruct (index_lt data cursor Hlt) as (b & _ & ->). simpl.
      pose proof (byte_unsigned_bounds b) as Hb.
      unfold int_add. cbv zeta.
      destruct (decide (INT_MIN ≤ len + byte.unsigned b ≤ INT_MAX)) as [Hin|Hout];
        simpl.
      * destruct (decide (byte.unsigned b ≠ 255)) as [Hne|Heq].
        { left. exists (len + byte.unsigned b), (S cursor).
          repeat split; lia. }
        destruct (IH (len + byte.unsigned b) (S cursor)) as
          [(len' & cursor' & -> & ? & ? & ? & ?)|[-> ?]]; [lia | lia | |].
        { left. exists len', cursor'. repeat split; lia. }
        { right. split; [done | lia]. }
      * right. split; [done |]. unfold INT_MIN, INT_MAX in *. lia.
    + left. exists len, cursor. repeat split; lia.
Qed.

Lemma read_extra_length_spec (data : list byte) (cursor : nat) :
  (∃ len' cursor',
      read_extra_length data cursor = Ok (len', cursor')
      ∧ (cursor ≤ cursor')%nat
      ∧ (cursor' ≤ cursor `max` length data)%nat
      ∧ 0 ≤ len' ≤ 255 * (Z.of_nat cursor' - Z.of_nat cursor)
      ∧ len' ≤ INT_MAX)
  ∨ (read_extra_length data cursor = Raise signed_overflow
     ∧ INT_MAX < 255 * Z.of_nat (length data)).
Proof.
  unfold read_extra_length.
  destruct (read_extra_length_loop_spec (length data) data 0 cursor)
    as [(len' & cursor' & ? & ? & ? & ? & ?)|[? ?]];
    [lia | unfold INT_MAX; lia | |].
  - left. exists len', cursor'. repeat split; (done || lia).
  - right. split; [done | lia].
Qed.


(** ** The token and the extended lengths *)

Lemma literal_len_bounds (token : byte) : 0 ≤ literal_len token ≤ 15.
Proof.
  destruct token; vm_compute; split; congruence.
Qed.

Lemma match_len_nibble_bounds (token : byte) : 0 ≤ match_len_nibble token ≤ 15.
Proof.
  destruct token; vm_compute; split; congruence.
Qed.

Lemma extended_length_spec (data : list byte) (nibble : Z) (ip : nat) :
  0 ≤ nibble ≤ 15 →
  (∃ len ip',
      extended_length data nibble ip = Ok (len, ip')
      ∧ (ip ≤ ip')%nat
      ∧ (ip' ≤ ip `max` length data)%nat
      ∧ 0 ≤ len ≤ 15 + INT_MAX)
  ∨ (extended_length data nibble ip = Raise signed_overflow
     ∧ INT_MAX < 255 * Z.of_nat (length data)).
Proof.
  intros Hn. unfold extended_length.
  destruct (decide (nibble = 15)) as [->|Hne].
  - destruct (read_extra_length_spec data ip)
      as [(len' & ip' & -> & ? & ? & ? & ?)|[-> ?]]; simpl.
    + left. exists (to_size_t (15 + to_size_t len')), ip'.
      unfold INT_MAX in *.
      rewrite (to_size_t_small len') by lia.
      rewrite to_size_t_small by lia.
      repeat split; (done || lia).
    + right. done.
  - left. exists nibble, ip. unfold INT_MAX. repeat split; lia.
Qed.

(** ** The rewrite loop *)

(** One pass of the loop from a position inside the buffer: it ends, keeps
    the size of the buffer, moves [ip] forward and leaves the transposed
    token where the token was; the only way out of defined behaviour is
    the overflow of [read_extra_length]'s accumulator. *)
Lemma lzak_body_spec (uncompressed_size : Z) (st : lzak_state) (token : byte) :
  fixed_data st !! ip st = Some token →
  (∃ st' continue,
      lzak_body uncompressed_size st = Ok (st', continue)
      ∧ length (fixed_data st') = length (fixed_data st)
      ∧ (ip st < ip st')%nat
      ∧ fixed_data st' !! ip st = Some (fixed_token token))
  ∨ (lzak_body uncompressed_size st = Raise signed_overflow
     ∧ INT_MAX < 255 * Z.of_nat (length (fixed_data st))).
Proof.
  intros Htok. destruct st as [data ip0 op0]; simpl in *.
  pose proof (lookup_lt_Some _ _ _ Htok) as Hip.
  unfold lzak_body; simpl.
  rewrite (proj2 (index_Ok _ _ _) Htok); simpl.
  rewrite store_lt by done; simpl.
  set (data1 := <[ip0 := fixed_token token]> data).
  assert (length data1 = length data) as Hlen1 by apply length_insert.
  assert (data1 !! ip0 = Some (fixed_token token)) as Hat
    by (by apply list_lookup_insert_eq).
  destruct (extended_length_spec data1 (literal_len token) (S ip0)
              (literal_len_bounds token))
    as [(len & ip1 & -> & Hle1 & Hmax1 & Hlen)|[-> Hov]]; simpl;
    [|right; split; [done | lia]].
  destruct (decide (to_size_t uncompressed_size ≤ to_size_t (op0 + len))).
  { left. eexists _, _. split; [done |]. simpl. repeat split; (done || lia). }
  destruct (decide (length data < ip1 + Z.to_nat len + 2)%nat) as [|Hroom].
  { left. eexists _, _. split; [done |]. simpl. repeat split; (done || lia). }
  set (ip2 := (ip1 + Z.to_nat len)%nat) in *.
  destruct (index_lt data1 ip2) as (b0 & _ & ->); [lia |]; simpl.
  destruct (index_lt data1 (ip2 + 1)) as (b1 & _ & ->); [lia |]; simpl.
  rewrite store_lt by lia; simpl.
  rewrite store_lt by (rewrite length_insert; lia); simpl.
  set (data3 := <[(ip2 + 1)%nat := b0]> (<[ip2 := b1]> data1)).
  assert (length data3 = length data) as Hlen3
    by (unfold data3; rewrite !length_insert; done).
  assert (data3 !! ip0 = Some (fixed_token token)) as Hat3.
  { unfold data3. rewrite !list_lookup_insert_ne by lia. done. }
  destruct (extended_length_spec data3 (match_len_nibble token) (ip2 + 2)
              (match_len_nibble_bounds token))
    as [(mlen & ip3 & -> & Hle3 & Hmax3 & Hmlen)|[-> Hov]]; simpl;
    [|right; split; [done | lia]].
  left. eexists _, _. split; [done |]. simpl. repeat split; (done || lia).
Qed.

(** With fuel for the rest of the buffer the loop ends. *)
Lemma lzak_loop_spec (uncompressed_size : Z) (fuel : nat) :
  ∀ st : lzak_state,
    (length (fixed_data st) - ip st ≤ fuel)%nat →
    (∃ st', lzak_loop fuel uncompressed_size st = Ok st'
            ∧ length (fixed_data st') = length (fixed_data st))
    ∨ (lzak_loop fuel uncompressed_size st = Raise signed_overflow
       ∧ INT_MAX < 255 * Z.of_nat (length (fixed_data st))).
Proof.
  induction fuel as [|fuel IH]; intros st Hfuel; simpl.
  - rewrite decide_False by lia. left. by exists st.
  - destruct (decide (ip st < length (fixed_data st))%nat) as [Hlt|Hge];
      [|left; by exists st].
    destruct (lookup_lt_is_Some_2 _ _ Hlt) as [token Htok].
    destruct (lzak_body_spec uncompressed_size st token Htok)
      as [(st1 & [|] & -> & Hlen & Hip & _)|[-> Hov]]; simpl.
    + destruct (IH st1) as [(st' & -> & Hlen')|[-> Hov]]; [lia | |].
      * left. exists st'. split; [done | congruence].
      * right. split; [done | by rewrite <- Hlen].
    + left. by exists st1.
    + right. done.
Qed.

Lemma lzak_rewrite_spec (compressed_data : list byte) (uncompressed_size : Z) :
  (∃ st, lzak_rewrite compressed_data uncompressed_size = Ok st
         ∧ length (fixed_data st) = length compressed_data)
  ∨ (lzak_rewrite compressed_data uncompressed_size = Raise signed_overflow
     ∧ INT_MAX < 255 * Z.of_nat (length compressed_data)).
Proof.
  unfold lzak_rewrite.
  apply (lzak_loop_spec uncompressed_size (length compressed_data)
           (LzakState compressed_data 0 0)).
  simpl. lia.
Qed.

(** ** The token rewrite *)

(** C4: for each of the 256 byte values the rewritten token is the byte
    with its two nibbles transposed, and transposing twice gives the byte
    back; a pass of the rewrite loop stores exactly that value where it
    read the token. *)
Theorem token_nibbles_transposed :
  (∀ token : byte,
      literal_len (fixed_token token) = match_len_nibble token
      ∧ match_len_nibble (fixed_token token) = literal_len token
      ∧ byte.unsigned (fixed_token token)
        = 16 * (byte.unsigned token mod 16) + byte.unsigned token / 16
      ∧ fixed_token (fixed_token token) = token)
  ∧ (∀ (uncompressed_size : Z) (st st' : lzak_state) (continue : bool),
      lzak_body uncompressed_size st = Ok (st', continue) →
      ∃ token : byte,
        fixed_data st !! ip st = Some token
        ∧ fixed_data st' !! ip st = Some (fixed_token token)).
Proof.
  split.
  - intros token. destruct token; vm_compute; repeat split; reflexivity.
  - intros uncompressed_size st st' continue Hbody.
    assert (∃ token, fixed_data st !! ip st = Some token) as [token Htok].
    { unfold lzak_body in Hbody.
      apply outcome_bind_Ok in Hbody as (token & Hidx & _).
      exists token. by apply index_Ok. }
    exists token. split; [done |].
    destruct (lzak_body_spec uncompressed_size st token Htok)
      as [(st1 & c & Heq & _ & _ & Hat)|[Heq _]]; congruence.
Qed.

Lemma token_nibbles_transposed_witness :
  ∃ token : byte,
    bs [0x21; 0x41; 0x01; 0x00] !! 0%nat = Some token
    ∧ bs [0x12; 0x41; 0x00; 0x01] !! 0%nat = Some (fixed_token token).
Proof.
  exact (proj2 token_nibbles_transposed 1000
           (LzakState (bs [0x21; 0x41; 0x01; 0x00]) 0 0)
           (LzakState (bs [0x12; 0x41; 0x00; 0x01]) 4 7) true eq_refl).
Defined.

(** ** Extended lengths *)

Lemma read_extra_length_loop_step (fuel : nat) (data : list byte)
    (len : Z) (cursor : nat) (b : byte) :
  data !! cursor = Some b → INT_MIN ≤ len + byte.unsigned b ≤ INT_MAX →
  read_extra_length_loop (S fuel) data len cursor
  = if decide (byte.unsigned b ≠ 0xFF) then Ok (len + byte.unsigned b, S cursor)
    else read_extra_length_loop fuel data (len + byte.unsigned b) (S cursor).
Proof.
  intros Hb Hin. simpl.
  rewrite decide_True by (by eapply lookup_lt_Some).
  rewrite (proj2 (index_Ok _ _ _) Hb). simpl.
  unfold int_add. cbv zeta. rewrite decide_True by done. done.
Qed.

(** The run [0xFF, 0xFF, 0x05] extends a length by 515. *)
Lemma read_extra_length_FF_FF_05 (data : list byte) (cursor : nat) :
  data !! cursor = Some Byte.xff →
  data !! (cursor + 1)%nat = Some Byte.xff →
  data !! (cursor + 2)%nat = Some Byte.x05 →
  read_extra_length data cursor = Ok (515, (cursor + 3)%nat).
Proof.
  intros H0 H1 H2. unfold read_extra_length.
  pose proof (lookup_lt_Some _ _ _ H2) as Hlen.
  destruct (length data) as [|[|[|fuel]]]; [lia | lia | lia |].
  rewrite (read_extra_length_loop_step _ _ _ _ _ H0) by (vm_compute; split; congruence).
  rewrite decide_False by (vm_compute; congruence).
  replace (S cursor) with (cursor + 1)%nat by lia.
  rewrite (read_extra_length_loop_step _ _ _ _ _ H1) by (vm_compute; split; congruence).
  rewrite decide_False by (vm_compute; congruence).
  replace (S (cursor + 1)) with (cursor + 2)%nat by lia.
  rewrite (read_extra_length_loop_step _ _ _ _ _ H2) by (vm_compute; split; congruence).
  rewrite decide_True by (vm_compute; congruence).
  f_equal. f_equal. lia.
Qed.

(** C3 (amended): a token whose literal-length nibble is 0x0F, followed
    by the extra-length bytes 0xFF, 0xFF, 0x05, stands for a literal of
    15 + 255 + 255 + 5 = 530 bytes.  The cursor goes over the token and the
    three extra-length bytes and then over the 530 literal bytes: when the
    loop stops after the literal, [ip] has advanced by 534 and [op] by
    530; when it goes on, the match distance it swaps is the pair at
    offsets 534 and 535 from the token. *)
Theorem literal_length_FF_FF_05 (data : list byte) (ip0 : nat)
    (op0 uncompressed_size : Z) (token : byte) :
  data !! ip0 = Some token →
  literal_len token = 0x0F →
  data !! (ip0 + 1)%nat = Some Byte.xff →
  data !! (ip0 + 2)%nat = Some Byte.xff →
  data !! (ip0 + 3)%nat = Some Byte.x05 →
  let data1 := <[ip0 := fixed_token token]> data in
  extended_length data1 (literal_len token) (S ip0) = Ok (530, (ip0 + 4)%nat)
  ∧ (to_size_t uncompressed_size ≤ to_size_t (op0 + 530)
     ∨ (length data < ip0 + 536)%nat →
     lzak_body uncompressed_size (LzakState data ip0 op0)
     = Ok (LzakState data1 (ip0 + 534) (to_size_t (op0 + 530)), false))
  ∧ (∀ st' : lzak_state,
       lzak_body uncompressed_size (LzakState data ip0 op0) = Ok (st', true) →
       (ip0 + 536 ≤ ip st')%nat
       ∧ fixed_data st' !! (ip0 + 534)%nat = data !! (ip0 + 535)%nat
       ∧ fixed_data st' !! (ip0 + 535)%nat = data !! (ip0 + 534)%nat).
Proof.
  intros Htok Hnib H1 H2 H3 data1.
  pose proof (lookup_lt_Some _ _ _ Htok) as Hip.
  assert (extended_length data1 (literal_len token) (S ip0)
          = Ok (530, (ip0 + 4)%nat)) as Hext.
  { unfold extended_length. rewrite Hnib. rewrite decide_True by done.
    replace (S ip0) with (ip0 + 1)%nat by lia.
    rewrite (read_extra_length_FF_FF_05 data1 (ip0 + 1)).
    - simpl. do 2 f_equal. lia.
    - unfold data1. by rewrite list_lookup_insert_ne by lia.
    - unfold data1. rewrite list_lookup_insert_ne by lia.
      by replace (ip0 + 1 + 1)%nat with (ip0 + 2)%nat by lia.
    - unfold data1. rewrite list_lookup_insert_ne by lia.
      by replace (ip0 + 1 + 2)%nat with (ip0 + 3)%nat by lia. }
  assert (∀ st, lzak_body uncompressed_size (LzakState data ip0 op0) = st →
    (if decide (to_size_t uncompressed_size ≤ to_size_t (op0 + 530)) then
       Ok (LzakState data1 (ip0 + 534) (to_size_t (op0 + 530)), false)
     else if decide (length data < ip0 + 534 + 2)%nat then
       Ok (LzakState data1 (ip0 + 534) (to_size_t (op0 + 530)), false)
     else
       b0 ← index data1 (ip0 + 534);
       b1 ← index data1 (ip0 + 534 + 1);
       data ← store data1 (ip0 + 534) b1;
       data ← store data (ip0 + 534 + 1) b0;
       '(current_match_len, ip) ←
         extended_length data (match_len_nibble token) (ip0 + 534 + 2);
       Ok (LzakState data ip
             (to_size_t (to_size_t (op0 + 530)
                         + to_size_t (current_match_len + 4))), true)) = st)
    as Hbody.
  { intros st <-. unfold lzak_body; simpl.
    rewrite (proj2 (index_Ok _ _ _) Htok); simpl.
    rewrite store_lt by done; simpl. fold data1. rewrite Hext. simpl.
    replace (ip0 + 4 + Z.to_nat 530)%nat with (ip0 + 534)%nat by lia.
    done. }
  split; [done |]. split.
  - intros Hstop. rewrite <- (Hbody _ eq_refl).
    destruct (decide (to_size_t uncompressed_size ≤ to_size_t (op0 + 530)));
      [done |].
    rewrite decide_True by (destruct Hstop; [done | lia]). done.
  - intros st' Hgo. rewrite <- (Hbody _ eq_refl) in Hgo.
    destruct (decide (to_size_t uncompressed_size ≤ to_size_t (op0 + 530)));
      [discriminate |].
    destruct (decide (length data < ip0 + 534 + 2)%nat) as [|Hroom];
      [discriminate |].
    assert (length data1 = length data) as Hlen1 by apply length_insert.
    apply outcome_bind_Ok in Hgo as (b0 & Hb0 & Hgo).
    apply outcome_bind_Ok in Hgo as (b1 & Hb1 & Hgo).
    rewrite store_lt in Hgo by lia. simpl in Hgo.
    rewrite store_lt in Hgo by (rewrite length_insert; lia). simpl in Hgo.
    apply outcome_bind_Ok in Hgo as ([mlen ip3] & Hm & Hgo).
    injection Hgo as <-. simpl.
    apply index_Ok in Hb0, Hb1.
    unfold data1 in Hb0, Hb1.
    rewrite list_lookup_insert_ne in Hb0, Hb1 by lia.
    replace (ip0 + 534 + 1)%nat with (ip0 + 535)%nat in * by lia.
    destruct (extended_length_spec
                (<[(ip0 + 535)%nat := b0]> (<[(ip0 + 534)%nat := b1]> data1))
                (match_len_nibble token) (ip0 + 534 + 2)
                (match_len_nibble_bounds token))
      as [(mlen' & ip3' & Hm' & Hle & _)|[Hm' _]]; [|congruence].
    rewrite Hm in Hm'. injection Hm' as -> ->.
    split; [lia |]. split.
    + rewrite list_lookup_insert_ne by lia.
      rewrite list_lookup_insert_eq by lia. done.
    + rewrite list_lookup_insert_eq by (rewrite length_insert; lia). done.
Qed.

Lemma literal_length_FF_FF_05_witness :
  let data := bs [0x3F; 0xFF; 0xFF; 0x05; 0x61; 0x62] in
  extended_length (<[0%nat := fixed_token Byte.x3f]> data)
    (literal_len Byte.x3f) 1 = Ok (530, 4%nat)
  ∧ lzak_body 600 (LzakState data 0 0)
    = Ok (LzakState (<[0%nat := fixed_token Byte.x3f]> data) 534 530, false).
Proof.
  pose proof (literal_length_FF_FF_05
                (bs [0x3F; 0xFF; 0xFF; 0x05; 0x61; 0x62]) 0 0 600 Byte.x3f
                eq_refl eq_refl eq_refl eq_refl eq_refl) as (Hlen & Hstop & _).
  split; [exact Hlen |].
  apply Hstop. right. simpl. lia.
Defined.

(** C3 as stated fails: on the buffer 0F FF FF 05 the literal length is
    530, not 524, and the cursor ends 534 bytes after the token. *)
Lemma literal_length_524_counterexample :
  let data := bs [0x0F; 0xFF; 0xFF; 0x05] in
  extended_length (<[0%nat := fixed_token Byte.x0f]> data)
    (literal_len Byte.x0f) 1 = Ok (530, 4%nat)
  ∧ lzak_body 1000 (LzakState data 0 0)
    = Ok (LzakState (bs [0xF0; 0xFF; 0xFF; 0x05]) 534 530, false)
  ∧ 530 ≠ 524
  ∧ 15 + 0xFF + 0xFF + 0x05 = 530.
Proof. vm_compute. repeat split; congruence. Qed.

(** ** Where the rewrite loop stops *)

(** C6: [decompress_lzak] answers an empty input with an empty output,
    at once (no decoder is called, nothing is logged).  Otherwise a pass
    of the loop that, after the literal, finds the output counter at or
    beyond the target, or fewer than two bytes left for the match
    distance, ends the loop without error: the buffer is the one it
    started the pass with, but for the token, and nothing behind the
    literal has been touched. *)
Theorem lzak_loop_stops `{Libraries} :
  (∀ uncompressed_size : Z,
      decompress_lzak [] uncompressed_size = Logged [] (Ok []))
  ∧ (∀ (fuel : nat) (uncompressed_size : Z) (st : lzak_state)
       (token : byte) (len : Z) (ip1 : nat),
      fixed_data st !! ip st = Some token →
      let data1 := <[ip st := fixed_token token]> (fixed_data st) in
      extended_length data1 (literal_len token) (S (ip st)) = Ok (len, ip1) →
      let st' :=
        LzakState data1 (ip1 + Z.to_nat len) (to_size_t (op st + len)) in
      to_size_t uncompressed_size ≤ op st'
      ∨ (length (fixed_data st) < ip st' + 2)%nat →
      lzak_loop (S fuel) uncompressed_size st = Ok st').
Proof.
  split; [done |].
  intros fuel uncompressed_size st token len ip1 Htok data1 Hext st' Hstop.
  pose proof (lookup_lt_Some _ _ _ Htok) as Hip.
  simpl. rewrite decide_True by done.
  unfold lzak_body.
  rewrite (proj2 (index_Ok _ _ _) Htok); simpl.
  rewrite store_lt by done; simpl. fold data1. rewrite Hext; simpl.
  destruct (decide (to_size_t uncompressed_size ≤ to_size_t (op st + len)));
    [done |].
  rewrite decide_True by (destruct Hstop; [done | simpl in *; lia]).
  done.
Qed.

Lemma lzak_loop_stops_witness :
  lzak_loop 4 1 (LzakState (bs [0x21; 0x41; 0x01; 0x00]) 0 0)
  = Ok (LzakState (bs [0x12; 0x41; 0x01; 0x00]) 2 1)
  ∧ lzak_loop 3 1000 (LzakState (bs [0x21; 0x41; 0x01]) 0 0)
    = Ok (LzakState (bs [0x12; 0x41; 0x01]) 2 1).
Proof.
  split.
  - apply (proj2 (@lzak_loop_stops stored_libraries) 3%nat 1
             (LzakState (bs [0x21; 0x41; 0x01; 0x00]) 0 0) Byte.x21 1 1%nat
             eq_refl eq_refl).
    left. vm_compute. congruence.
  - apply (proj2 (@lzak_loop_stops stored_libraries) 2%nat 1000
             (LzakState (bs [0x21; 0x41; 0x01]) 0 0) Byte.x21 1 1%nat
             eq_refl eq_refl).
    right. vm_compute. lia.
Defined.

(** ** Accesses stay inside the buffer *)



(** ** The logging monad *)

Lemma logged_eta {A} (m : logged A) : Logged (stderr m) (value m) = m.
Proof. by destruct m. Qed.

Lemma lift_Ok_bind {A B} (a : A) (f : A → logged B) : lift (Ok a) ≫= f = f a.
Proof. unfold mbind, logged_bind. simpl. apply logged_eta. Qed.

Lemma logged_bind_Ok {A B} (m : logged A) (f : A → logged B)
    (log : list warning) (b : B) :
  m ≫= f = Logged log (Ok b) →
  ∃ a l1 l2, m = Logged l1 (Ok a) ∧ f a = Logged l2 (Ok b) ∧ log = l1 ++ l2.
Proof.
  destruct m as [l1 [a|e]]; unfold mbind, logged_bind; simpl; [|discriminate].
  intros [= <- Hv]. exists a, l1, (stderr (f a)).
  repeat split. rewrite <- Hv. symmetry. apply logged_eta.
Qed.

Lemma lift_bind_Ok {A B} (m : outcome A) (f : A → logged B)
    (log : list warning) (b : B) :
  lift m ≫= f = Logged log (Ok b) →
  ∃ a, m = Ok a ∧ f a = Logged log (Ok b).
Proof.
  destruct m as [a|e]; [|discriminate].
  rewrite lift_Ok_bind. eauto.
Qed.

(** ** Buffers and conversions *)

Lemma length_written (dst out : list byte) :
  length (written dst out) = length dst.
Proof.
  unfold written. rewrite length_take, length_app, length_drop. lia.
Qed.

Lemma length_resize (n : nat) (v : list byte) : length (resize n v) = n.
Proof.
  unfold resize. rewrite length_app, length_take, length_replicate. lia.
Qed.

Lemma to_int_small (z : Z) : 0 ≤ z < 2 ^ 31 → to_int z = z.
Proof.
  intros Hz. unfold to_int, to_signed.
  rewrite Z.mod_small by lia. rewrite decide_True by (simpl; lia). done.
Qed.

Lemma to_int_large (z : Z) : 2 ^ 31 ≤ z < 2 ^ 32 → to_int z = z - 2 ^ 32.
Proof.
  intros Hz. unfold to_int, to_signed.
  rewrite Z.mod_small by lia. rewrite decide_False by (simpl; lia). done.
Qed.

Lemma vector_alloc_Ok (n : Z) (v : list byte) :
  vector_alloc n = Ok v → n ≤ PTRDIFF_MAX ∧ length v = Z.to_nat n.
Proof.
  unfold vector_alloc. case_decide; [|discriminate].
  intros [= <-]. by rewrite length_replicate.
Qed.

(** [decompress_lzak] allocates its destination only for a declared size
    that is a non-negative [int]. *)
Lemma vector_alloc_declared (decompressed_size : Z) (v : list byte) :
  0 ≤ decompressed_size < 2 ^ 32 →
  vector_alloc (to_size_t (to_int decompressed_size)) = Ok v →
  to_int decompressed_size = decompressed_size
  ∧ decompressed_size < 2 ^ 31
  ∧ length v = Z.to_nat decompressed_size.
Proof.
  intros Hrange Halloc. apply vector_alloc_Ok in Halloc as [Hmax Hlen].
  destruct (decide (decompressed_size < 2 ^ 31)) as [Hlt|Hge].
  - rewrite to_int_small in * by lia.
    rewrite to_size_t_small in Hlen by lia. done.
  - rewrite to_int_large in Hmax by lia.
    unfold to_size_t, to_unsigned, PTRDIFF_MAX in Hmax.
    replace (decompressed_size - 2 ^ 32)
      with (decompressed_size + (2 ^ 64 - 2 ^ 32) + (-1) * 2 ^ 64) in Hmax by lia.
    rewrite Z.mod_add in Hmax by lia.
    rewrite Z.mod_small in Hmax by lia. lia.
Qed.

(** ** The dispatcher *)

Section DispatcherProperties.
Context `{Libraries}.

(** What a successful [decompress_lzak] returns, for a declared size that
    came in as a [uint32_t]: nothing for an empty slice; otherwise the
    destination as the LZ4 decoder left it, cut or padded to the count
    the decoder returned when that is not the declared size. *)
Lemma decompress_lzak_Ok (src : list byte) (decompressed_size : Z)
    (log : list warning) (out : list byte) :
  0 ≤ decompressed_size < 2 ^ 32 →
  decompress_lzak src (to_int decompressed_size) = Logged log (Ok out) →
  (src = [] ∧ out = [] ∧ log = [])
  ∨ (∃ (st : lzak_state) (result : Z) (o : list byte),
        src ≠ [] ∧ decompressed_size < 2 ^ 31
        ∧ lzak_rewrite src decompressed_size = Ok st
        ∧ LZ4_decompress_safe (fixed_data st)
            (to_int (Z.of_nat (length (fixed_data st)))) decompressed_size
          = (result, o)
        ∧ 0 ≤ result
        ∧ let dest :=
            written (replicate (Z.to_nat decompressed_size) Byte.x00) o in
          (result = decompressed_size ∧ log = [] ∧ out = dest
           ∧ Z.of_nat (length out) = decompressed_size)
          ∨ (result ≠ decompressed_size
             ∧ log = [LZ4AK_expected_got decompressed_size result]
             ∧ out = resize (Z.to_nat (to_size_t result)) dest
             ∧ Z.of_nat (length out) = to_size_t result)).
Proof.
  intros Hrange Hrun. destruct src as [|b src].
  { left. injection Hrun as <- <-. done. }
  right. unfold decompress_lzak in Hrun.
  apply lift_bind_Ok in Hrun as (st & Hst & Hrun).
  apply lift_bind_Ok in Hrun as (dest & Halloc & Hrun).
  pose proof (vector_alloc_declared _ _ Hrange Halloc) as (Hint & Hlt & _).
  rewrite Hint in Hrun, Hst, Halloc.
  unfold vector_alloc in Halloc. rewrite to_size_t_small in Halloc by lia.
  case_decide; [|discriminate]. injection Halloc as <-.
  destruct (LZ4_decompress_safe _ _ _) as [result o] eqn:Hlz4.
  exists st, result, o.
  destruct (decide (result < 0)); [discriminate |].
  split; [done |]. split; [done |]. split; [done |]. split; [done |].
  split; [lia |]. cbv zeta.
  destruct (decide (result ≠ decompressed_size)) as [Hne|Heq].
  - right. injection Hrun as <- <-. rewrite length_resize.
    assert (0 ≤ to_size_t result)
      by (unfold to_size_t, to_unsigned; apply Z.mod_pos_bound; lia).
    repeat split; (done || lia).
  - left. injection Hrun as <- <-.
    rewrite length_written, length_replicate.
    repeat split; (done || lia).
Qed.

(** C8: under the LZMA identifier a slice of fewer than 5 bytes makes
    [decompress_block] throw before the decoder is called, whatever the
    decoder is, and before the 5 property bytes are copied out of the
    slice; with 5 bytes or more that copy stays inside the slice, the
    first 5 bytes go to the decoder as its properties and the rest of the
    slice, 5 bytes shorter, is what it decodes. *)
Theorem lzma_slice_needs_5_bytes :
  (∀ (src : list byte) (decompressed_size : Z) (mode : GameMode),
      (length src < 5)%nat →
      decompress_block CompressionType.Lzma src decompressed_size mode
      = Logged [] (Raise Invalid_LZMA_data))
  ∧ (∀ (src : list byte) (decompressed_size : Z) (mode : GameMode),
      (5 ≤ length src)%nat →
      decompress_block CompressionType.Lzma src decompressed_size mode
      = let '(res, out) :=
          LzmaUncompress decompressed_size (drop 5 src)
            (Z.of_nat (length src) - 5) (take 5 src) 5 in
        if decide (res ≠ SZ_OK) then Logged [] (Raise LZMA_Decomp_failed)
        else Logged []
               (Ok (written (replicate (Z.to_nat decompressed_size) Byte.x00)
                      out))).
Proof.
  split; intros src decompressed_size mode Hlen; unfold decompress_block.
  - by rewrite decide_True.
  - rewrite decide_False by lia. unfold memcpy.
    rewrite decide_True by done. by rewrite lift_Ok_bind.
Qed.

(** C2 (amended): what a successful call of the dispatcher returns.
    - Under None it is the compressed slice itself, whatever the declared
      size, and nothing is logged.
    - Under LZMA, LZ4, LZ4-HC and, for the standard game, LZHAM it is
      exactly the declared number of bytes and nothing is logged: the
      destination, sized beforehand and never cut, with what the decoder
      of that code wrote at its start.
    - Under LZHAM for Arknights it is nothing at all for an empty slice.
      Otherwise the declared size is a non-negative [int], the rewrite
      was done and the LZ4 decoder, called on the rewritten slice,
      returned a count that is not negative: when the count is the
      declared size the result is the destination as the decoder left
      it, the declared number of bytes, and nothing is logged; when it
      is another count the result is that destination cut or padded to
      the count, and the one line logged names the declared size and
      that count.
    A decoder result that is not negative is never an error under LZ4 and
    LZ4-HC, nor under LZHAM for Arknights once the rewrite is done and the
    declared size is a non-negative [int]. *)
Theorem decompress_block_size (src : list byte) (decompressed_size : Z)
    (mode : GameMode) :
  0 ≤ decompressed_size < 2 ^ 32 →
  decompress_block CompressionType.None src decompressed_size mode
  = Logged [] (Ok src)
  ∧ (∀ (type : CompressionType.t) (log : list warning) (out : list byte),
      decompress_block type src decompressed_size mode = Logged log (Ok out) →
      type ≠ CompressionType.None →
      ¬ (type = CompressionType.Lzham ∧ mode = Arknights) →
      Z.of_nat (length out) = decompressed_size ∧ log = []
      ∧ out
        = written (replicate (Z.to_nat decompressed_size) Byte.x00)
            match type with
            | CompressionType.Lzma =>
                (LzmaUncompress decompressed_size (drop 5 src)
                   (Z.of_nat (length src) - 5) (take 5 src) 5).2
            | CompressionType.Lz4 | CompressionType.Lz4hc =>
                (LZ4_decompress_safe src (to_int (Z.of_nat (length src)))
                   (to_int decompressed_size)).2
            | _ =>
                (lzham_decompress_memory 29 decompressed_size src
                   (Z.of_nat (length src))).2
            end)
  ∧ (∀ (log : list warning) (out : list byte),
      decompress_block CompressionType.Lzham src decompressed_size Arknights
      = Logged log (Ok out) →
      (src = [] ∧ out = [] ∧ log = [])
      ∨ (∃ (st : lzak_state) (result : Z) (o : list byte),
            src ≠ [] ∧ decompressed_size < 2 ^ 31
            ∧ lzak_rewrite src decompressed_size = Ok st
            ∧ LZ4_decompress_safe (fixed_data st)
                (to_int (Z.of_nat (length (fixed_data st)))) decompressed_size
              = (result, o)
            ∧ 0 ≤ result
            ∧ let dest :=
                written (replicate (Z.to_nat decompressed_size) Byte.x00) o in
              (result = decompressed_size ∧ log = [] ∧ out = dest
               ∧ Z.of_nat (length out) = decompressed_size)
              ∨ (result ≠ decompressed_size
                 ∧ log = [LZ4AK_expected_got decompressed_size result]
                 ∧ out = resize (Z.to_nat (to_size_t result)) dest
                 ∧ Z.of_nat (length out) = to_size_t result)))
  ∧ (∀ type : CompressionType.t,
      type = CompressionType.Lz4 ∨ type = CompressionType.Lz4hc →
      0 ≤ (LZ4_decompress_safe src (to_int (Z.of_nat (length src)))
             (to_int decompressed_size)).1 →
      ∃ out : list byte,
        decompress_block type src decompressed_size mode = Logged [] (Ok out))
  ∧ (∀ st : lzak_state,
      src ≠ [] →
      decompressed_size < 2 ^ 31 →
      lzak_rewrite src (to_int decompressed_size) = Ok st →
      0 ≤ (LZ4_decompress_safe (fixed_data st)
             (to_int (Z.of_nat (length (fixed_data st))))
             (to_int decompressed_size)).1 →
      ∃ (log : list warning) (out : list byte),
        decompress_block CompressionType.Lzham src decompressed_size Arknights
        = Logged log (Ok out)).
Proof.
  intros Hrange. split; [done |]. split; [|split; [|split]].
  - intros type log out Hrun Hnone Hlzak.
    assert (length (replicate (Z.to_nat decompressed_size) Byte.x00)
            = Z.to_nat decompressed_size) as Hdst by apply length_replicate.
    destruct type; simpl in Hrun; try done.
    + destruct (decide (length src < 5)%nat); [discriminate |].
      apply (lift_bind_Ok (memcpy src 5)) in Hrun as (props & Hprops & Hrun).
      unfold memcpy in Hprops. case_decide; [|discriminate].
      injection Hprops as <-.
      destruct (LzmaUncompress _ _ _ _ _) as [res o].
      destruct (decide (res ≠ SZ_OK)); [discriminate |].
      injection Hrun as <- <-. rewrite length_written, Hdst.
      repeat split; (done || lia).
    + destruct (LZ4_decompress_safe _ _ _) as [res o].
      destruct (decide (res < 0)); [discriminate |].
      injection Hrun as <- <-. rewrite length_written, Hdst.
      repeat split; (done || lia).
    + destruct (LZ4_decompress_safe _ _ _) as [res o].
      destruct (decide (res < 0)); [discriminate |].
      injection Hrun as <- <-. rewrite length_written, Hdst.
      repeat split; (done || lia).
    + destruct mode; [|exfalso; by apply Hlzak].
      destruct (lzham_decompress_memory _ _ _ _) as [status o].
      destruct (decide (status ≠ LZHAM_COMP_STATUS_SUCCESS)); [discriminate |].
      injection Hrun as <- <-. rewrite length_written, Hdst.
      repeat split; (done || lia).
  - intros log out Hrun. simpl in Hrun. by apply decompress_lzak_Ok.
  - intros type Htype Hres.
    destruct Htype as [-> | ->]; simpl;
      destruct (LZ4_decompress_safe _ _ _) as [res o]; simpl in Hres;
      rewrite decide_False by lia; eauto.
  - intros st Hsrc Hlt Hrw Hres. simpl. unfold decompress_lzak.
    destruct src as [|b src]; [done |].
    rewrite Hrw, lift_Ok_bind.
    rewrite (to_int_small decompressed_size) in Hres |- * by lia.
    unfold vector_alloc.
    rewrite (to_size_t_small decompressed_size) by lia.
    rewrite decide_True by (unfold PTRDIFF_MAX; lia).
    rewrite lift_Ok_bind.
    destruct (LZ4_decompress_safe _ _ _) as [res o]; simpl in Hres.
    rewrite decide_False by lia.
    destruct (decide (res ≠ decompressed_size)); eauto.
Qed.

End DispatcherProperties.

Lemma lzma_slice_needs_5_bytes_witness :
  decompress_block (H := stored_libraries) CompressionType.Lzma
    (bs [0x5D; 0; 0; 0x10]) 3 Standard
  = Logged [] (Raise Invalid_LZMA_data)
  ∧ decompress_block (H := stored_libraries) CompressionType.Lzma
      (bs [0x5D; 0; 0; 0x10; 0; 0x61; 0x62]) 3 Standard
    = Logged [] (Ok (bs [0x61; 0x62; 0])).
Proof.
  split.
  - apply (proj1 (@lzma_slice_needs_5_bytes stored_libraries)). simpl. lia.
  - rewrite (proj2 (@lzma_slice_needs_5_bytes stored_libraries))
      by (simpl; lia).
    reflexivity.
Defined.

Lemma decompress_block_size_witness :
  decompress_block (H := stored_libraries) CompressionType.None
    (bs [1; 2; 3]) 3 Standard = Logged [] (Ok (bs [1; 2; 3]))
  ∧ (∃ (st : lzak_state) (result : Z) (o : list byte),
        lzak_rewrite (bs [0x30; 1; 2]) 4 = Ok st
        ∧ LZ4_decompress_safe (Libraries := stored_libraries) (fixed_data st)
            (to_int (Z.of_nat (length (fixed_data st)))) 4
          = (result, o)
        ∧ result ≠ 4
        ∧ [LZ4AK_expected_got 4 3] = [LZ4AK_expected_got 4 result]
        ∧ bs [0x03; 2; 1]
          = resize (Z.to_nat (to_size_t result))
              (written (replicate (Z.to_nat 4) Byte.x00) o)).
Proof.
  destruct (@decompress_block_size stored_libraries (bs [0x30; 1; 2]) 4
              Arknights ltac:(lia)) as (_ & _ & Hlzak & _).
  split.
  - apply (@decompress_block_size stored_libraries (bs [1; 2; 3]) 3 Standard).
    lia.
  - destruct (Hlzak [LZ4AK_expected_got 4 3] (bs [0x03; 2; 1]) eq_refl)
      as [(Hsrc & _)
         |(st & result & o & _ & _ & Hst & Hlz4 & _
           & [(_ & Hlog & _)|(Hne & Hlog & Hout & _)])].
    + discriminate Hsrc.
    + discriminate Hlog.
    + exists st, result, o. repeat split; assumption.
Defined.

(** C2 as stated fails under None: the slice comes back as it is, here 3
    bytes for a declared size of 1, and nothing is logged; and under
    LZHAM for Arknights an empty slice gives 0 bytes for a declared size
    of 4 with nothing logged. *)
Lemma decompress_block_size_counterexample :
  decompress_block (H := stored_libraries) CompressionType.None
    (bs [1; 2; 3]) 1 Standard = Logged [] (Ok (bs [1; 2; 3]))
  ∧ length (bs [1; 2; 3]) = 3%nat
  ∧ decompress_block (H := stored_libraries) CompressionType.Lzham
      [] 4 Arknights = Logged [] (Ok []).
Proof. repeat split. Qed.

(** ** Byte order *)

Lemma length_be (n : nat) (v : Z) : length (be n v) = n.
Proof. unfold be. by rewrite length_rev, length_le_split. Qed.

Lemma le_split_mod (n : nat) (v : Z) :
  le_split n (v mod 2 ^ (8 * Z.of_nat n)) = le_split n v.
Proof.
  apply le_combine_inj; [by rewrite !length_le_split |].
  rewrite !le_combine_split.
  replace (Z.of_nat n * 8) with (8 * Z.of_nat n) by lia.
  apply Z.mod_mod. apply Z.pow_nonzero; lia.
Qed.

(** What [swap_endian] leaves in memory. *)
Lemma le_split_swap_endian (n : nat) (v : Z) :
  le_split n (swap_endian n v) = be n v.
Proof.
  unfold swap_endian, be. destruct (decide (n = 1%nat)) as [->|_]; [done |].
  pose proof (split_le_combine (rev (le_split n v))) as Hsplit.
  by rewrite length_rev, length_le_split in Hsplit.
Qed.

Lemma swap_endian_le_combine_be (n : nat) (v : Z) :
  swap_endian n (le_combine (be n v)) = v mod 2 ^ (8 * Z.of_nat n).
Proof.
  replace (8 * Z.of_nat n) with (Z.of_nat n * 8) by lia.
  unfold swap_endian, be. destruct (decide (n = 1%nat)) as [->|_].
  - apply (le_combine_split 1 v).
  - pose proof (split_le_combine (rev (le_split n v))) as Hsplit.
    rewrite length_rev, length_le_split in Hsplit.
    rewrite Hsplit, rev_involutive.
    apply le_combine_split.
Qed.

Lemma swap_endian_range (n : nat) (l : list byte) :
  length l = n → 0 ≤ swap_endian n (le_combine l) < 2 ^ (8 * Z.of_nat n).
Proof.
  intros Hl. unfold swap_endian. destruct (decide (n = 1%nat)) as [Hn|_].
  - rewrite <- Hl. apply le_combine_bound.
  - pose proof (le_combine_bound (rev (le_split n (le_combine l)))) as Hb.
    by rewrite length_rev, length_le_split in Hb.
Qed.

Lemma write_be_be (n : nat) (ofs : list byte) (val : Z) :
  write_be n ofs val = ofs ++ be n val.
Proof.
  unfold write_be, to_unsigned. cbv zeta. rewrite le_split_swap_endian.
  unfold be. by rewrite le_split_mod.
Qed.

Lemma push_u32_be_be (blob : list byte) (v : Z) :
  push_u32_be blob v = blob ++ be 4 v.
Proof. unfold push_u32_be. by rewrite le_split_swap_endian. Qed.

Lemma push_u16_be_be (blob : list byte) (v : Z) :
  push_u16_be blob v = blob ++ be 2 v.
Proof. unfold push_u16_be. by rewrite le_split_swap_endian. Qed.

Lemma push_s64_be_be (blob : list byte) (v : Z) :
  push_s64_be blob v = blob ++ be 8 v.
Proof.
  unfold push_s64_be, to_unsigned. rewrite le_split_swap_endian.
  pose proof (le_split_mod 8 v) as Hmod.
  change (8 * Z.of_nat 8) with 64 in Hmod.
  unfold be. by rewrite Hmod.
Qed.

Lemma to_unsigned_range (w z : Z) : 0 ≤ w → 0 ≤ to_unsigned w z < 2 ^ w.
Proof. intros Hw. unfold to_unsigned. apply Z.mod_pos_bound. lia. Qed.

Lemma to_unsigned_small (w z : Z) : 0 ≤ z < 2 ^ w → to_unsigned w z = z.
Proof. intros Hz. unfold to_unsigned. by apply Z.mod_small. Qed.

Lemma to_unsigned_to_signed (w z : Z) :
  0 < w → to_unsigned w (to_signed w z) = z mod 2 ^ w.
Proof.
  intros Hw. unfold to_unsigned, to_signed.
  assert (0 < 2 ^ w) by lia.
  destruct (decide (z mod 2 ^ w < 2 ^ (w - 1))).
  - apply Z.mod_mod. lia.
  - replace (z mod 2 ^ w - 2 ^ w) with (z mod 2 ^ w + (-1) * 2 ^ w) by lia.
    rewrite Z.mod_add by lia. apply Z.mod_mod. lia.
Qed.

Lemma be_to_signed (v : Z) : be 8 (to_signed 64 v) = be 8 v.
Proof.
  unfold be. f_equal.
  rewrite <- (le_split_mod 8 (to_signed 64 v)), <- (le_split_mod 8 v).
  f_equal. change (8 * Z.of_nat 8) with 64.
  apply (to_unsigned_to_signed 64 v). lia.
Qed.

(** ** BinaryReader *)

Lemma at_pos_0 (data : list byte) : at_pos data 0 data.
Proof. split; [lia | done]. Qed.

Lemma at_pos_length (data : list byte) (pos : nat) (rest : list byte) :
  at_pos data pos rest → length data = (pos + length rest)%nat.
Proof. intros [Hle <-]. rewrite length_drop. lia. Qed.

Lemma at_pos_app (data : list byte) (pos : nat) (x rest : list byte) :
  at_pos data pos (x ++ rest) → at_pos data (pos + length x) rest.
Proof.
  intros Hat. pose proof (at_pos_length _ _ _ Hat) as Hlen.
  destruct Hat as [Hle Hdrop]. rewrite length_app in Hlen.
  split; [lia |].
  rewrite <- drop_drop, Hdrop. by rewrite drop_app_length.
Qed.

Lemma at_pos_take (data : list byte) (pos : nat) (x rest : list byte) :
  at_pos data pos (x ++ rest) → take (length x) (drop pos data) = x.
Proof. intros [_ ->]. by rewrite take_app_length. Qed.

Lemma at_pos_lookup (data : list byte) (pos : nat) (b : byte) (rest : list byte) :
  at_pos data pos (b :: rest) → data !! pos = Some b.
Proof.
  intros [_ Hdrop].
  rewrite <- (Nat.add_0_r pos), <- lookup_drop, Hdrop. done.
Qed.

Lemma read_be_at (n : nat) (data : list byte) (pos : nat) (v : Z)
    (rest : list byte) :
  at_pos data pos (be n v ++ rest) →
  read_be n data pos = Ok (v mod 2 ^ (8 * Z.of_nat n), (pos + n)%nat).
Proof.
  intros Hat. pose proof (at_pos_length _ _ _ Hat) as Hlen.
  rewrite length_app, length_be in Hlen.
  unfold read_be. rewrite decide_False by lia.
  pose proof (at_pos_take _ _ _ _ Hat) as Htake.
  rewrite length_be in Htake. rewrite Htake.
  by rewrite swap_endian_le_combine_be.
Qed.

Lemma read_be_Ok (n : nat) (data : list byte) (pos pos' : nat) (v : Z) :
  read_be n data pos = Ok (v, pos') →
  0 ≤ v < 2 ^ (8 * Z.of_nat n) ∧ pos' = (pos + n)%nat.
Proof.
  unfold read_be. case_decide as Hlen; [discriminate |].
  intros [= <- <-]. split; [|done].
  apply swap_endian_range. rewrite length_take, length_drop. lia.
Qed.

Lemma read_string_loop_at (s : list byte) :
  ∀ (fuel : nat) (data acc : list byte) (pos : nat) (rest : list byte),
    at_pos data pos (s ++ Byte.x00 :: rest) → cstring s →
    (length s ≤ fuel)%nat →
    read_string_loop fuel data acc pos = Ok (acc ++ s, (pos + length s)%nat).
Proof.
  induction s as [|b s IH]; intros fuel data acc pos rest Hat Hs Hfuel.
  - simpl in Hat. pose proof (at_pos_length _ _ _ Hat) as Hlen.
    pose proof (at_pos_lookup _ _ _ _ Hat) as Hb. simpl in Hlen.
    destruct fuel; simpl; rewrite decide_True by lia;
      rewrite (proj2 (index_Ok _ _ _) Hb); simpl;
      rewrite app_nil_r, Nat.add_0_r; done.
  - simpl in Hat. pose proof (at_pos_length _ _ _ Hat) as Hlen.
    pose proof (at_pos_lookup _ _ _ _ Hat) as Hb. simpl in Hlen.
    apply Forall_cons in Hs as [Hb0 Hs].
    destruct fuel as [|fuel]; [simpl in Hfuel; lia |]. simpl.
    rewrite decide_True by lia.
    rewrite (proj2 (index_Ok _ _ _) Hb); simpl.
    rewrite decide_True by done.
    rewrite (IH fuel data (acc ++ [b]) (S pos) rest).
    + rewrite <- app_assoc. simpl. do 2 f_equal. lia.
    + replace (S pos) with (pos + length [b])%nat by (simpl; lia).
      by apply (at_pos_app data pos [b]).
    + done.
    + simpl in Hfuel. lia.
Qed.

Lemma read_string_at (data : list byte) (pos : nat) (s rest : list byte) :
  at_pos data pos (s ++ Byte.x00 :: rest) → cstring s →
  read_string data pos = Ok (s, (pos + length (s ++ [Byte.x00]))%nat).
Proof.
  intros Hat Hs. pose proof (at_pos_length _ _ _ Hat) as Hlen.
  rewrite length_app in Hlen. unfold read_string.
  rewrite (read_string_loop_at s _ data [] pos rest Hat Hs) by lia.
  simpl. rewrite length_app. simpl. do 2 f_equal. lia.
Qed.

Lemma read_string_loop_cstring (fuel : nat) (data : list byte) :
  ∀ (acc : list byte) (pos : nat) (s : list byte) (pos' : nat),
    cstring acc →
    read_string_loop fuel data acc pos = Ok (s, pos') → cstring s.
Proof.
  induction fuel as [|fuel IH]; intros acc pos s pos' Hacc; simpl.
  - case_decide; [|by intros [= <- _]].
    destruct (index data pos) as [b|]; [|discriminate]. simpl.
    case_decide; [discriminate | by intros [= <- _]].
  - case_decide; [|by intros [= <- _]].
    destruct (index data pos) as [b|]; [|discriminate]. simpl.
    case_decide as Hb; [|by intros [= <- _]].
    apply IH. apply Forall_app. split; [done |]. by apply Forall_singleton.
Qed.

Lemma read_string_cstring (data : list byte) (pos pos' : nat) (s : list byte) :
  read_string data pos = Ok (s, pos') → cstring s.
Proof.
  unfold read_string. intros Hrun.
  apply outcome_bind_Ok in Hrun as ([s' p] & Hloop & Hrun).
  injection Hrun as <- <-.
  eapply read_string_loop_cstring; [|exact Hloop]. constructor.
Qed.

Lemma get_span_at (data : list byte) (pos : nat) (x rest : list byte) :
  at_pos data pos (x ++ rest) →
  get_span (length x) data pos = Ok (x, (pos + length x)%nat).
Proof.
  intros Hat. pose proof (at_pos_length _ _ _ Hat) as Hlen.
  rewrite length_app in Hlen.
  unfold get_span. rewrite decide_False by lia.
  by rewrite (at_pos_take _ _ _ _ Hat).
Qed.

Lemma get_span_Ok (n : nat) (data : list byte) (pos pos' : nat) (x : list byte) :
  get_span n data pos = Ok (x, pos') → length x = n.
Proof.
  unfold get_span. case_decide; [discriminate |].
  intros [= <- <-]. rewrite length_take, length_drop. lia.
Qed.

Lemma read_bytes_at (data : list byte) (pos : nat) (x rest : list byte) :
  at_pos data pos (x ++ rest) →
  read_bytes (length x) data pos = Ok (x, (pos + length x)%nat).
Proof. exact (get_span_at data pos x rest). Qed.

(** [align(16)] moves the position to the next multiple of 16. *)
Lemma pad16_0 (pos : nat) :
  (pos mod 16 = 0)%nat → ((16 - pos mod 16) mod 16 = 0)%nat.
Proof. intros ->. reflexivity. Qed.

Lemma pad16_S (pos : nat) :
  (pos mod 16 ≠ 0)%nat →
  ((16 - pos mod 16) mod 16 = S ((16 - S pos mod 16) mod 16))%nat.
Proof.
  intros Hne.
  pose proof (Nat.mod_upper_bound pos 16 ltac:(lia)).
  pose proof (Nat.div_mod_eq pos 16).
  pose proof (Nat.div_mod_eq (S pos) 16).
  pose proof (Nat.mod_upper_bound (S pos) 16 ltac:(lia)).
  pose proof (Nat.div_mod_eq (16 - pos mod 16) 16).
  pose proof (Nat.mod_upper_bound (16 - pos mod 16) 16 ltac:(lia)).
  pose proof (Nat.div_mod_eq (16 - S pos mod 16) 16).
  pose proof (Nat.mod_upper_bound (16 - S pos mod 16) 16 ltac:(lia)).
  nia.
Qed.

Lemma reader_align_loop_16 (fuel : nat) :
  ∀ pos : nat,
    ((16 - pos mod 16) mod 16 ≤ fuel)%nat →
    reader_align_loop fuel 16 pos
    = Ok (pos + (16 - pos mod 16) mod 16)%nat.
Proof.
  induction fuel as [|fuel IH]; intros pos Hfuel;
    unfold reader_align_loop; fold reader_align_loop;
    destruct (decide (pos mod 16 ≠ 0)%nat) as [Hne|Heq].
  - apply pad16_S in Hne. lia.
  - rewrite pad16_0 by lia. f_equal. lia.
  - pose proof (pad16_S pos Hne) as HS. rewrite IH by lia. f_equal. lia.
  - rewrite pad16_0 by lia. f_equal. lia.
Qed.

Lemma reader_align_16 (pos : nat) :
  reader_align 16 pos = Ok (pos + (16 - pos mod 16) mod 16)%nat.
Proof.
  unfold reader_align. apply reader_align_loop_16.
  pose proof (Nat.mod_upper_bound (16 - pos mod 16) 16 ltac:(lia)). lia.
Qed.

(** ** The block table and the directory on the wire *)

Lemma push_block_bytes (blob : list byte) (b : ArchiveBlockInfo.t) :
  push_block blob b = blob ++ block_bytes b.
Proof.
  unfold push_block, block_bytes.
  rewrite push_u16_be_be, !push_u32_be_be. by rewrite <- !app_assoc.
Qed.

Lemma push_node_bytes (blob : list byte) (n : ArchiveNode.t) :
  push_node blob n = blob ++ node_bytes n.
Proof.
  unfold push_node, node_bytes, push_bytes.
  rewrite push_u32_be_be, !push_s64_be_be, !be_to_signed.
  by rewrite <- !app_assoc.
Qed.

Lemma foldl_push_block (bl : list ArchiveBlockInfo.t) :
  ∀ blob, foldl push_block blob bl = blob ++ concat (map block_bytes bl).
Proof.
  induction bl as [|b bl IH]; intros blob; simpl.
  - by rewrite app_nil_r.
  - rewrite IH, push_block_bytes. by rewrite <- app_assoc.
Qed.

Lemma foldl_push_node (nl : list ArchiveNode.t) :
  ∀ blob, foldl push_node blob nl = blob ++ concat (map node_bytes nl).
Proof.
  induction nl as [|n nl IH]; intros blob; simpl.
  - by rewrite app_nil_r.
  - rewrite IH, push_node_bytes. by rewrite <- app_assoc.
Qed.

(** The new blob, as the wire format has it. *)
Lemma build_block_info_bytes (new_blocks : list ArchiveBlockInfo.t)
    (nodes : list ArchiveNode.t) :
  build_block_info new_blocks nodes
  = replicate 16 Byte.x00
    ++ be 4 (to_uint32 (Z.of_nat (length new_blocks)))
    ++ concat (map block_bytes new_blocks)
    ++ be 4 (to_uint32 (Z.of_nat (length nodes)))
    ++ concat (map node_bytes nodes).
Proof.
  unfold build_block_info, push_bytes. cbv zeta.
  rewrite foldl_push_node, push_u32_be_be, foldl_push_block, push_u32_be_be.
  rewrite app_nil_l. by rewrite <- !app_assoc.
Qed.

Lemma read_blocks_at (bl : list ArchiveBlockInfo.t) :
  ∀ (data : list byte) (pos : nat) (rest : list byte),
    at_pos data pos (concat (map block_bytes bl) ++ rest) →
    Forall block_wf bl →
    ∃ pos', read_blocks (length bl) data pos = Ok (bl, pos')
            ∧ at_pos data pos' rest.
Proof.
  induction bl as [|[u c f] bl IH]; intros data pos rest Hat Hwf;
    cbn [length read_blocks].
  - exists pos. done.
  - apply Forall_cons in Hwf as [(Hu & Hc & Hf) Hwf]. simpl in Hu, Hc, Hf.
    cbn [concat map] in Hat. unfold block_bytes at 1 in Hat.
    cbn [ArchiveBlockInfo.uncompressed_size ArchiveBlockInfo.compressed_size
         ArchiveBlockInfo.flags] in Hat.
    rewrite <- !app_assoc in Hat.
    rewrite (read_be_at 4 data pos u _ Hat).
    apply at_pos_app in Hat. rewrite length_be in Hat.
    rewrite outcome_bind_Ok_l, (read_be_at 4 data _ c _ Hat).
    apply at_pos_app in Hat. rewrite length_be in Hat.
    rewrite outcome_bind_Ok_l, (read_be_at 2 data _ f _ Hat).
    apply at_pos_app in Hat. rewrite length_be in Hat.
    destruct (IH data _ rest Hat Hwf) as (pos' & Hbl & Hat').
    rewrite outcome_bind_Ok_l, Hbl, outcome_bind_Ok_l.
    exists pos'. split; [|done].
    change (8 * Z.of_nat 4) with 32. change (8 * Z.of_nat 2) with 16.
    by rewrite !Z.mod_small by done.
Qed.

Lemma read_nodes_at (nl : list ArchiveNode.t) :
  ∀ (data : list byte) (pos : nat) (rest : list byte),
    at_pos data pos (concat (map node_bytes nl) ++ rest) →
    Forall node_wf nl →
    ∃ pos', read_nodes (length nl) data pos = Ok (nl, pos')
            ∧ at_pos data pos' rest.
Proof.
  induction nl as [|[o s st p] nl IH]; intros data pos rest Hat Hwf;
    cbn [length read_nodes].
  - exists pos. done.
  - apply Forall_cons in Hwf as [(Ho & Hs & Hst & Hp) Hwf].
    simpl in Ho, Hs, Hst, Hp.
    cbn [concat map] in Hat. unfold node_bytes at 1 in Hat.
    cbn [ArchiveNode.offset ArchiveNode.size ArchiveNode.status
         ArchiveNode.path] in Hat.
    rewrite <- !app_assoc in Hat. cbn [app] in Hat.
    unfold read_be_signed.
    rewrite (read_be_at 8 data pos o _ Hat).
    apply at_pos_app in Hat. rewrite length_be in Hat.
    rewrite !outcome_bind_Ok_l, (read_be_at 8 data _ s _ Hat).
    apply at_pos_app in Hat. rewrite length_be in Hat.
    rewrite !outcome_bind_Ok_l, (read_be_at 4 data _ st _ Hat).
    apply at_pos_app in Hat. rewrite length_be in Hat.
    rewrite !outcome_bind_Ok_l, (read_string_at data _ p _ Hat Hp).
    replace (p ++ Byte.x00 :: concat (map node_bytes nl) ++ rest)
      with ((p ++ [Byte.x00]) ++ concat (map node_bytes nl) ++ rest) in Hat
      by (by rewrite <- app_assoc).
    apply at_pos_app in Hat.
    destruct (IH data _ rest Hat Hwf) as (pos' & Hnl & Hat').
    rewrite outcome_bind_Ok_l, Hnl, outcome_bind_Ok_l.
    exists pos'. split; [|done].
    change (8 * Z.of_nat 8) with 64. change (8 * Z.of_nat 4) with 32.
    rewrite !to_unsigned_to_signed by lia.
    rewrite !Z.mod_mod by lia.
    by rewrite !Z.mod_small by done.
Qed.

(** Reading back the blob that [build_block_info] made. *)
Lemma read_block_info_build (new_blocks : list ArchiveBlockInfo.t)
    (nodes : list ArchiveNode.t) :
  Forall block_wf new_blocks → Forall node_wf nodes →
  Z.of_nat (length new_blocks) < 2 ^ 32 → Z.of_nat (length nodes) < 2 ^ 32 →
  read_block_info (build_block_info new_blocks nodes) = Ok (new_blocks, nodes).
Proof.
  intros Hbl Hnl Hbc Hnc. rewrite build_block_info_bytes.
  unfold to_uint32. rewrite !to_unsigned_small by lia.
  set (data := _ ++ _).
  pose proof (at_pos_0 data) as Hat. unfold data at 2 in Hat.
  unfold read_block_info.
  rewrite <- (length_replicate 16 Byte.x00) at 1.
  rewrite (read_bytes_at data 0 _ _ Hat).
  apply at_pos_app in Hat.
  rewrite outcome_bind_Ok_l, (read_be_at 4 data _ _ _ Hat).
  apply at_pos_app in Hat. rewrite length_be in Hat.
  change (8 * Z.of_nat 4) with 32.
  rewrite (Z.mod_small (Z.of_nat (length new_blocks))) by lia.
  rewrite outcome_bind_Ok_l, Nat2Z.id.
  destruct (read_blocks_at new_blocks data _ _ Hat Hbl) as (p1 & -> & Hat1).
  rewrite outcome_bind_Ok_l, (read_be_at 4 data _ _ _ Hat1).
  apply at_pos_app in Hat1. rewrite length_be in Hat1.
  change (8 * Z.of_nat 4) with 32.
  rewrite (Z.mod_small (Z.of_nat (length nodes))) by lia.
  rewrite outcome_bind_Ok_l, Nat2Z.id.
  rewrite <- (app_nil_r (concat (map node_bytes nodes))) in Hat1.
  destruct (read_nodes_at nodes data _ _ Hat1 Hnl) as (p2 & -> & _).
  done.
Qed.

(** What the reader returns is within the C++ types. *)
Lemma read_blocks_Ok (count : nat) :
  ∀ (data : list byte) (pos : nat) (bl : list ArchiveBlockInfo.t) (pos' : nat),
    read_blocks count data pos = Ok (bl, pos') →
    length bl = count ∧ Forall block_wf bl.
Proof.
  induction count as [|count IH]; intros data pos bl pos' Hrun; simpl in Hrun.
  - injection Hrun as <- <-. split; [done | constructor].
  - apply outcome_bind_Ok in Hrun as ([u p1] & Hu & Hrun).
    apply outcome_bind_Ok in Hrun as ([c p2] & Hc & Hrun).
    apply outcome_bind_Ok in Hrun as ([f p3] & Hf & Hrun).
    apply outcome_bind_Ok in Hrun as ([bl' p4] & Hbl & Hrun).
    injection Hrun as <- <-.
    apply read_be_Ok in Hu as [Hu _], Hc as [Hc _], Hf as [Hf _].
    apply IH in Hbl as [Hlen Hwf].
    split; [simpl; by rewrite Hlen |].
    constructor; [|done]. repeat split; simpl; lia.
Qed.

Lemma read_nodes_Ok (count : nat) :
  ∀ (data : list byte) (pos : nat) (nl : list ArchiveNode.t) (pos' : nat),
    read_nodes count data pos = Ok (nl, pos') →
    length nl = count ∧ Forall node_wf nl.
Proof.
  induction count as [|count IH]; intros data pos nl pos' Hrun; simpl in Hrun.
  - injection Hrun as <- <-. split; [done | constructor].
  - apply outcome_bind_Ok in Hrun as ([o p1] & Ho & Hrun).
    apply outcome_bind_Ok in Hrun as ([s p2] & Hs & Hrun).
    apply outcome_bind_Ok in Hrun as ([st p3] & Hst & Hrun).
    apply outcome_bind_Ok in Hrun as ([p p4] & Hp & Hrun).
    apply outcome_bind_Ok in Hrun as ([nl' p5] & Hnl & Hrun).
    injection Hrun as <- <-.
    apply read_be_Ok in Hst as [Hst _].
    apply read_string_cstring in Hp.
    apply IH in Hnl as [Hlen Hwf].
    split; [simpl; by rewrite Hlen |].
    constructor; [|done].
    pose proof (to_unsigned_range 64 o ltac:(lia)).
    pose proof (to_unsigned_range 64 s ltac:(lia)).
    repeat split; simpl; (done || lia).
Qed.

Lemma read_block_info_Ok (block_info_data : list byte)
    (bl : list ArchiveBlockInfo.t) (nl : list ArchiveNode.t) :
  read_block_info block_info_data = Ok (bl, nl) →
  Forall block_wf bl ∧ Forall node_wf nl
  ∧ Z.of_nat (length bl) < 2 ^ 32 ∧ Z.of_nat (length nl) < 2 ^ 32.
Proof.
  unfold read_block_info. intros Hrun.
  apply outcome_bind_Ok in Hrun as ([h p0] & _ & Hrun).
  apply outcome_bind_Ok in Hrun as ([bc p1] & Hbc & Hrun).
  apply outcome_bind_Ok in Hrun as ([bl' p2] & Hbl & Hrun).
  apply outcome_bind_Ok in Hrun as ([nc p3] & Hnc & Hrun).
  apply outcome_bind_Ok in Hrun as ([nl' p4] & Hnl & Hrun).
  injection Hrun as <- <-.
  apply read_be_Ok in Hbc as [Hbc _], Hnc as [Hnc _].
  apply read_blocks_Ok in Hbl as [Hblen Hbwf].
  apply read_nodes_Ok in Hnl as [Hnlen Hnwf].
  change (8 * Z.of_nat 4) with 32 in *.
  repeat split; (done || lia).
Qed.

(** ** The loop over the blocks *)

Section ContainerProperties.
Context `{Libraries}.

(** Every block gives one payload and one new descriptor, in order. *)
Lemma decompress_blocks_Ok (game_mode : GameMode) (raw_file : list byte)
    (bl : list ArchiveBlockInfo.t) :
  ∀ (pos : nat) (all : list byte) (nb : list ArchiveBlockInfo.t)
    (log : list warning) (all' : list byte) (nb' : list ArchiveBlockInfo.t),
    decompress_blocks game_mode raw_file bl pos all nb
    = Logged log (Ok (all', nb')) →
    ∃ raws : list (list byte),
      Forall2 (inflates game_mode) bl raws
      ∧ all' = all ++ concat raws
      ∧ nb' = nb ++ map new_block raws.
Proof.
  induction bl as [|old_blk bl IH]; intros pos all nb log all' nb' Hrun;
    cbn [decompress_blocks] in Hrun.
  - injection Hrun as _ <- <-. exists []. simpl.
    rewrite !app_nil_r. repeat split. constructor.
  - apply lift_bind_Ok in Hrun as ([compressed_bytes pos1] & Hspan & Hrun).
    apply logged_bind_Ok in Hrun as (raw & l1 & l2 & Hraw & Hrun & _).
    apply IH in Hrun as (raws & Hall & -> & ->).
    exists (raw :: raws). simpl. rewrite <- !app_assoc. repeat split.
    constructor; [|done].
    exists compressed_bytes, l1. split; [|done].
    by apply get_span_Ok in Hspan.
Qed.

(** ** The header *)

Lemma be_mod (n : nat) (v : Z) : be n (v mod 2 ^ (8 * Z.of_nat n)) = be n v.
Proof. unfold be. by rewrite le_split_mod. Qed.

Lemma be_8_congr (x y : Z) : x mod 2 ^ 64 = y mod 2 ^ 64 → be 8 x = be 8 y.
Proof.
  intros Hxy. rewrite <- (be_mod 8 x), <- (be_mod 8 y).
  change (8 * Z.of_nat 8) with 64. by rewrite Hxy.
Qed.

Lemma be_4_to_uint32 (v : Z) : be 4 (to_uint32 v) = be 4 v.
Proof. apply (be_mod 4 v). Qed.

Lemma header_pad_lt (version : Z) (n : nat) :
  (header_pad version n < 16)%nat
  ∧ (7 ≤ version → ((n + header_pad version n) mod 16 = 0)%nat)
  ∧ (¬ 7 ≤ version → header_pad version n = 0%nat).
Proof.
  unfold header_pad. destruct (decide (7 ≤ version)).
  - pose proof (Nat.mod_upper_bound n 16 ltac:(lia)).
    pose proof (Nat.div_mod_eq n 16).
    pose proof (Nat.mod_upper_bound (16 - n mod 16) 16 ltac:(lia)).
    pose proof (Nat.div_mod_eq (16 - n mod 16) 16).
    split; [lia |]. split; [|done]. intros _.
    pose proof (Nat.mod_upper_bound (n + (16 - n mod 16) mod 16) 16
                  ltac:(lia)).
    pose proof (Nat.div_mod_eq (n + (16 - n mod 16) mod 16) 16).
    nia.
  - repeat split; (done || lia).
Qed.

(** [header_end_pos_approx] is where the header ends, padding included. *)
Lemma header_end_pos_mod (version : Z) (n : nat) :
  header_end_pos version (Z.of_nat n) mod 2 ^ 64
  = Z.of_nat (n + 20 + header_pad version (n + 20)) mod 2 ^ 64.
Proof.
  unfold header_end_pos, header_pad, to_size_t. cbv zeta.
  rewrite (to_unsigned_to_signed 64) by lia.
  replace (Z.of_nat n + 8 + 4 + 4 + 4) with (Z.of_nat (n + 20)) by lia.
  generalize (n + 20)%nat. clear n. intros n.
  destruct (decide (7 ≤ version)); [|rewrite Nat.add_0_r; apply Z.mod_mod; lia].
  unfold to_unsigned.
  rewrite !Nat2Z.inj_add, !Nat2Z.inj_mod, Nat2Z.inj_sub
    by (pose proof (Nat.mod_upper_bound n 16 ltac:(lia)); lia).
  rewrite Nat2Z.inj_mod. change (Z.of_nat 16) with 16.
  set (z := Z.of_nat n). assert (0 ≤ z) by lia. clearbody z.
  destruct (decide ((z mod 2 ^ 64) mod 16 ≠ 0)).
  - rewrite Z.mod_mod by lia.
    Z.div_mod_to_equations. lia.
  - rewrite Z.mod_mod by lia.
    Z.div_mod_to_equations. lia.
Qed.

Lemma length_header_start (version : Z) (unity_ver unity_rev : list byte) :
  length (header_start version unity_ver unity_rev)
  = (14 + length unity_ver + length unity_rev)%nat.
Proof.
  unfold header_start. rewrite !length_app, length_be. simpl. lia.
Qed.

(** The output file, as the wire format has it: the total-size field
    holds the length of the whole file. *)
Lemma write_bundle_bytes (version : Z) (unity_ver unity_rev : list byte)
    (blob payload : list byte) :
  let hs := header_start version unity_ver unity_rev in
  let pad := header_pad version (length hs + 20) in
  write_bundle version unity_ver unity_rev blob payload
  = hs
    ++ be 8 (Z.of_nat (length hs + 20 + pad + length blob + length payload))
    ++ be 4 (Z.of_nat (length blob))
    ++ be 4 (Z.of_nat (length blob))
    ++ be 4 FLAG_BLOCKS_AND_DIR_COMBINED
    ++ replicate pad Byte.x00
    ++ blob ++ payload.
Proof.
  intros hs pad. unfold write_bundle, write_string, write_bytes, tell.
  cbv zeta. rewrite !write_be_be, !be_4_to_uint32, be_to_signed.
  rewrite app_nil_l.
  assert ((((UnityFS ++ [Byte.x00]) ++ be 4 version)
           ++ unity_ver ++ [Byte.x00]) ++ unity_rev ++ [Byte.x00] = hs)
    as -> by (unfold hs, header_start; by rewrite <- !app_assoc).
  rewrite (be_8_congr
             (to_size_t (header_end_pos version (Z.of_nat (length hs))
                         + Z.of_nat (length blob)
                         + Z.of_nat (length payload)))
             (Z.of_nat (length hs + 20 + pad + length blob + length payload))).
  2:{ unfold to_size_t, to_unsigned. rewrite Z.mod_mod by lia.
      rewrite <- Z.add_mod_idemp_l, <- (Z.add_mod_idemp_l (header_end_pos _ _))
        by lia.
      rewrite header_end_pos_mod. fold pad.
      rewrite Z.add_mod_idemp_l, <- Z.add_assoc, Z.add_mod_idemp_l by lia.
      f_equal. lia. }
  unfold writer_align, pad, header_pad.
  destruct (decide (7 ≤ version)); rewrite <- ?app_assoc; [|done].
  rewrite !length_app, !length_be.
  match goal with
  | |- context [((16 - ?n mod 16) mod 16)%nat] =>
      replace n with (length hs + 20)%nat by lia
  end.
  by rewrite <- ?app_assoc.
Qed.

(** ** Reading a bundle *)

Lemma read_be_step (n : nat) (data : list byte) (pos : nat) (v : Z)
    (rest : list byte) :
  at_pos data pos (be n v ++ rest) →
  ∃ pos', read_be n data pos = Ok (v mod 2 ^ (8 * Z.of_nat n), pos')
          ∧ at_pos data pos' rest ∧ pos' = (pos + n)%nat.
Proof.
  intros Hat. exists (pos + n)%nat. split; [by eapply read_be_at |].
  split; [|done]. apply at_pos_app in Hat. by rewrite length_be in Hat.
Qed.

Lemma read_string_step (data : list byte) (pos : nat) (s rest : list byte) :
  at_pos data pos (s ++ Byte.x00 :: rest) → cstring s →
  ∃ pos', read_string data pos = Ok (s, pos')
          ∧ at_pos data pos' rest ∧ pos' = (pos + length s + 1)%nat.
Proof.
  intros Hat Hs. exists (pos + length (s ++ [Byte.x00]))%nat.
  split; [by eapply read_string_at |].
  split; [|rewrite length_app; simpl; lia].
  apply at_pos_app. by rewrite <- app_assoc.
Qed.

Lemma get_span_step (data : list byte) (pos : nat) (x rest : list byte) :
  at_pos data pos (x ++ rest) →
  ∃ pos', get_span (length x) data pos = Ok (x, pos')
          ∧ at_pos data pos' rest ∧ pos' = (pos + length x)%nat.
Proof.
  intros Hat. exists (pos + length x)%nat. split; [by eapply get_span_at |].
  split; [|done]. by apply at_pos_app.
Qed.

Lemma UnityFS_cstring : cstring UnityFS.
Proof.
  unfold cstring, UnityFS. simpl.
  repeat (apply Forall_cons; split; [vm_compute; congruence |]).
  apply Forall_nil_2.
Qed.

(** What a bundle that was read has in its fields. *)
Lemma read_bundle_Ok (raw_file : list byte) (log : list warning) (b : bundle) :
  read_bundle raw_file = Logged log (Ok b) →
  0 ≤ version b < 2 ^ 32
  ∧ cstring (unity_ver b) ∧ cstring (unity_rev b)
  ∧ Forall block_wf (blocks b) ∧ Forall node_wf (nodes b)
  ∧ Z.of_nat (length (blocks b)) < 2 ^ 32
  ∧ Z.of_nat (length (nodes b)) < 2 ^ 32
  ∧ ∃ raw_block_info block_info_data : list byte,
      length raw_block_info = Z.to_nat (compressed_blocks_info_size b)
      ∧ decompress_block
          (CompressionType.of_Z (Z.land (flags b) FLAG_COMPRESSION_MASK))
          raw_block_info (uncompressed_blocks_info_size b) Standard
        = Logged log (Ok block_info_data)
      ∧ read_block_info block_info_data = Ok (blocks b, nodes b).
Proof.
  unfold read_bundle. intros Hrun.
  apply lift_bind_Ok in Hrun as ([signature p1] & _ & Hrun).
  apply lift_bind_Ok in Hrun as ([v p2] & Hv & Hrun).
  apply lift_bind_Ok in Hrun as ([ver p3] & Hver & Hrun).
  apply lift_bind_Ok in Hrun as ([rev p4] & Hrev & Hrun).
  destruct (decide (signature ≠ UnityFS)); [discriminate |].
  apply lift_bind_Ok in Hrun as ([bsz p5] & _ & Hrun).
  apply lift_bind_Ok in Hrun as ([csz p6] & _ & Hrun).
  apply lift_bind_Ok in Hrun as ([usz p7] & _ & Hrun).
  apply lift_bind_Ok in Hrun as ([fl p8] & _ & Hrun).
  apply lift_bind_Ok in Hrun as (p9 & _ & Hrun).
  apply lift_bind_Ok in Hrun as ([raw_block_info p10] & Hspan & Hrun).
  apply logged_bind_Ok in Hrun as (block_info_data & l1 & l2 & Hdec & Hrun & ->).
  apply lift_bind_Ok in Hrun as ([bl nl] & Hinfo & Hrun).
  injection Hrun as <- <-. rewrite app_nil_r. simpl.
  apply read_be_Ok in Hv as [Hv _].
  apply read_string_cstring in Hver, Hrev.
  pose proof (read_block_info_Ok _ _ _ Hinfo) as (? & ? & ? & ?).
  apply get_span_Ok in Hspan.
  change (8 * Z.of_nat 4) with 32 in Hv.
  repeat split; try done; try lia.
  exists raw_block_info, block_info_data. done.
Qed.

(** Reading back what [write_bundle] wrote, for a blob whose length fits
    the 32 bits of its size field. *)
Lemma read_bundle_write_bundle (v : Z) (ver rev : list byte)
    (nb : list ArchiveBlockInfo.t) (nl : list ArchiveNode.t)
    (payload : list byte) :
  0 ≤ v < 2 ^ 32 → cstring ver → cstring rev →
  Forall block_wf nb → Forall node_wf nl →
  Z.of_nat (length nb) < 2 ^ 32 → Z.of_nat (length nl) < 2 ^ 32 →
  let blob := build_block_info nb nl in
  Z.of_nat (length blob) < 2 ^ 32 →
  let out := write_bundle v ver rev blob payload in
  ∃ pos : nat,
    read_bundle out
    = Logged []
        (Ok (Bundle v ver rev
               (to_signed 64 (Z.of_nat (length out) mod 2 ^ 64))
               (Z.of_nat (length blob)) (Z.of_nat (length blob))
               FLAG_BLOCKS_AND_DIR_COMBINED nb nl pos))
    ∧ at_pos out pos payload.
Proof.
  intros Hv Hver Hrev Hnb Hnl Hnbc Hnlc blob Hblob out.
  pose proof (write_bundle_bytes v ver rev blob payload) as Hout.
  cbv zeta in Hout. fold out in Hout.
  set (hs := header_start v ver rev) in Hout.
  set (pad := header_pad v (length hs + 20)) in Hout.
  assert (length out
          = (length hs + 20 + pad + length blob + length payload)%nat) as Hlen.
  { rewrite Hout. rewrite !length_app, !length_be, length_replicate. lia. }
  rewrite <- Hlen in Hout.
  pose proof (at_pos_0 out) as Hat. rewrite Hout in Hat at 2.
  unfold hs, header_start in Hat. rewrite <- !app_assoc in Hat.
  cbn [app] in Hat.
  unfold read_bundle.
  destruct (read_string_step _ _ _ _ Hat UnityFS_cstring)
    as (p1 & -> & Hat1 & Hp1).
  rewrite lift_Ok_bind. cbv beta iota.
  destruct (read_be_step _ _ _ _ _ Hat1) as (p2 & -> & Hat2 & Hp2).
  rewrite lift_Ok_bind. cbv beta iota.
  destruct (read_string_step _ _ _ _ Hat2 Hver) as (p3 & -> & Hat3 & Hp3).
  rewrite lift_Ok_bind. cbv beta iota.
  destruct (read_string_step _ _ _ _ Hat3 Hrev) as (p4 & -> & Hat4 & Hp4).
  rewrite lift_Ok_bind. cbv beta iota.
  rewrite decide_False by (intros Hne; by apply Hne).
  unfold read_be_signed.
  destruct (read_be_step _ _ _ _ _ Hat4) as (p5 & -> & Hat5 & Hp5).
  rewrite outcome_bind_Ok_l, lift_Ok_bind. cbv beta iota.
  destruct (read_be_step _ _ _ _ _ Hat5) as (p6 & -> & Hat6 & Hp6).
  rewrite lift_Ok_bind. cbv beta iota.
  destruct (read_be_step _ _ _ _ _ Hat6) as (p7 & -> & Hat7 & Hp7).
  rewrite lift_Ok_bind. cbv beta iota.
  destruct (read_be_step _ _ _ _ _ Hat7) as (p8 & -> & Hat8 & Hp8).
  rewrite lift_Ok_bind. cbv beta iota.
  change (8 * Z.of_nat 4) with 32. change (8 * Z.of_nat 8) with 64.
  rewrite (Z.mod_small v) by done.
  rewrite (Z.mod_small (Z.of_nat (length blob))) by lia.
  rewrite (Z.mod_small FLAG_BLOCKS_AND_DIR_COMBINED) by (vm_compute; split; congruence).
  assert (p8 = (length hs + 20)%nat) as Hp8'.
  { unfold hs. rewrite length_header_start.
    assert (length UnityFS = 7%nat) as HU by done. lia. }
  assert (∃ p9, (if decide (7 ≤ v) then reader_align 16 p8 else Ok p8) = Ok p9
                ∧ at_pos out p9 (blob ++ payload)) as (p9 & -> & Hat9).
  { exists (p8 + pad)%nat. split.
    - unfold pad, header_pad. rewrite <- Hp8'.
      destruct (decide (7 ≤ v)); [apply reader_align_16 |].
      by rewrite Nat.add_0_r.
    - apply at_pos_app in Hat8. by rewrite length_replicate in Hat8. }
  rewrite lift_Ok_bind.
  rewrite Nat2Z.id.
  destruct (get_span_step _ _ _ _ Hat9) as (p10 & -> & Hat10 & Hp10).
  rewrite lift_Ok_bind. cbv beta iota zeta.
  replace (CompressionType.of_Z
             (Z.land FLAG_BLOCKS_AND_DIR_COMBINED FLAG_COMPRESSION_MASK))
    with CompressionType.None by done.
  cbn [decompress_block].
  assert (read_block_info blob = Ok (nb, nl)) as Hinfo
    by (by apply read_block_info_build).
  rewrite (lift_Ok_bind blob). cbv beta. rewrite Hinfo, lift_Ok_bind.
  exists p10. done.
Qed.

(** ** The whole conversion *)

Lemma new_block_wf (raw : list byte) : block_wf (new_block raw).
Proof.
  unfold block_wf, new_block, to_uint32. simpl.
  pose proof (to_unsigned_range 32 (Z.of_nat (length raw)) ltac:(lia)).
  lia.
Qed.

(** A conversion that succeeds has read a bundle, inflated each of its
    blocks, and written the header, the new blob and the payloads. *)
Lemma process_file_Ok (raw_file : list byte) (game_mode : GameMode)
    (log : list warning) (out : list byte) :
  process_file raw_file game_mode = Logged log (Ok out) →
  ∃ (b : bundle) (raws : list (list byte)) (l : list warning),
    read_bundle raw_file = Logged l (Ok b)
    ∧ Forall2 (inflates game_mode) (blocks b) raws
    ∧ out = write_bundle (version b) (unity_ver b) (unity_rev b)
              (build_block_info (map new_block raws) (nodes b))
              (concat raws).
Proof.
  unfold process_file. intros Hrun.
  apply logged_bind_Ok in Hrun as (b & l1 & l2 & Hread & Hrun & _).
  unfold rewrite_bundle in Hrun.
  apply lift_bind_Ok in Hrun as (pos & _ & Hrun).
  apply logged_bind_Ok in Hrun as ([all nb] & l3 & l4 & Hblocks & Hrun & _).
  injection Hrun as _ <-.
  apply decompress_blocks_Ok in Hblocks as (raws & Hraws & -> & ->).
  exists b, raws, l1. done.
Qed.

(** The new blob reads back as the new descriptors and the old nodes. *)
Lemma read_block_info_new (b : bundle) (l : list warning)
    (raw_file : list byte) (raws : list (list byte)) :
  read_bundle raw_file = Logged l (Ok b) →
  length raws = length (blocks b) →
  read_block_info (build_block_info (map new_block raws) (nodes b))
  = Ok (map new_block raws, nodes b).
Proof.
  intros Hread Hlen.
  apply read_bundle_Ok in Hread as (_ & _ & _ & _ & Hnl & Hbc & Hnc & _).
  apply read_block_info_build; [|done| |done].
  - apply Forall_forall. intros blk Hin.
    apply list_elem_of_fmap in Hin as (raw & -> & _). apply new_block_wf.
  - by rewrite length_map, Hlen.
Qed.

(** C1 (amended): the rewritten output's block table has one descriptor
    for each block of the input, in the same order; each has its
    uncompressed size and its compressed size equal to the length of the
    decompressed payload of its block (as a [uint32_t]) and its flags
    cleared to 0.  The payloads follow the table in the same order, so
    the descriptors together cover the concatenated payload, and when the
    input has exactly one block the single descriptor carries the length
    of the whole payload.  The flags field of the output header is the
    directory-and-blocks-combined bit and nothing else. *)
Theorem one_descriptor_per_block (raw_file : list byte) (game_mode : GameMode)
    (log : list warning) (out : list byte) :
  process_file raw_file game_mode = Logged log (Ok out) →
  ∃ (b : bundle) (raws : list (list byte)),
    value (read_bundle raw_file) = Ok b
    ∧ Forall2 (inflates game_mode) (blocks b) raws
    ∧ let new_blocks := map new_block raws in
      let blob := build_block_info new_blocks (nodes b) in
      let hs := header_start (version b) (unity_ver b) (unity_rev b) in
      out = hs
            ++ be 8 (Z.of_nat (length out))
            ++ be 4 (Z.of_nat (length blob))
            ++ be 4 (Z.of_nat (length blob))
            ++ be 4 FLAG_BLOCKS_AND_DIR_COMBINED
            ++ replicate (header_pad (version b) (length hs + 20)) Byte.x00
            ++ blob ++ concat raws
      ∧ blob = replicate 16 Byte.x00
               ++ be 4 (Z.of_nat (length (blocks b)))
               ++ concat (map block_bytes new_blocks)
               ++ be 4 (Z.of_nat (length (nodes b)))
               ++ concat (map node_bytes (nodes b))
      ∧ read_block_info blob = Ok (new_blocks, nodes b)
      ∧ length new_blocks = length (blocks b)
      ∧ (length (blocks b) = 1%nat → new_blocks = [new_block (concat raws)])
      ∧ (Z.of_nat (length blob) < 2 ^ 32 →
         ∃ b' : bundle,
           value (read_bundle out) = Ok b'
           ∧ flags b' = FLAG_BLOCKS_AND_DIR_COMBINED
           ∧ blocks b' = new_blocks).
Proof.
  intros Hrun.
  apply process_file_Ok in Hrun as (b & raws & l & Hread & Hraws & Hout).
  exists b, raws. rewrite Hread. split; [done |]. split; [done |].
  pose proof (Forall2_length _ _ _ Hraws) as Hlen. symmetry in Hlen.
  pose proof (read_block_info_new b l raw_file raws Hread Hlen) as Hinfo.
  pose proof (read_bundle_Ok _ _ _ Hread)
    as (Hv & Hver & Hrev & _ & Hnl & Hbc & Hnc & _).
  intros new_blocks blob hs.
  assert (length new_blocks = length (blocks b)) as Hnb
    by (unfold new_blocks; by rewrite length_map).
  split; [|split; [|split; [done |split; [done |split]]]].
  - rewrite Hout at 1. fold new_blocks. fold blob.
    rewrite write_bundle_bytes. fold hs.
    do 2 f_equal. f_equal. rewrite Hout.
    fold new_blocks. fold blob. rewrite write_bundle_bytes. fold hs.
    rewrite !length_app, !length_be, length_replicate. lia.
  - unfold blob. rewrite build_block_info_bytes, !be_4_to_uint32.
    by rewrite Hnb.
  - intros Hone. unfold new_blocks.
    destruct raws as [|raw [|raw' raws]]; simpl in Hlen;
      [lia | | lia].
    simpl. by rewrite app_nil_r.
  - intros Hblob.
    destruct (read_bundle_write_bundle (version b) (unity_ver b) (unity_rev b)
                new_blocks (nodes b) (concat raws)) as (pos & Hback & _);
      try done.
    + apply Forall_forall. intros blk Hin.
      apply list_elem_of_fmap in Hin as (raw & -> & _). apply new_block_wf.
    + by rewrite Hnb.
    + fold blob in Hback. fold new_blocks blob in Hout.
      rewrite <- Hout in Hback. rewrite Hback.
      eexists. split; [done |]. done.
Qed.

(** C7: the total-size field, the 8 bytes that follow the signature, the
    version and the two version strings, holds the length of the header
    (brought to the next multiple of 16 from version 7 on) plus the
    length of the new blob plus the length of the concatenated payload,
    which is the length of the output file; in the stream it comes before
    the blob and the payload. *)
Theorem total_size_field (raw_file : list byte) (game_mode : GameMode)
    (log : list warning) (out : list byte) :
  process_file raw_file game_mode = Logged log (Ok out) →
  ∃ (b : bundle) (raws : list (list byte)),
    value (read_bundle raw_file) = Ok b
    ∧ Forall2 (inflates game_mode) (blocks b) raws
    ∧ let blob := build_block_info (map new_block raws) (nodes b) in
      let payload := concat raws in
      let hs := header_start (version b) (unity_ver b) (unity_rev b) in
      let pad := header_pad (version b) (length hs + 20) in
      let total := (length hs + 20 + pad + length blob + length payload)%nat in
      out = hs
            ++ be 8 (Z.of_nat total)
            ++ be 4 (Z.of_nat (length blob))
            ++ be 4 (Z.of_nat (length blob))
            ++ be 4 FLAG_BLOCKS_AND_DIR_COMBINED
            ++ replicate pad Byte.x00
            ++ blob ++ payload
      ∧ header_end_pos (version b) (tell hs) mod 2 ^ 64
        = Z.of_nat (length hs + 20 + pad) mod 2 ^ 64
      ∧ (pad < 16)%nat
      ∧ (7 ≤ version b → ((length hs + 20 + pad) mod 16 = 0)%nat)
      ∧ (¬ 7 ≤ version b → pad = 0%nat)
      ∧ length out = total
      ∧ read_be_signed 8 out (length hs)
        = Ok (to_signed 64 (Z.of_nat total mod 2 ^ 64), (length hs + 8)%nat).
Proof.
  intros Hrun.
  apply process_file_Ok in Hrun as (b & raws & l & Hread & Hraws & Hout).
  exists b, raws. rewrite Hread. split; [done |]. split; [done |].
  intros blob payload hs pad total.
  fold blob payload in Hout.
  rewrite write_bundle_bytes in Hout. fold hs pad total in Hout.
  destruct (header_pad_lt (version b) (length hs + 20)) as (Hlt & Hmod & Hzero).
  fold pad in Hlt, Hmod, Hzero.
  split; [done |]. split; [apply header_end_pos_mod |].
  split; [done |]. split; [done |]. split; [done |].
  split.
  - rewrite Hout. unfold total.
    rewrite !length_app, !length_be, length_replicate. lia.
  - unfold read_be_signed.
    assert (at_pos out (length hs)
              (be 8 (Z.of_nat total)
               ++ be 4 (Z.of_nat (length blob))
               ++ be 4 (Z.of_nat (length blob))
               ++ be 4 FLAG_BLOCKS_AND_DIR_COMBINED
               ++ replicate pad Byte.x00
               ++ blob ++ payload)) as Hat.
    { pose proof (at_pos_0 out) as Hat. rewrite Hout in Hat at 2.
      apply at_pos_app in Hat. done. }
    rewrite (read_be_at 8 out _ _ _ Hat). done.
Qed.

(** Under [Standard] the dispatcher logs nothing, and so does the
    reading of a bundle. *)
Lemma stderr_bind {A B} (m : logged A) (f : A → logged B) :
  stderr m = [] → (∀ a, stderr (f a) = []) → stderr (m ≫= f) = [].
Proof.
  intros Hm Hf. destruct m as [l [a|e]]; simpl in *; subst; [|done].
  unfold mbind, logged_bind. simpl. apply Hf.
Qed.

Lemma decompress_block_Standard_stderr (type : CompressionType.t)
    (src : list byte) (decompressed_size : Z) :
  stderr (decompress_block type src decompressed_size Standard) = [].
Proof.
  destruct type; simpl; try done.
  - case_decide; [done |].
    apply (stderr_bind (lift (memcpy src 5))); [done |]. intros props.
    destruct (LzmaUncompress _ _ _ _ _) as [res o]. by case_decide.
  - destruct (LZ4_decompress_safe _ _ _) as [res o]. by case_decide.
  - destruct (LZ4_decompress_safe _ _ _) as [res o]. by case_decide.
  - destruct (lzham_decompress_memory _ _ _ _) as [status o]. by case_decide.
Qed.

Lemma read_bundle_stderr (raw_file : list byte) :
  stderr (read_bundle raw_file) = [].
Proof.
  unfold read_bundle.
  apply stderr_bind; [done |]. intros [signature p1].
  apply stderr_bind; [done |]. intros [v p2].
  apply stderr_bind; [done |]. intros [ver p3].
  apply stderr_bind; [done |]. intros [rev p4].
  case_decide; [done |].
  apply stderr_bind; [done |]. intros [bsz p5].
  apply stderr_bind; [done |]. intros [csz p6].
  apply stderr_bind; [done |]. intros [usz p7].
  apply stderr_bind; [done |]. intros [fl p8].
  apply stderr_bind; [done |]. intros p9.
  apply stderr_bind; [done |]. intros [raw_block_info p10].
  apply stderr_bind; [apply decompress_block_Standard_stderr |].
  intros block_info_data.
  apply stderr_bind; [done |]. intros [bl nl]. done.
Qed.

(** Reading ends in a value or in a C++ exception: the reader's loops
    have the fuel they need and its accesses are inside the buffer. *)
Lemma only_out_of_range_bind {A B} (m : outcome A) (f : A → outcome B) :
  only_out_of_range m → (∀ a, only_out_of_range (f a)) →
  only_out_of_range (m ≫= f).
Proof.
  intros Hm Hf e. destruct m as [a|e']; simpl; [apply Hf |].
  intros [= ->]. by apply Hm.
Qed.

Lemma only_out_of_range_Ok {A} (a : A) : only_out_of_range (Ok a).
Proof. intros e. discriminate. Qed.

Lemma read_be_only (n : nat) (data : list byte) (pos : nat) :
  only_out_of_range (read_be n data pos).
Proof. intros e. unfold read_be. case_decide; congruence. Qed.

Lemma read_be_signed_only (n : nat) (data : list byte) (pos : nat) :
  only_out_of_range (read_be_signed n data pos).
Proof.
  unfold read_be_signed.
  apply only_out_of_range_bind; [apply read_be_only |].
  intros [v p]. apply only_out_of_range_Ok.
Qed.

Lemma get_span_only (n : nat) (data : list byte) (pos : nat) :
  only_out_of_range (get_span n data pos).
Proof. intros e. unfold get_span. case_decide; congruence. Qed.

Lemma read_bytes_only (n : nat) (data : list byte) (pos : nat) :
  only_out_of_range (read_bytes n data pos).
Proof. exact (get_span_only n data pos). Qed.

Lemma read_string_loop_total (fuel : nat) (data : list byte) :
  ∀ (acc : list byte) (pos : nat),
    (length data - pos ≤ fuel)%nat →
    ∃ s pos', read_string_loop fuel data acc pos = Ok (s, pos').
Proof.
  induction fuel as [|fuel IH]; intros acc pos Hfuel; simpl.
  - rewrite decide_False by lia. eauto.
  - destruct (decide (pos < length data)%nat) as [Hlt|]; [|eauto].
    destruct (index_lt data pos Hlt) as (b & _ & ->). simpl.
    case_decide; [|eauto]. apply IH. lia.
Qed.

Lemma read_string_total (data : list byte) (pos : nat) :
  ∃ s pos', read_string data pos = Ok (s, pos').
Proof.
  unfold read_string.
  destruct (read_string_loop_total (length data) data [] pos)
    as (s & pos' & ->); [lia |].
  simpl. eauto.
Qed.

Lemma read_string_only (data : list byte) (pos : nat) :
  only_out_of_range (read_string data pos).
Proof.
  intros e. destruct (read_string_total data pos) as (s & pos' & ->).
  discriminate.
Qed.

Lemma read_blocks_only (count : nat) :
  ∀ (data : list byte) (pos : nat),
    only_out_of_range (read_blocks count data pos).
Proof.
  induction count as [|count IH]; intros data pos; simpl.
  - apply only_out_of_range_Ok.
  - apply only_out_of_range_bind; [apply read_be_only |]. intros [u p1].
    apply only_out_of_range_bind; [apply read_be_only |]. intros [c p2].
    apply only_out_of_range_bind; [apply read_be_only |]. intros [f p3].
    apply only_out_of_range_bind; [apply IH |]. intros [bl p4].
    apply only_out_of_range_Ok.
Qed.

Lemma read_nodes_only (count : nat) :
  ∀ (data : list byte) (pos : nat),
    only_out_of_range (read_nodes count data pos).
Proof.
  induction count as [|count IH]; intros data pos; simpl.
  - apply only_out_of_range_Ok.
  - apply only_out_of_range_bind; [apply read_be_signed_only |]. intros [o p1].
    apply only_out_of_range_bind; [apply read_be_signed_only |]. intros [s p2].
    apply only_out_of_range_bind; [apply read_be_only |]. intros [st p3].
    apply only_out_of_range_bind; [apply read_string_only |]. intros [p p4].
    apply only_out_of_range_bind; [apply IH |]. intros [nl p5].
    apply only_out_of_range_Ok.
Qed.

Lemma read_block_info_only (block_info_data : list byte) :
  only_out_of_range (read_block_info block_info_data).
Proof.
  unfold read_block_info.
  apply only_out_of_range_bind; [apply read_bytes_only |]. intros [h p0].
  apply only_out_of_range_bind; [apply read_be_only |]. intros [bc p1].
  apply only_out_of_range_bind; [apply read_blocks_only |]. intros [bl p2].
  apply only_out_of_range_bind; [apply read_be_only |]. intros [nc p3].
  apply only_out_of_range_bind; [apply read_nodes_only |]. intros [nl p4].
  apply only_out_of_range_Ok.
Qed.

Lemma only_throws_bind {A B} (m : logged A) (f : A → logged B) :
  only_throws m → (∀ a, only_throws (f a)) → only_throws (m ≫= f).
Proof.
  intros Hm Hf e. destruct m as [l [a|e']]; unfold mbind, logged_bind; simpl.
  - apply Hf.
  - intros [= ->]. by apply Hm.
Qed.

Lemma only_throws_lift {A} (m : outcome A) :
  only_out_of_range m → only_throws (lift m).
Proof. intros Hm e He. simpl in He. by rewrite (Hm e He). Qed.

Lemma decompress_block_Standard_only (type : CompressionType.t)
    (src : list byte) (decompressed_size : Z) :
  only_throws (decompress_block type src decompressed_size Standard).
Proof.
  destruct type; unfold decompress_block.
  - intros e. discriminate.
  - case_decide; [intros e [= <-]; done |].
    apply only_throws_bind.
    { apply only_throws_lift. intros e. unfold memcpy.
      rewrite decide_True by lia. discriminate. }
    intros props. destruct (LzmaUncompress _ _ _ _ _) as [res o].
    case_decide; intros e; [intros [= <-]; done | discriminate].
  - destruct (LZ4_decompress_safe _ _ _) as [res o].
    case_decide; intros e; [intros [= <-]; done | discriminate].
  - destruct (LZ4_decompress_safe _ _ _) as [res o].
    case_decide; intros e; [intros [= <-]; done | discriminate].
  - destruct (lzham_decompress_memory _ _ _ _) as [status o].
    case_decide; intros e; [intros [= <-]; done | discriminate].
  - intros e [= <-]. done.
Qed.

Lemma read_bundle_only (raw_file : list byte) :
  only_throws (read_bundle raw_file).
Proof.
  unfold read_bundle.
  apply only_throws_bind;
    [apply only_throws_lift, read_string_only |]. intros [signature p1].
  apply only_throws_bind;
    [apply only_throws_lift, read_be_only |]. intros [v p2].
  apply only_throws_bind;
    [apply only_throws_lift, read_string_only |]. intros [ver p3].
  apply only_throws_bind;
    [apply only_throws_lift, read_string_only |]. intros [rev p4].
  case_decide; [intros e [= <-]; done |].
  apply only_throws_bind;
    [apply only_throws_lift, read_be_signed_only |]. intros [bsz p5].
  apply only_throws_bind;
    [apply only_throws_lift, read_be_only |]. intros [csz p6].
  apply only_throws_bind;
    [apply only_throws_lift, read_be_only |]. intros [usz p7].
  apply only_throws_bind;
    [apply only_throws_lift, read_be_only |]. intros [fl p8].
  apply only_throws_bind.
  { apply only_throws_lift. case_decide; [|apply only_out_of_range_Ok].
    rewrite reader_align_16. apply only_out_of_range_Ok. }
  intros p9.
  apply only_throws_bind;
    [apply only_throws_lift, get_span_only |]. intros [raw_block_info p10].
  apply only_throws_bind; [apply decompress_block_Standard_only |].
  intros block_info_data.
  apply only_throws_bind;
    [apply only_throws_lift, read_block_info_only |]. intros [bl nl].
  intros e. discriminate.
Qed.

(** C9: the block table is inflated as for the standard game whatever
    game the conversion runs for.  A bundle that was read has its blocks
    and nodes from the blob that [decompress_block] gives under
    [Standard]; reading logs nothing, the LZ4AK discrepancy included,
    and fails only by a C++ exception, never by the overflow that the
    pre-transform alone can run into; and the game only enters after the
    bundle was read: a failure of the reading is the failure of the
    conversion under either game, and the bundle that was read is the one
    the conversion goes on with under either game, so that two
    conversions of one input, one for each game, write the same header
    strings and the same nodes and differ in the payloads only. *)
Theorem block_info_inflated_as_standard (raw_file : list byte) :
  (∀ (log : list warning) (b : bundle),
      read_bundle raw_file = Logged log (Ok b) →
      ∃ raw_block_info block_info_data : list byte,
        length raw_block_info = Z.to_nat (compressed_blocks_info_size b)
        ∧ decompress_block
            (CompressionType.of_Z (Z.land (flags b) FLAG_COMPRESSION_MASK))
            raw_block_info (uncompressed_blocks_info_size b) Standard
          = Logged log (Ok block_info_data)
        ∧ read_block_info block_info_data = Ok (blocks b, nodes b))
  ∧ stderr (read_bundle raw_file) = []
  ∧ (∀ (game_mode : GameMode) (e : error),
      value (read_bundle raw_file) = Raise e →
      thrown e ∧ process_file raw_file game_mode = Logged [] (Raise e))
  ∧ (∀ (game_mode : GameMode) (b : bundle),
      value (read_bundle raw_file) = Ok b →
      process_file raw_file game_mode = rewrite_bundle game_mode raw_file b)
  ∧ (∀ (log1 log2 : list warning) (out1 out2 : list byte),
      process_file raw_file Standard = Logged log1 (Ok out1) →
      process_file raw_file Arknights = Logged log2 (Ok out2) →
      ∃ (b : bundle) (raws1 raws2 : list (list byte)),
        value (read_bundle raw_file) = Ok b
        ∧ Forall2 (inflates Standard) (blocks b) raws1
        ∧ Forall2 (inflates Arknights) (blocks b) raws2
        ∧ out1 = write_bundle (version b) (unity_ver b) (unity_rev b)
                   (build_block_info (map new_block raws1) (nodes b))
                   (concat raws1)
        ∧ out2 = write_bundle (version b) (unity_ver b) (unity_rev b)
                   (build_block_info (map new_block raws2) (nodes b))
                   (concat raws2)).
Proof.
  pose proof (read_bundle_stderr raw_file) as Hlog.
  split; [|split; [done |split; [|split]]].
  - intros log b Hread.
    by apply read_bundle_Ok in Hread as (_ & _ & _ & _ & _ & _ & _ & Hinfo).
  - intros game_mode e He. split; [by apply (read_bundle_only raw_file) |].
    unfold process_file.
    destruct (read_bundle raw_file) as [l v]. simpl in *. subst. done.
  - intros game_mode b Hb. unfold process_file.
    destruct (read_bundle raw_file) as [l v]. simpl in *. subst.
    apply (lift_Ok_bind b).
  - intros log1 log2 out1 out2 Hstd Hark.
    apply process_file_Ok in Hstd as (b & raws1 & l1 & Hread1 & Hraws1 & ->).
    apply process_file_Ok in Hark as (b' & raws2 & l2 & Hread2 & Hraws2 & ->).
    rewrite Hread1 in Hread2. injection Hread2 as _ <-.
    exists b, raws1, raws2. by rewrite Hread1.
Qed.

End ContainerProperties.

(** ** The conversion on the fixtures *)

Lemma one_descriptor_per_block_witness :
  ∃ (b : bundle) (raws : list (list byte)),
    value (read_bundle (H := stored_libraries) two_block_bundle) = Ok b
    ∧ Forall2 (inflates (H := stored_libraries) Standard) (blocks b) raws
    ∧ length (map new_block raws) = length (blocks b).
Proof.
  destruct (@one_descriptor_per_block stored_libraries two_block_bundle
              Standard [] two_block_output)
    as (b & raws & Hread & Hraws & _ & _ & _ & Hlen & _).
  - vm_compute. reflexivity.
  - exists b, raws. split; [exact Hread |]. split; [exact Hraws | exact Hlen].
Defined.

(** C1 as stated fails: for the bundle with two blocks of 3 and 2 bytes
    the table of the output has two descriptors, of 3 and of 2 bytes,
    and none of the 5 bytes of the concatenated payload. *)
Lemma single_descriptor_counterexample :
  process_file (H := stored_libraries) two_block_bundle Standard
  = Logged [] (Ok two_block_output)
  ∧ value (read_bundle (H := stored_libraries) two_block_output)
    = Ok (Bundle 6 (bs [0x35]) (bs [0x78]) 109 68 68
            FLAG_BLOCKS_AND_DIR_COMBINED
            [ArchiveBlockInfo.Build 3 3 0; ArchiveBlockInfo.Build 2 2 0]
            [ArchiveNode.Build 0 5 4 (bs [0x61; 0x2E; 0x62])]
            104)
  ∧ drop 104 two_block_output = bs [1; 2; 3; 4; 5]
  ∧ length [ArchiveBlockInfo.Build 3 3 0; ArchiveBlockInfo.Build 2 2 0] ≠ 1%nat.
Proof. vm_compute. repeat split; congruence. Qed.

Lemma total_size_field_witness :
  ∃ (b : bundle) (raws : list (list byte)),
    value (read_bundle (H := stored_libraries) two_block_bundle) = Ok b
    ∧ length two_block_output
      = (length (header_start (version b) (unity_ver b) (unity_rev b)) + 20
         + header_pad (version b)
             (length (header_start (version b) (unity_ver b) (unity_rev b))
              + 20)
         + length (build_block_info (map new_block raws) (nodes b))
         + length (concat raws))%nat.
Proof.
  destruct (@total_size_field stored_libraries two_block_bundle
              Standard [] two_block_output)
    as (b & raws & Hread & _ & _ & _ & _ & _ & _ & Hlen & _).
  - vm_compute. reflexivity.
  - exists b, raws. split; [exact Hread | exact Hlen].
Defined.

Lemma block_info_inflated_as_standard_witness :
  (∃ raw_block_info block_info_data : list byte,
      length raw_block_info = 46%nat
      ∧ decompress_block (H := stored_libraries) CompressionType.Lzham
          raw_block_info 46 Standard = Logged [] (Ok block_info_data)
      ∧ read_block_info block_info_data
        = Ok ([], [ArchiveNode.Build 0 0 4 (bs [0x61])]))
  ∧ process_file (H := stored_libraries) lzham_table_bundle Arknights
    = rewrite_bundle (H := stored_libraries) Arknights lzham_table_bundle
        (Bundle 6 (bs [0x35]) (bs [0x78]) 0 46 46 4 []
           [ArchiveNode.Build 0 0 4 (bs [0x61])] 82).
Proof.
  destruct (@block_info_inflated_as_standard stored_libraries
              lzham_table_bundle) as (Hinfo & _ & _ & Hgo & _).
  split.
  - apply (Hinfo []
             (Bundle 6 (bs [0x35]) (bs [0x78]) 0 46 46 4 []
                [ArchiveNode.Build 0 0 4 (bs [0x61])] 82)).
    vm_compute. reflexivity.
  - apply Hgo. vm_compute. reflexivity.
Defined.

(** * Further properties *)

(** ** Byte order *)

Lemma lor_shiftl_8 (a x : Z) :
  0 ≤ a < 2 ^ 8 → Z.lor a (Z.shiftl x 8) = x * 256 + a.
Proof.
  intros Ha.
  assert (Z.land a (Z.shiftl x 8) = 0) as Hland.
  { apply Z.bits_inj'. intros i Hi. rewrite Z.land_spec, Z.bits_0.
    destruct (Z.lt_ge_cases i 8).
    - rewrite Z.shiftl_spec_low by done. apply andb_false_r.
    - rewrite <- (Z.mod_small a (2 ^ 8)) by done.
      rewrite Z.mod_pow2_bits_high by lia. done. }
  rewrite <- Z.lxor_lor by done.
  rewrite <- Z.add_nocarry_lxor by done.
  rewrite Z.shiftl_mul_pow2 by lia. lia.
Qed.

Lemma be_value_snoc (l : list byte) (b : byte) :
  be_value (l ++ [b]) = be_value l * 256 + byte.unsigned b.
Proof. unfold be_value. by rewrite foldl_app. Qed.

Lemma le_combine_rev (l : list byte) : le_combine (rev l) = be_value l.
Proof.
  induction l as [|b l IH] using rev_ind; [done |].
  rewrite rev_app_distr, be_value_snoc. cbn [rev app].
  change (le_combine (b :: rev l))
    with (Z.lor (byte.unsigned b) (Z.shiftl (le_combine (rev l)) 8)).
  rewrite lor_shiftl_8 by apply byte.unsigned_range. by rewrite IH.
Qed.

Lemma swap_endian_le_combine (n : nat) (l : list byte) :
  length l = n → swap_endian n (le_combine l) = be_value l.
Proof.
  intros Hl. unfold swap_endian. destruct (decide (n = 1%nat)) as [Hn|_].
  - destruct l as [|b [|b' l]]; simpl in Hl; try lia.
    rewrite le_combine_1. unfold be_value. simpl. lia.
  - rewrite <- Hl, split_le_combine. apply le_combine_rev.
Qed.

(** X1: swapping the byte order twice gives the integer back, for every
    width and every value of that width. *)
Theorem swap_endian_involutive (n : nat) (v : Z) :
  0 ≤ v < 2 ^ (8 * Z.of_nat n) →
  swap_endian n (swap_endian n v) = v.
Proof.
  intros Hv. unfold swap_endian. destruct (decide (n = 1%nat)); [done |].
  pose proof (split_le_combine (rev (le_split n v))) as Hsplit.
  rewrite length_rev, length_le_split in Hsplit.
  rewrite Hsplit, rev_involutive, le_combine_split.
  apply Z.mod_small. by replace (Z.of_nat n * 8) with (8 * Z.of_nat n) by lia.
Qed.

Lemma swap_endian_involutive_witness :
  swap_endian 4 (swap_endian 4 0x01020304) = 0x01020304
  ∧ swap_endian 4 0x01020304 = 0x04030201.
Proof.
  split; [|reflexivity].
  apply (swap_endian_involutive 4 0x01020304). vm_compute. split; congruence.
Defined.

(** X2: [read_be] over [n] bytes fails with [out_of_range] when fewer
    than [n] bytes are left, and otherwise returns the number the next [n]
    bytes stand for most significant byte first, and moves the cursor by
    [n]. *)
Theorem read_be_big_endian (n : nat) (data : list byte) (pos : nat) :
  read_be n data pos
  = if decide (pos + n ≤ length data)%nat
    then Ok (be_value (take n (drop pos data)), (pos + n)%nat)
    else Raise out_of_range.
Proof.
  unfold read_be.
  destruct (decide (length data < pos + n)%nat) as [Hlt|Hge].
  - by rewrite decide_False by lia.
  - rewrite decide_True by lia.
    rewrite swap_endian_le_combine; [done |].
    rewrite length_take, length_drop. lia.
Qed.

(** X3: what [write_be] appends is [n] bytes, and [read_be] at the place
    where they were written gives the value back, reduced to [n] bytes;
    for a 64-bit signed value the signed read gives back the value
    itself. *)
Theorem write_be_read_be (n : nat) (ofs rest : list byte) (val : Z) :
  length (write_be n ofs val) = (length ofs + n)%nat
  ∧ read_be n (write_be n ofs val ++ rest) (length ofs)
    = Ok (val mod 2 ^ (8 * Z.of_nat n), (length ofs + n)%nat)
  ∧ (n = 8%nat → - 2 ^ 63 ≤ val < 2 ^ 63 →
     read_be_signed n (write_be n ofs val ++ rest) (length ofs)
     = Ok (val, (length ofs + n)%nat)).
Proof.
  rewrite write_be_be.
  assert (at_pos ((ofs ++ be n val) ++ rest) (length ofs) (be n val ++ rest))
    as Hat.
  { rewrite <- app_assoc. split; [rewrite length_app; lia |].
    by rewrite drop_app_length. }
  split; [by rewrite length_app, length_be |].
  split; [by apply (read_be_at n _ _ _ rest) |].
  intros -> Hval. unfold read_be_signed.
  rewrite (read_be_at 8 _ _ _ _ Hat). simpl.
  do 2 f_equal. change (8 * Z.of_nat 8) with 64.
  unfold to_signed. rewrite Z.mod_mod by lia.
  destruct (decide (0 ≤ val)).
  - rewrite Z.mod_small by lia. rewrite decide_True by (simpl; lia). done.
  - replace (val mod 2 ^ 64) with (val + 2 ^ 64).
    + rewrite decide_False by (simpl; lia). lia.
    + symmetry. rewrite <- (Z.mod_add val 1 (2 ^ 64)) by lia.
      apply Z.mod_small. lia.
Qed.

Lemma write_be_read_be_witness :
  read_be_signed 8 (write_be 8 (bs [7]) (-2) ++ bs [9]) 1 = Ok (-2, 9%nat).
Proof.
  apply (proj2 (proj2 (write_be_read_be 8 (bs [7]) (bs [9]) (-2))));
    [reflexivity | vm_compute; split; congruence].
Defined.

(** ** Strings *)

Lemma read_string_loop_until_zero (fuel : nat) (data : list byte) :
  ∀ (acc : list byte) (pos : nat),
    (length data - pos ≤ fuel)%nat →
    read_string_loop fuel data acc pos
    = Ok (acc ++ until_zero (drop pos data),
          (pos + length (until_zero (drop pos data)))%nat).
Proof.
  induction fuel as [|fuel IH]; intros acc pos Hfuel; simpl.
  - rewrite decide_False by lia. rewrite drop_ge by lia. simpl.
    by rewrite app_nil_r, Nat.add_0_r.
  - destruct (decide (pos < length data)%nat) as [Hlt|Hge].
    + destruct (index_lt data pos Hlt) as (b & Hb & ->). simpl.
      rewrite (drop_S _ _ _ Hb). simpl.
      destruct (decide (byte.unsigned b ≠ 0)).
      * rewrite IH by lia. rewrite <- app_assoc. simpl. do 2 f_equal. lia.
      * by rewrite app_nil_r, Nat.add_0_r.
    + rewrite drop_ge by lia. simpl. by rewrite app_nil_r, Nat.add_0_r.
Qed.

Lemma until_zero_cstring (s : list byte) : cstring (until_zero s).
Proof.
  induction s as [|b s IH]; simpl; [constructor |].
  case_decide; [by constructor | constructor].
Qed.

Lemma until_zero_app_zero (s rest : list byte) :
  until_zero (s ++ Byte.x00 :: rest) = until_zero s.
Proof.
  induction s as [|b s IH]; simpl; [done |].
  case_decide; [by rewrite IH | done].
Qed.

Lemma until_zero_id (s : list byte) : cstring s → until_zero s = s.
Proof.
  induction 1 as [|b s Hb Hs IH]; simpl; [done |].
  rewrite decide_True by done. by rewrite IH.
Qed.

(** X4: [read_string] never fails.  From any cursor it returns the bytes
    in front of the first zero byte at or after the cursor (all the bytes
    that are left when there is none, nothing when the cursor is past the
    end), and it moves the cursor by the length of the string plus one. *)
Theorem read_string_until_zero (data : list byte) (pos : nat) :
  read_string data pos
  = Ok (until_zero (drop pos data),
        (pos + length (until_zero (drop pos data)) + 1)%nat).
Proof.
  unfold read_string. rewrite read_string_loop_until_zero by lia.
  simpl. do 2 f_equal. lia.
Qed.

(** X5: a string that runs to the end of the buffer without a zero byte
    is returned all the same, and the cursor is left one past the end of
    the buffer: every bounded read that follows, of any size, throws
    [out_of_range]. *)
Theorem read_string_unterminated (data : list byte) (pos : nat) :
  (pos ≤ length data)%nat → cstring (drop pos data) →
  read_string data pos = Ok (drop pos data, S (length data))
  ∧ ∀ n : nat,
      read_be n data (S (length data)) = Raise out_of_range
      ∧ read_bytes n data (S (length data)) = Raise out_of_range
      ∧ get_span n data (S (length data)) = Raise out_of_range.
Proof.
  intros Hpos Hs. split.
  - rewrite read_string_until_zero, (until_zero_id _ Hs), length_drop.
    do 2 f_equal. lia.
  - intros n. unfold read_be, read_bytes, get_span.
    rewrite !decide_True by lia. done.
Qed.

Lemma read_string_unterminated_witness :
  read_string (bs [0x61; 0; 0x62; 0x63]) 2
  = Ok (bs [0x62; 0x63], 5%nat)
  ∧ read_be 0 (bs [0x61; 0; 0x62; 0x63]) 5 = Raise out_of_range.
Proof.
  destruct (read_string_unterminated (bs [0x61; 0; 0x62; 0x63]) 2)
    as [Hread Hnext].
  - simpl. lia.
  - repeat constructor; vm_compute; congruence.
  - split; [exact Hread | exact (proj1 (Hnext 0%nat))].
Defined.

(** X6: [write_string] appends the string and a zero byte, and
    [read_string] at the place where it was written returns the string up
    to its first zero byte: a string without a zero byte comes back whole,
    with the cursor behind the terminator. *)
Theorem write_string_read_string (ofs s rest : list byte) :
  read_string (write_string ofs s ++ rest) (length ofs)
  = Ok (until_zero s, (length ofs + length (until_zero s) + 1)%nat)
  ∧ (cstring s →
     read_string (write_string ofs s ++ rest) (length ofs)
     = Ok (s, length (write_string ofs s))).
Proof.
  assert (drop (length ofs) (write_string ofs s ++ rest)
          = s ++ Byte.x00 :: rest) as Hdrop.
  { unfold write_string. rewrite <- !app_assoc. by rewrite drop_app_length. }
  assert (read_string (write_string ofs s ++ rest) (length ofs)
          = Ok (until_zero s, (length ofs + length (until_zero s) + 1)%nat))
    as Hread.
  { by rewrite read_string_until_zero, Hdrop, until_zero_app_zero. }
  split; [done |]. intros Hs. rewrite Hread, (until_zero_id _ Hs).
  unfold write_string. rewrite !length_app. simpl. do 2 f_equal. lia.
Qed.

Lemma write_string_read_string_witness :
  read_string (write_string (bs [1; 2]) (bs [0x61; 0x62]) ++ bs [3]) 2
  = Ok (bs [0x61; 0x62], 5%nat).
Proof.
  apply (proj2 (write_string_read_string (bs [1; 2]) (bs [0x61; 0x62])
                  (bs [3]))).
  repeat constructor; vm_compute; congruence.
Defined.

(** ** Alignment *)

(** X7: the writer's [align(16)] appends fewer than 16 zero bytes and
    stops at a multiple of 16, and the reader's [align(16)] from the
    position where the padding starts stops at the same place, without
    looking at the bytes it skips. *)
Theorem align_16_agree (ofs : list byte) :
  ∃ pad : nat,
    (pad < 16)%nat
    ∧ writer_align ofs 16 = ofs ++ replicate pad Byte.x00
    ∧ (length (writer_align ofs 16) mod 16 = 0)%nat
    ∧ reader_align 16 (length ofs) = Ok (length (writer_align ofs 16)).
Proof.
  exists ((16 - length ofs mod 16) mod 16)%nat.
  pose proof (Nat.mod_upper_bound (16 - length ofs mod 16) 16 ltac:(lia)).
  assert (length (writer_align ofs 16)
          = (length ofs + (16 - length ofs mod 16) mod 16)%nat) as Hlen
    by (unfold writer_align; by rewrite length_app, length_replicate).
  split; [done |]. split; [done |]. split.
  - rewrite Hlen.
    pose proof (Nat.mod_upper_bound (length ofs) 16 ltac:(lia)).
    pose proof (Nat.div_mod_eq (length ofs) 16).
    pose proof (Nat.div_mod_eq (16 - length ofs mod 16) 16).
    pose proof (Nat.mod_upper_bound
                  (length ofs + (16 - length ofs mod 16) mod 16) 16
                  ltac:(lia)).
    pose proof (Nat.div_mod_eq
                  (length ofs + (16 - length ofs mod 16) mod 16) 16).
    nia.
  - rewrite Hlen. apply reader_align_16.
Qed.

(** ** The extra-length rule *)

Lemma at_pos_middle (pre rest : list byte) :
  at_pos (pre ++ rest) (length pre) rest.
Proof. split; [rewrite length_app; lia | by rewrite drop_app_length]. Qed.

Lemma read_extra_length_loop_run (q : nat) :
  ∀ (fuel : nat) (data : list byte) (len : Z) (cursor : nat)
    (r : byte) (rest : list byte),
    at_pos data cursor (replicate q Byte.xff ++ r :: rest) →
    byte.unsigned r ≠ 0xFF →
    0 ≤ len → len + 255 * Z.of_nat q + byte.unsigned r ≤ INT_MAX →
    (q < fuel)%nat →
    read_extra_length_loop fuel data len cursor
    = Ok (len + 255 * Z.of_nat q + byte.unsigned r, (cursor + q + 1)%nat).
Proof.
  induction q as [|q IH]; intros fuel data len cursor r rest Hat Hr Hlen Hmax Hfuel;
    (destruct fuel as [|fuel]; [lia |]).
  - simpl in Hat. pose proof (at_pos_lookup _ _ _ _ Hat) as Hb.
    pose proof (byte_unsigned_bounds r).
    rewrite (read_extra_length_loop_step _ _ _ _ _ Hb)
      by (unfold INT_MIN, INT_MAX in *; lia).
    rewrite decide_True by done. do 2 f_equal; lia.
  - simpl in Hat. pose proof (at_pos_lookup _ _ _ _ Hat) as Hb.
    pose proof (byte_unsigned_bounds r).
    change (byte.unsigned Byte.xff) with 255 in *.
    rewrite (read_extra_length_loop_step _ _ _ _ _ Hb)
      by (change (byte.unsigned Byte.xff) with 255;
          unfold INT_MIN, INT_MAX in *; lia).
    rewrite decide_False by (intros Hne; by apply Hne).
    change (byte.unsigned Byte.xff) with 255.
    rewrite (IH fuel data (len + 255) (S cursor) r rest); [| |done|lia|lia|lia].
    + do 2 f_equal; lia.
    + replace (S cursor) with (cursor + length [Byte.xff])%nat by (simpl; lia).
      by apply (at_pos_app data cursor [Byte.xff]).
Qed.

Lemma read_extra_length_loop_open_run (q : nat) :
  ∀ (fuel : nat) (data : list byte) (len : Z) (cursor : nat),
    at_pos data cursor (replicate q Byte.xff) →
    0 ≤ len → len + 255 * Z.of_nat q ≤ INT_MAX →
    (q ≤ fuel)%nat →
    read_extra_length_loop fuel data len cursor
    = Ok (len + 255 * Z.of_nat q, (cursor + q)%nat).
Proof.
  induction q as [|q IH]; intros fuel data len cursor Hat Hlen Hmax Hfuel.
  - pose proof (at_pos_length _ _ _ Hat) as Hsize. simpl in Hsize.
    destruct fuel; simpl; rewrite decide_False by lia;
      do 2 f_equal; lia.
  - destruct fuel as [|fuel]; [lia |].
    simpl in Hat. pose proof (at_pos_lookup _ _ _ _ Hat) as Hb.
    rewrite (read_extra_length_loop_step _ _ _ _ _ Hb)
      by (change (byte.unsigned Byte.xff) with 255;
          unfold INT_MIN, INT_MAX in *; lia).
    rewrite decide_False by (intros Hne; by apply Hne).
    change (byte.unsigned Byte.xff) with 255.
    rewrite (IH fuel data (len + 255) (S cursor)); [| |lia|lia|lia].
    + do 2 f_equal; lia.
    + replace (S cursor) with (cursor + length [Byte.xff])%nat by (simpl; lia).
      by apply (at_pos_app data cursor [Byte.xff]).
Qed.

Lemma length_extra_length_bytes (k : Z) :
  length (extra_length_bytes k) = S (Z.to_nat (k / 255)).
Proof.
  unfold extra_length_bytes. rewrite length_app, length_replicate. simpl. lia.
Qed.

Lemma read_extra_length_bytes (pre rest : list byte) (k : Z) :
  0 ≤ k ≤ INT_MAX →
  read_extra_length (pre ++ extra_length_bytes k ++ rest) (length pre)
  = Ok (k, (length pre + length (extra_length_bytes k))%nat).
Proof.
  intros Hk. unfold read_extra_length.
  pose proof (at_pos_middle pre (extra_length_bytes k ++ rest)) as Hat.
  unfold extra_length_bytes at 2 in Hat. rewrite <- app_assoc in Hat.
  simpl in Hat.
  assert (0 ≤ k mod 255 < 255) as Hmod by (apply Z.mod_pos_bound; lia).
  assert (0 ≤ k / 255) as Hdiv by (apply Z.div_pos; lia).
  pose proof (Z.div_mod k 255 ltac:(lia)) as Hkq.
  assert (byte.unsigned (byte.of_Z (k mod 255)) = k mod 255) as Hr.
  { rewrite byte.unsigned_of_Z. unfold byte.wrap. apply Z.mod_small. lia. }
  rewrite (read_extra_length_loop_run _ _ _ 0 _ _ _ Hat).
  - rewrite Hr, length_extra_length_bytes. do 2 f_equal; lia.
  - rewrite Hr. lia.
  - lia.
  - rewrite Hr. lia.
  - rewrite !length_app, length_extra_length_bytes. lia.
Qed.

(** X8: the extra-length rule reads back what the run encodes.  A run
    of [q] bytes 0xFF closed by a byte [r] other than 0xFF gives
    [255 q + r] and leaves the cursor behind [r]; the run written for a
    length [k], 0xFF for every full 255 and then the remainder, gives
    [k]; and a run of 0xFF that reaches the end of the buffer gives
    [255 q] with the cursor at the end, no error. *)
Theorem read_extra_length_run (pre rest : list byte) :
  (∀ (q : nat) (r : byte),
      byte.unsigned r ≠ 0xFF →
      255 * Z.of_nat q + byte.unsigned r ≤ INT_MAX →
      read_extra_length (pre ++ replicate q Byte.xff ++ r :: rest) (length pre)
      = Ok (255 * Z.of_nat q + byte.unsigned r, (length pre + q + 1)%nat))
  ∧ (∀ k : Z,
      0 ≤ k ≤ INT_MAX →
      read_extra_length (pre ++ extra_length_bytes k ++ rest) (length pre)
      = Ok (k, (length pre + length (extra_length_bytes k))%nat))
  ∧ (∀ q : nat,
      255 * Z.of_nat q ≤ INT_MAX →
      read_extra_length (pre ++ replicate q Byte.xff) (length pre)
      = Ok (255 * Z.of_nat q, length (pre ++ replicate q Byte.xff))).
Proof.
  split; [|split].
  - intros q r Hr Hmax. unfold read_extra_length.
    rewrite (read_extra_length_loop_run q _ _ 0 (length pre) r rest);
      [done | apply at_pos_middle | done | lia | lia |].
    rewrite !length_app, length_replicate. simpl. lia.
  - apply read_extra_length_bytes.
  - intros q Hmax. unfold read_extra_length.
    rewrite (read_extra_length_loop_open_run q _ _ 0 (length pre));
      [| apply at_pos_middle | lia | lia |].
    + rewrite length_app, length_replicate. done.
    + rewrite length_app, length_replicate. lia.
Qed.

Lemma read_extra_length_run_witness :
  read_extra_length (bs [0x0F] ++ extra_length_bytes 65520 ++ bs [1]) 1
  = Ok (65520, 258%nat).
Proof.
  apply (proj1 (proj2 (read_extra_length_run (bs [0x0F]) (bs [1]))) 65520).
  vm_compute. split; congruence.
Defined.

(** ** One pass of the rewrite *)

(** X9: a pass of the rewrite loop changes the token and, when it goes
    on to the match, exchanges the two bytes of the distance, which lie
    behind the token; it touches no other byte (literals and extension
    bytes go through as they are), keeps the size of the buffer and
    leaves the cursor behind the distance. *)
Theorem lzak_body_touches (uncompressed_size : Z) (st st' : lzak_state)
    (continue : bool) :
  lzak_body uncompressed_size st = Ok (st', continue) →
  ∃ token : byte,
    fixed_data st !! ip st = Some token
    ∧ length (fixed_data st') = length (fixed_data st)
    ∧ if continue then
        ∃ (d : nat) (b0 b1 : byte),
          (ip st < d)%nat
          ∧ fixed_data st !! d = Some b0
          ∧ fixed_data st !! (d + 1)%nat = Some b1
          ∧ (d + 2 ≤ ip st')%nat
          ∧ fixed_data st'
            = <[(d + 1)%nat := b0]>
                (<[d := b1]>
                   (<[ip st := fixed_token token]> (fixed_data st)))
      else fixed_data st' = <[ip st := fixed_token token]> (fixed_data st).
Proof.
  intros Hbody. destruct st as [data ip0 op0]. unfold lzak_body in Hbody.
  simpl in Hbody.
  apply outcome_bind_Ok in Hbody as (token & Htok & Hbody).
  apply index_Ok in Htok. pose proof (lookup_lt_Some _ _ _ Htok) as Hip.
  rewrite store_lt in Hbody by done. simpl in Hbody.
  set (data1 := <[ip0 := fixed_token token]> data) in *.
  assert (length data1 = length data) as Hlen1 by apply length_insert.
  apply outcome_bind_Ok in Hbody as ([len ip1] & Hext & Hbody).
  destruct (extended_length_spec data1 (literal_len token) (S ip0)
              (literal_len_bounds token))
    as [(len' & ip1' & Hext' & Hle1 & _)|[Hext' _]]; [|congruence].
  rewrite Hext in Hext'. injection Hext' as <- <-.
  exists token. simpl. split; [done |].
  destruct (decide (to_size_t uncompressed_size ≤ to_size_t (op0 + len))).
  { injection Hbody as <- <-. done. }
  destruct (decide (length data < ip1 + Z.to_nat len + 2)%nat) as [|Hroom].
  { injection Hbody as <- <-. done. }
  set (d := (ip1 + Z.to_nat len)%nat) in *.
  apply outcome_bind_Ok in Hbody as (b0 & Hb0 & Hbody).
  apply outcome_bind_Ok in Hbody as (b1 & Hb1 & Hbody).
  rewrite store_lt in Hbody by lia. simpl in Hbody.
  rewrite store_lt in Hbody by (rewrite length_insert; lia). simpl in Hbody.
  apply outcome_bind_Ok in Hbody as ([mlen ip3] & Hm & Hbody).
  injection Hbody as <- <-. simpl.
  destruct (extended_length_spec
              (<[(d + 1)%nat := b0]> (<[d := b1]> data1))
              (match_len_nibble token) (d + 2)
              (match_len_nibble_bounds token))
    as [(mlen' & ip3' & Hm' & Hle3 & _)|[Hm' _]]; [|congruence].
  rewrite Hm in Hm'. injection Hm' as <- <-.
  split; [by rewrite !length_insert |].
  apply index_Ok in Hb0, Hb1. unfold data1 in Hb0, Hb1.
  rewrite list_lookup_insert_ne in Hb0, Hb1 by lia.
  exists d, b0, b1. repeat split; (done || lia).
Qed.

Lemma lzak_body_touches_witness :
  ∃ token : byte,
    bs [0x21; 0x41; 0x01; 0x00] !! 0%nat = Some token
    ∧ length (bs [0x12; 0x41; 0x00; 0x01]) = length (bs [0x21; 0x41; 0x01; 0x00])
    ∧ ∃ (d : nat) (b0 b1 : byte),
        (0 < d)%nat
        ∧ bs [0x21; 0x41; 0x01; 0x00] !! d = Some b0
        ∧ bs [0x21; 0x41; 0x01; 0x00] !! (d + 1)%nat = Some b1
        ∧ (d + 2 ≤ 4)%nat
        ∧ bs [0x12; 0x41; 0x00; 0x01]
          = <[(d + 1)%nat := b0]>
              (<[d := b1]>
                 (<[0%nat := fixed_token token]> (bs [0x21; 0x41; 0x01; 0x00]))).
Proof.
  exact (lzak_body_touches 1000
           (LzakState (bs [0x21; 0x41; 0x01; 0x00]) 0 0)
           (LzakState (bs [0x12; 0x41; 0x00; 0x01]) 4 7) true eq_refl).
Defined.

(** ** A declared size beyond [INT_MAX] *)

Section DeclaredSize.
Context `{Libraries}.

(** X10: for Arknights an LZHAM block that declares 2^31 bytes or more
    never reaches the LZ4 decoder: the size arrives in
    [decompress_lzak] as a negative [int], and the destination vector
    cannot be made ([length_error]).  The slice is not empty and short
    enough for the rewrite to stay clear of the overflow of its
    accumulator. *)
Theorem lzak_declared_size_beyond_int (src : list byte) (decompressed_size : Z) :
  src ≠ [] →
  255 * Z.of_nat (length src) ≤ INT_MAX →
  2 ^ 31 ≤ decompressed_size < 2 ^ 32 →
  decompress_block CompressionType.Lzham src decompressed_size Arknights
  = Logged [] (Raise length_error).
Proof.
  intros Hsrc Hsmall Hsize. simpl. unfold decompress_lzak.
  destruct src as [|b src]; [done |].
  destruct (lzak_rewrite_spec (b :: src) (to_int decompressed_size))
    as [(st & -> & _)|[_ Hov]]; [|lia].
  rewrite lift_Ok_bind.
  rewrite (to_int_large decompressed_size) by done.
  unfold vector_alloc, to_size_t, to_unsigned, PTRDIFF_MAX.
  replace (decompressed_size - 2 ^ 32)
    with (decompressed_size + (2 ^ 64 - 2 ^ 32) + (-1) * 2 ^ 64) by lia.
  rewrite Z.mod_add by lia. rewrite Z.mod_small by lia.
  rewrite decide_False by lia. done.
Qed.

End DeclaredSize.

Lemma lzak_declared_size_beyond_int_witness :
  decompress_block (H := stored_libraries) CompressionType.Lzham
    (bs [0x10; 0x61]) 0x80000000 Arknights
  = Logged [] (Raise length_error).
Proof.
  apply (@lzak_declared_size_beyond_int stored_libraries).
  - discriminate.
  - vm_compute. congruence.
  - vm_compute. split; congruence.
Defined.

(** ** The rewrite as a map from the game's layout to LZ4's *)

Lemma token_of_nibbles (hi lo : Z) :
  0 ≤ hi ≤ 15 → 0 ≤ lo ≤ 15 →
  literal_len (token_of hi lo) = lo
  ∧ match_len_nibble (token_of hi lo) = hi
  ∧ fixed_token (token_of hi lo) = token_of lo hi.
Proof.
  intros Hhi Hlo.
  assert (∃ h : nat, hi = Z.of_nat h ∧ (h < 16)%nat) as (h & -> & Hh)
    by (exists (Z.to_nat hi); lia).
  assert (∃ l : nat, lo = Z.of_nat l ∧ (l < 16)%nat) as (l & -> & Hl)
    by (exists (Z.to_nat lo); lia).
  clear Hhi Hlo.
  do 16 (destruct h as [|h]; [do 16 (destruct l as [|l]; [by vm_compute |]); lia |]).
  lia.
Qed.

Lemma length_nibble_bounds (n : Z) : 0 ≤ n → 0 ≤ length_nibble n ≤ 15.
Proof. unfold length_nibble. lia. Qed.

Lemma extended_length_at (data : list byte) (ip : nat) (n : Z)
    (rest : list byte) :
  at_pos data ip (length_extension n ++ rest) →
  0 ≤ n ≤ INT_MAX →
  extended_length data (length_nibble n) ip
  = Ok (n, (ip + length (length_extension n))%nat).
Proof.
  intros [Hle Hdrop] Hn. unfold INT_MAX in Hn.
  unfold extended_length, length_nibble, length_extension in *.
  destruct (decide (n < 15)).
  - rewrite decide_False by lia. simpl. rewrite Z.min_l by lia.
    by rewrite Nat.add_0_r.
  - rewrite Z.min_r by lia. rewrite decide_True by done.
    pose proof (read_extra_length_bytes (take ip data) rest (n - 15)) as Hr.
    rewrite <- Hdrop, take_drop, length_take_le in Hr by lia.
    rewrite Hr by (unfold INT_MAX; lia). rewrite outcome_bind_Ok_l.
    cbv beta iota.
    rewrite (to_size_t_small (n - 15)) by lia.
    rewrite to_size_t_small by lia. do 2 f_equal. lia.
Qed.

Lemma insert_middle {A} (pre : list A) (x y : A) (rest : list A) :
  <[length pre := y]> (pre ++ x :: rest) = pre ++ y :: rest.
Proof. induction pre as [|a pre IH]; simpl; [done | by f_equal]. Qed.

Lemma sequence_shape (t : byte) (E1 L : list byte) (d1 d2 : byte)
    (E2 rest : list byte) :
  (t :: E1 ++ L ++ [d1; d2] ++ E2) ++ rest
  = t :: E1 ++ L ++ d1 :: d2 :: E2 ++ rest.
Proof. simpl. by rewrite <- !app_assoc. Qed.

Lemma insert_middle_2 {A} (pre : list A) (a b x y : A) (rest : list A) :
  <[(length pre + 1)%nat := x]> (<[length pre := y]> (pre ++ a :: b :: rest))
  = pre ++ y :: x :: rest.
Proof. induction pre as [|c pre IH]; simpl; [done | by f_equal]. Qed.

Lemma at_pos_middle_2 (pre : list byte) (a b : byte) (rest : list byte) :
  at_pos (pre ++ a :: b :: rest) (length pre + 2) rest.
Proof.
  apply (at_pos_app _ _ [a; b]). apply at_pos_middle.
Qed.

Lemma sequence_split (pre : list byte) (t : byte) (E1 L X : list byte) :
  pre ++ t :: E1 ++ L ++ X = (pre ++ t :: E1 ++ L) ++ X.
Proof. rewrite <- app_assoc. simpl. by rewrite <- app_assoc. Qed.

Lemma length_lzak_sequence (s : sequence) :
  length (lzak_sequence s) = length (lz4_sequence s).
Proof. unfold lzak_sequence, lz4_sequence. simpl. by rewrite !length_app. Qed.

Lemma lzak_body_sequence (target : Z) (pre rest : list byte) (s : sequence)
    (op0 : Z) :
  sequence_ok s → 0 ≤ op0 →
  op0 + seq_literal_len s + (seq_match s + 4) ≤ to_size_t target →
  lzak_body target (LzakState (pre ++ lzak_sequence s ++ rest) (length pre) op0)
  = Ok (LzakState (pre ++ lz4_sequence s ++ rest)
          (length pre + length (lzak_sequence s))
          (op0 + seq_literal_len s + (seq_match s + 4)), true).
Proof.
  intros [Hl [Hm0 Hm]] Hop Htarget.
  destruct s as [L [d1 d2] m]. unfold seq_literal_len in *.
  cbn [seq_literals seq_distance seq_match fst snd] in *.
  assert (to_size_t target < 2 ^ 64) as Hlt
    by (unfold to_size_t, to_unsigned; apply Z.mod_pos_bound; lia).
  assert (0 ≤ Z.of_nat (length L)) as Hl0 by lia.
  destruct (token_of_nibbles (length_nibble m) (length_nibble (Z.of_nat (length L)))
              (length_nibble_bounds _ Hm0) (length_nibble_bounds _ Hl0))
    as (Hlit & Hmat & Hfix).
  unfold lzak_body, lzak_sequence, lz4_sequence.
  cbn [fixed_data ip op seq_literals seq_distance seq_match fst snd].
  unfold seq_literal_len.
  cbn [fixed_data ip op seq_literals seq_distance seq_match fst snd].
  rewrite !sequence_shape.
  set (n := Z.of_nat (length L)) in *.
  set (E1 := length_extension n). set (E2 := length_extension m).
  rewrite (proj2 (index_Ok _ _ _) (list_lookup_middle _ _ _ _ eq_refl)).
  rewrite outcome_bind_Ok_l. cbv beta.
  rewrite store_lt by (rewrite length_app; simpl; lia).
  rewrite outcome_bind_Ok_l. cbv beta.
  rewrite insert_middle, Hfix, Hlit, Hmat.
  set (t' := token_of (length_nibble n) (length_nibble m)).
  set (data1 := pre ++ t' :: E1 ++ L ++ d1 :: d2 :: E2 ++ rest).
  assert (at_pos data1 (S (length pre)) (E1 ++ L ++ d1 :: d2 :: E2 ++ rest))
    as Hat1.
  { pose proof (at_pos_middle (pre ++ [t']) (E1 ++ L ++ d1 :: d2 :: E2 ++ rest))
      as Hat.
    rewrite <- app_assoc, length_app in Hat. simpl in Hat.
    by rewrite Nat.add_1_r in Hat. }
  rewrite (extended_length_at _ _ _ _ Hat1) by (unfold n; lia).
  rewrite outcome_bind_Ok_l. cbv beta iota.
  apply at_pos_app in Hat1. fold E1.
  set (ip1 := (S (length pre) + length E1)%nat) in *.
  pose proof (at_pos_app _ _ _ _ Hat1) as Hat2.
  replace (Z.to_nat n) with (length L) by (unfold n; lia).
  set (ip2 := (ip1 + length L)%nat) in *.
  unfold INT_MAX in *.
  rewrite (to_size_t_small (op0 + n)) by lia.
  rewrite decide_False by lia.
  pose proof (at_pos_length _ _ _ Hat2) as Hlen. simpl in Hlen.
  match goal with
  | |- context [length ?l] =>
      replace (length l) with (length data1)
        by (unfold data1; by rewrite !length_app)
  end.
  rewrite decide_False by lia.
  rewrite (proj2 (index_Ok _ _ _) (at_pos_lookup _ _ _ _ Hat2)).
  rewrite outcome_bind_Ok_l. cbv beta.
  assert (at_pos data1 (ip2 + 1) (d2 :: E2 ++ rest)) as Hat3
    by exact (at_pos_app _ _ [d1] _ Hat2).
  rewrite (proj2 (index_Ok _ _ _) (at_pos_lookup _ _ _ _ Hat3)).
  rewrite outcome_bind_Ok_l. cbv beta.
  rewrite store_lt by lia. rewrite outcome_bind_Ok_l. cbv beta.
  rewrite store_lt by (rewrite length_insert; lia).
  rewrite outcome_bind_Ok_l. cbv beta.
  assert (length (pre ++ t' :: E1 ++ L) = ip2) as HP.
  { unfold ip2, ip1. rewrite length_app. simpl. rewrite length_app. lia. }
  unfold data1. rewrite !(sequence_split pre t' E1 L).
  rewrite <- HP, insert_middle_2.
  rewrite (extended_length_at _ _ m rest
             (at_pos_middle_2 (pre ++ t' :: E1 ++ L) d2 d1 (E2 ++ rest)))
    by (unfold INT_MAX; lia).
  rewrite outcome_bind_Ok_l. cbv beta iota.
  rewrite (to_size_t_small (m + 4)) by lia.
  rewrite to_size_t_small by lia.
  do 3 f_equal. fold E2. rewrite HP. unfold ip2, ip1.
  simpl. rewrite !length_app. simpl. lia.
Qed.

Lemma lzak_body_last (target : Z) (pre literals : list byte) (op0 : Z) :
  Z.of_nat (length literals) ≤ INT_MAX →
  lzak_body target (LzakState (pre ++ lzak_last literals) (length pre) op0)
  = Ok (LzakState (pre ++ lz4_last literals)
          (length pre + length (lzak_last literals))
          (to_size_t (op0 + Z.of_nat (length literals))), false).
Proof.
  intros Hl. set (n := Z.of_nat (length literals)) in *.
  assert (0 ≤ n) as Hn by lia.
  destruct (token_of_nibbles 0 (length_nibble n) ltac:(lia)
              (length_nibble_bounds _ Hn)) as (Hlit & _ & Hfix).
  unfold lzak_body, lzak_last, lz4_last.
  cbn [fixed_data ip op]. fold n.
  set (E1 := length_extension n).
  rewrite (proj2 (index_Ok _ _ _) (list_lookup_middle _ _ _ _ eq_refl)).
  rewrite outcome_bind_Ok_l. cbv beta.
  rewrite store_lt by (rewrite length_app; simpl; lia).
  rewrite outcome_bind_Ok_l. cbv beta.
  rewrite insert_middle, Hfix, Hlit.
  set (t' := token_of (length_nibble n) 0).
  set (data1 := pre ++ t' :: E1 ++ literals).
  assert (at_pos data1 (S (length pre)) (E1 ++ literals ++ [])) as Hat1.
  { pose proof (at_pos_middle (pre ++ [t']) (E1 ++ literals)) as Hat.
    rewrite <- app_assoc, length_app in Hat. simpl in Hat.
    rewrite app_nil_r, <- Nat.add_1_r. exact Hat. }
  rewrite (extended_length_at _ _ _ _ Hat1) by lia.
  rewrite outcome_bind_Ok_l. cbv beta iota. fold E1.
  apply at_pos_app, at_pos_app, at_pos_length in Hat1. simpl in Hat1.
  replace (Z.to_nat n) with (length literals) by (unfold n; lia).
  assert ((S (length pre) + length E1 + length literals)%nat
          = (length pre + length (token_of 0 (length_nibble n) :: E1 ++ literals))%nat)
    as -> by (simpl; rewrite length_app; lia).
  destruct (decide (to_size_t target ≤ to_size_t (op0 + n))); [done |].
  rewrite decide_True; [done |].
  rewrite length_app. simpl. lia.
Qed.

Lemma decoded_size_nonneg (seqs : list sequence) :
  Forall sequence_ok seqs → 0 ≤ decoded_size seqs.
Proof.
  induction 1 as [|s seqs [_ [Hm _]] _ IH]; simpl; [done |].
  unfold seq_literal_len. lia.
Qed.

Lemma lzak_stream_cons (s : sequence) (seqs : list sequence)
    (literals : list byte) :
  lzak_stream (s :: seqs) literals = lzak_sequence s ++ lzak_stream seqs literals.
Proof. unfold lzak_stream. simpl. by rewrite <- app_assoc. Qed.

Lemma lz4_stream_cons (s : sequence) (seqs : list sequence)
    (literals : list byte) :
  lz4_stream (s :: seqs) literals = lz4_sequence s ++ lz4_stream seqs literals.
Proof. unfold lz4_stream. simpl. by rewrite <- app_assoc. Qed.

Lemma length_lzak_stream (seqs : list sequence) (literals : list byte) :
  (length seqs < length (lzak_stream seqs literals))%nat.
Proof.
  induction seqs as [|s seqs IH].
  - unfold lzak_stream, lzak_last. simpl. lia.
  - rewrite lzak_stream_cons, length_app. unfold lzak_sequence at 1.
    simpl. lia.
Qed.

Lemma lzak_loop_stream (target : Z) (literals : list byte) :
  Z.of_nat (length literals) ≤ INT_MAX →
  ∀ (seqs : list sequence) (pre : list byte) (op0 : Z) (fuel : nat),
    Forall sequence_ok seqs →
    0 ≤ op0 →
    op0 + decoded_size seqs ≤ to_size_t target →
    (length seqs < fuel)%nat →
    lzak_loop fuel target
      (LzakState (pre ++ lzak_stream seqs literals) (length pre) op0)
    = Ok (LzakState (pre ++ lz4_stream seqs literals)
            (length pre + length (lzak_stream seqs literals))
            (to_size_t (op0 + decoded_size seqs
                        + Z.of_nat (length literals)))).
Proof.
  intros Hl seqs.
  induction seqs as [|s seqs IH]; intros pre op0 fuel Hok Hop Htarget Hfuel;
    (destruct fuel as [|fuel]; [simpl in Hfuel; lia |]).
  - unfold lzak_stream, lz4_stream. cbn [map concat app lzak_loop].
    cbn [fixed_data ip].
    rewrite decide_True
      by (rewrite length_app; unfold lzak_last; simpl; lia).
    rewrite lzak_body_last by done. rewrite outcome_bind_Ok_l.
    cbv beta iota. simpl decoded_size. by rewrite Z.add_0_r.
  - inversion Hok as [|? ? Hs Hseqs]; subst.
    pose proof (decoded_size_nonneg _ Hseqs) as Hnn.
    pose proof Hs as [Hsl [Hsm0 Hsm]].
    assert (0 ≤ seq_literal_len s) as Hl0 by (unfold seq_literal_len; lia).
    rewrite lzak_stream_cons, lz4_stream_cons.
    cbn [lzak_loop fixed_data ip].
    rewrite decide_True
      by (rewrite !length_app; unfold lzak_sequence; simpl; lia).
    change (decoded_size (s :: seqs))
      with (seq_literal_len s + (seq_match s + 4) + decoded_size seqs) in *.
    rewrite lzak_body_sequence by (done || lia).
    rewrite outcome_bind_Ok_l. cbv beta iota.
    rewrite length_lzak_sequence at 1.
    rewrite !app_assoc, <- length_app.
    rewrite IH by (done || simpl in Hfuel; lia).
    do 2 f_equal.
    + rewrite !length_app, length_lzak_sequence. lia.
    + f_equal. lia.
Qed.

(** X11: the rewrite turns a block in the game's layout into the same
    block in LZ4's.  For any sequences (literals, distance bytes, match
    length) and closing literals, the rewrite of the stream that stores
    them the game's way (literal length in the low nibble of the token,
    distance bytes exchanged) is the LZ4 stream of the same sequences,
    byte for byte, with the cursor at the end and the output offset at
    the decoded size.  The lengths fit an [int] and the matches decode
    within the declared size. *)
Theorem lzak_rewrite_stream (seqs : list sequence) (literals : list byte)
    (uncompressed_size : Z) :
  Forall sequence_ok seqs →
  Z.of_nat (length literals) ≤ INT_MAX →
  decoded_size seqs ≤ to_size_t uncompressed_size →
  lzak_rewrite (lzak_stream seqs literals) uncompressed_size
  = Ok (LzakState (lz4_stream seqs literals)
          (length (lzak_stream seqs literals))
          (to_size_t (decoded_size seqs + Z.of_nat (length literals)))).
Proof.
  intros Hok Hl Htarget. unfold lzak_rewrite.
  apply (lzak_loop_stream uncompressed_size literals Hl seqs [] 0);
    [done | done | lia | apply length_lzak_stream].
Qed.

Lemma lzak_rewrite_stream_witness :
  lzak_rewrite
    (lzak_stream [Sequence (bs [0x61]) (Byte.x01, Byte.x00) 0] (bs [0x62])) 6
  = Ok (LzakState
          (lz4_stream [Sequence (bs [0x61]) (Byte.x01, Byte.x00) 0] (bs [0x62]))
          (length
             (lzak_stream [Sequence (bs [0x61]) (Byte.x01, Byte.x00) 0]
                (bs [0x62])))
          (to_size_t
             (decoded_size [Sequence (bs [0x61]) (Byte.x01, Byte.x00) 0]
              + Z.of_nat (length (bs [0x62]))))).
Proof.
  apply lzak_rewrite_stream.
  - repeat constructor; vm_compute; congruence.
  - vm_compute. congruence.
  - vm_compute. congruence.
Defined.

(** ** The dispatcher on the game's blocks and on unknown codes *)

Section DispatcherFurther.
Context `{Libraries}.


(** X13: the codec of a block is the low six bits of its flags, and a
    value there that is none of the five known codes makes
    [decompress_block] throw, whatever the slice, the declared size, the
    game and the libraries; no decoder is called. *)
Theorem unknown_compression_code (blk : ArchiveBlockInfo.t) (src : list byte)
    (decompressed_size : Z) (mode : GameMode) :
  0 ≤ ArchiveBlockInfo.flags blk →
  5 ≤ ArchiveBlockInfo.flags blk mod 64 →
  decompress_block (ArchiveBlockInfo.get_compression blk) src
    decompressed_size mode
  = Logged [] (Raise Unknown_compression_type).
Proof.
  intros Hflags Hcode. unfold ArchiveBlockInfo.get_compression.
  change FLAG_COMPRESSION_MASK with (Z.ones 6).
  rewrite Z.land_ones by lia. change (2 ^ 6) with 64.
  unfold CompressionType.of_Z.
  repeat (rewrite decide_False by lia). done.
Qed.

(** The game is looked at under the LZHAM code only. *)
Lemma decompress_block_mode (type : CompressionType.t) (src : list byte)
    (decompressed_size : Z) (mode mode' : GameMode) :
  type ≠ CompressionType.Lzham →
  decompress_block type src decompressed_size mode
  = decompress_block type src decompressed_size mode'.
Proof. intros Htype. by destruct type. Qed.

End DispatcherFurther.


Lemma unknown_compression_code_witness :
  decompress_block (H := stored_libraries)
    (ArchiveBlockInfo.get_compression (ArchiveBlockInfo.Build 3 3 0x45))
    (bs [1; 2; 3]) 3 Standard
  = Logged [] (Raise Unknown_compression_type).
Proof.
  apply (@unknown_compression_code stored_libraries); vm_compute; congruence.
Defined.

(** ** The container on stored blocks *)

Section ContainerFurther.
Context `{Libraries}.

Lemma read_bundle_value (raw_file : list byte) (b : bundle) :
  value (read_bundle raw_file) = Ok b → read_bundle raw_file = Logged [] (Ok b).
Proof.
  intros Hb. by rewrite <- (logged_eta (read_bundle raw_file)),
    read_bundle_stderr, Hb.
Qed.

Lemma process_file_rewrite (raw_file : list byte) (game_mode : GameMode)
    (b : bundle) :
  read_bundle raw_file = Logged [] (Ok b) →
  process_file raw_file game_mode = rewrite_bundle game_mode raw_file b.
Proof.
  intros Hb. unfold process_file. rewrite Hb. apply (lift_Ok_bind b).
Qed.

Lemma rewrite_bundle_start (game_mode : GameMode) (raw_file : list byte)
    (b : bundle) :
  rewrite_bundle game_mode raw_file b
  = '(all_decompressed_data, new_blocks) ←
      decompress_blocks game_mode raw_file (blocks b) (data_start b) [] [];
    mret (write_bundle (version b) (unity_ver b) (unity_rev b)
            (build_block_info new_blocks (nodes b)) all_decompressed_data).
Proof.
  unfold rewrite_bundle, data_start.
  destruct (decide (Z.land (flags b) FLAG_BLOCK_INFO_NEEDS_ALIGNMENT ≠ 0)).
  - rewrite reader_align_16. by rewrite lift_Ok_bind.
  - by rewrite lift_Ok_bind.
Qed.

(** Blocks stored as they are, all inside the file. *)
Lemma decompress_blocks_stored (game_mode : GameMode) (raw_file : list byte)
    (bl : list ArchiveBlockInfo.t) :
  ∀ (pos : nat) (all : list byte) (nb : list ArchiveBlockInfo.t),
    Forall (λ blk, ArchiveBlockInfo.get_compression blk = CompressionType.None)
      bl →
    Forall block_wf bl →
    (pos + payload_size bl ≤ length raw_file)%nat →
    decompress_blocks game_mode raw_file bl pos all nb
    = Logged []
        (Ok (all ++ take (payload_size bl) (drop pos raw_file),
             nb ++ map stored_descriptor bl)).
Proof.
  induction bl as [|blk bl IH]; intros pos all nb Hnone Hwf Hfit.
  - simpl. by rewrite take_0, !app_nil_r.
  - inversion Hnone as [|? ? Hblk Hnone']; subst.
    inversion Hwf as [|? ? (_ & Hcs & _) Hwf']; subst.
    cbn [decompress_blocks payload_size foldr] in *.
    fold (payload_size bl) in *.
    set (n := Z.to_nat (ArchiveBlockInfo.compressed_size blk)) in *.
    unfold get_span. rewrite decide_False by lia.
    rewrite lift_Ok_bind. rewrite Hblk.
    change (decompress_block CompressionType.None ?s ?u game_mode)
      with (lift (Ok s)).
    rewrite lift_Ok_bind.
    rewrite IH by (done || lia).
    rewrite length_take_le by (rewrite length_drop; lia).
    unfold to_uint32, to_unsigned. rewrite Z.mod_small by lia.
    rewrite <- (drop_drop raw_file n pos), <- !app_assoc, take_take_drop.
    unfold n. rewrite Z2Nat.id by lia. done.
Qed.



Lemma decompress_blocks_mode (raw_file : list byte)
    (bl : list ArchiveBlockInfo.t) (mode mode' : GameMode) :
  ∀ (pos : nat) (all : list byte) (nb : list ArchiveBlockInfo.t),
    Forall (λ blk, ArchiveBlockInfo.get_compression blk ≠ CompressionType.Lzham)
      bl →
    decompress_blocks mode raw_file bl pos all nb
    = decompress_blocks mode' raw_file bl pos all nb.
Proof.
  induction bl as [|blk bl IH]; intros pos all nb Hbl; [done |].
  inversion Hbl as [|? ? Hblk Hbl']; subst.
  cbn [decompress_blocks].
  destruct (get_span _ raw_file pos) as [[compressed_bytes pos']|e]; [|done].
  rewrite !lift_Ok_bind.
  rewrite (decompress_block_mode _ _ _ mode mode' Hblk).
  destruct (decompress_block _ compressed_bytes _ mode') as [l [raw|e]];
    [|done].
  unfold mbind, logged_bind. cbn [value stderr]. by rewrite IH.
Qed.

(** X15: the game only matters for blocks under the LZHAM code: when
    the table of the input names no such block, the conversion for
    Arknights is the conversion for the standard game, output, log and
    failure alike. *)
Theorem game_mode_only_for_lzham (raw_file : list byte) :
  (∀ b : bundle,
      value (read_bundle raw_file) = Ok b →
      Forall (λ blk, ArchiveBlockInfo.get_compression blk
                     ≠ CompressionType.Lzham) (blocks b)) →
  process_file raw_file Arknights = process_file raw_file Standard.
Proof.
  intros Hbl. unfold process_file.
  destruct (read_bundle raw_file) as [l [b|e]] eqn:Hb; [|done].
  specialize (Hbl b eq_refl).
  unfold mbind, logged_bind. cbn [value stderr].
  unfold rewrite_bundle.
  destruct (if decide (Z.land (flags b) FLAG_BLOCK_INFO_NEEDS_ALIGNMENT ≠ 0)
            then reader_align 16 (reader_pos b) else Ok (reader_pos b))
    as [pos|e]; [|done].
  rewrite !lift_Ok_bind.
  by rewrite (decompress_blocks_mode _ _ Arknights Standard).
Qed.

Lemma payload_size_new_blocks (raws : list (list byte)) :
  Z.of_nat (length (concat raws)) < 2 ^ 32 →
  payload_size (map new_block raws) = length (concat raws).
Proof.
  induction raws as [|raw raws IH]; [done |].
  cbn [map payload_size foldr concat]. fold (payload_size (map new_block raws)).
  rewrite length_app. intros Hlt.
  rewrite IH by lia. cbn [new_block ArchiveBlockInfo.compressed_size].
  unfold to_uint32, to_unsigned. rewrite Z.mod_small by lia.
  by rewrite Nat2Z.id.
Qed.

(** X16: converting an output of the tool again gives the same file.
    Whatever the input, the game and the log of the first conversion, an
    output of less than 4 GiB is a bundle whose conversion, for either
    game, is that output byte for byte, with nothing logged. *)
Theorem process_file_idempotent (raw_file : list byte)
    (game_mode game_mode' : GameMode) (log : list warning) (out : list byte) :
  process_file raw_file game_mode = Logged log (Ok out) →
  Z.of_nat (length out) < 2 ^ 32 →
  process_file out game_mode' = Logged [] (Ok out).
Proof.
  intros Hrun Hsmall.
  apply process_file_Ok in Hrun as (b & raws & l & Hb & Hraws & Hout).
  pose proof (read_bundle_Ok _ _ _ Hb)
    as (Hv & Hver & Hrev & _ & Hnwf & Hnb & Hnn & _).
  apply Forall2_length in Hraws.
  set (nb := map new_block raws) in *.
  set (blob := build_block_info nb (nodes b)) in *.
  set (payload := concat raws) in *.
  assert (Z.of_nat (length blob) < 2 ^ 32
          ∧ Z.of_nat (length payload) < 2 ^ 32) as [Hblob Hpayload].
  { pose proof (write_bundle_bytes (version b) (unity_ver b) (unity_rev b)
                  blob payload) as Hbytes.
    cbv zeta in Hbytes. rewrite <- Hout in Hbytes.
    apply (f_equal length) in Hbytes. rewrite !length_app in Hbytes. lia. }
  assert (Forall block_wf nb) as Hbwf
    by (apply Forall_map, Forall_forall; intros; apply new_block_wf).
  destruct (read_bundle_write_bundle (version b) (unity_ver b) (unity_rev b)
              nb (nodes b) payload Hv Hver Hrev Hbwf Hnwf)
    as (pos & Hread & Hat);
    [unfold nb; rewrite length_map; lia | done | done |].
  fold blob in Hread, Hat. rewrite <- Hout in Hread, Hat.
  rewrite (process_file_rewrite _ _ _ Hread), rewrite_bundle_start.
  unfold data_start. cbn [flags reader_pos blocks nodes version unity_ver
                           unity_rev].
  rewrite decide_False by (vm_compute; congruence).
  pose proof (at_pos_length _ _ _ Hat) as Hlen.
  pose proof (payload_size_new_blocks raws Hpayload) as Hsize.
  fold nb payload in Hsize.
  rewrite decompress_blocks_stored;
    [| by apply Forall_map, Forall_forall | done | lia].
  match goal with
  | |- Logged [] (Ok ?a) ≫= ?f = _ => change (lift (Ok a) ≫= f = Logged [] (Ok out))
  end.
  rewrite lift_Ok_bind. cbn [app].
  destruct Hat as [_ ->]. rewrite Hsize, firstn_all.
  replace (map stored_descriptor nb) with nb
    by (unfold nb; rewrite <- list_fmap_compose; done).
  fold blob. by rewrite <- Hout.
Qed.

Lemma read_be_le (n : nat) (data : list byte) (pos : nat) (r : Z * nat) :
  read_be n data pos = Ok r → (pos + n ≤ length data)%nat.
Proof. unfold read_be. case_decide; [discriminate | lia]. Qed.

(** X17: a file whose first string is not the signature is refused
    with the format error, but only once the version and the two strings
    behind it were read: when fewer than 4 bytes follow the first zero
    byte, or there is no zero byte, the error is [out_of_range]. *)
Theorem wrong_signature (raw_file : list byte) (game_mode : GameMode) :
  until_zero raw_file ≠ UnityFS →
  process_file raw_file game_mode
  = Logged []
      (Raise (if decide (length (until_zero raw_file) + 5 ≤ length raw_file)%nat
              then Only_UnityFS_format_supported else out_of_range)).
Proof.
  intros Hsig.
  set (p0 := (length (until_zero raw_file) + 1)%nat).
  assert (read_string raw_file 0 = Ok (until_zero raw_file, p0)) as Hstr.
  { unfold read_string. rewrite read_string_loop_until_zero by lia.
    rewrite drop_0, Nat.add_0_l, outcome_bind_Ok_l. cbv beta iota.
    unfold p0. do 2 f_equal. lia. }
  unfold process_file, read_bundle. rewrite Hstr, lift_Ok_bind.
  destruct (read_be 4 raw_file p0) as [[v p1]|e] eqn:Hv.
  2: { unfold read_be in Hv. case_decide; [|discriminate].
       injection Hv as <-. rewrite decide_False by lia. done. }
  apply read_be_le in Hv. rewrite decide_True by lia.
  rewrite lift_Ok_bind.
  destruct (read_string_total raw_file p1) as (s1 & p1' & ->).
  rewrite lift_Ok_bind.
  destruct (read_string_total raw_file p1') as (s2 & p2 & ->).
  rewrite lift_Ok_bind.
  rewrite decide_True by done. done.
Qed.

Lemma until_zero_app (l extra : list byte) :
  (length (until_zero l) < length l)%nat →
  until_zero (l ++ extra) = until_zero l.
Proof.
  induction l as [|b l IH]; simpl; [lia |].
  destruct (decide (byte.unsigned b ≠ 0)); [|done].
  simpl. intros Hlt. rewrite IH by lia. done.
Qed.

Lemma read_be_app (n : nat) (data extra : list byte) (pos : nat)
    (r : Z * nat) :
  read_be n data pos = Ok r → read_be n (data ++ extra) pos = Ok r.
Proof.
  unfold read_be. case_decide; [discriminate |]. intros [= <-].
  rewrite decide_False by (rewrite length_app; lia).
  rewrite drop_app_le by lia.
  rewrite take_app_le by (rewrite length_drop; lia). done.
Qed.

Lemma read_be_signed_app (n : nat) (data extra : list byte) (pos : nat)
    (r : Z * nat) :
  read_be_signed n data pos = Ok r →
  read_be_signed n (data ++ extra) pos = Ok r.
Proof.
  unfold read_be_signed. intros Hr.
  apply outcome_bind_Ok in Hr as ([v p] & Hv & Hr).
  by rewrite (read_be_app _ _ _ _ _ Hv).
Qed.

Lemma get_span_app (n : nat) (data extra : list byte) (pos : nat)
    (r : list byte * nat) :
  get_span n data pos = Ok r → get_span n (data ++ extra) pos = Ok r.
Proof.
  unfold get_span. case_decide; [discriminate |]. intros [= <-].
  rewrite decide_False by (rewrite length_app; lia).
  rewrite drop_app_le by lia.
  rewrite take_app_le by (rewrite length_drop; lia). done.
Qed.

Lemma read_string_app (data extra : list byte) (pos pos' : nat)
    (s : list byte) :
  read_string data pos = Ok (s, pos') →
  (pos' ≤ length data)%nat →
  read_string (data ++ extra) pos = Ok (s, pos') ∧ (pos < pos')%nat.
Proof.
  unfold read_string. rewrite !read_string_loop_until_zero by lia.
  rewrite !outcome_bind_Ok_l. cbv beta iota. intros [= <- <-] Hle.
  rewrite drop_app_le by lia.
  rewrite until_zero_app by (rewrite length_drop; lia).
  split; [done | lia].
Qed.

Lemma read_bundle_app (raw_file extra : list byte) (log : list warning)
    (b : bundle) :
  read_bundle raw_file = Logged log (Ok b) →
  read_bundle (raw_file ++ extra) = Logged log (Ok b).
Proof.
  unfold read_bundle. intros Hrun.
  apply lift_bind_Ok in Hrun as ([signature p1] & Hsig & Hrun).
  apply lift_bind_Ok in Hrun as ([v p2] & Hv & Hrun).
  apply lift_bind_Ok in Hrun as ([ver p3] & Hver & Hrun).
  apply lift_bind_Ok in Hrun as ([rev p4] & Hrev & Hrun).
  destruct (decide (signature ≠ UnityFS)); [discriminate |].
  apply lift_bind_Ok in Hrun as ([bsz p5] & Hbsz & Hrun).
  apply lift_bind_Ok in Hrun as ([cbs p6] & Hcbs & Hrun).
  apply lift_bind_Ok in Hrun as ([ubs p7] & Hubs & Hrun).
  apply lift_bind_Ok in Hrun as ([fl p8] & Hfl & Hrun).
  apply lift_bind_Ok in Hrun as (p9 & Hal & Hrun).
  apply lift_bind_Ok in Hrun as ([rbi p10] & Hspan & Hrun).
  pose proof (read_be_le _ _ _ _ Hv) as Hle1.
  assert (p4 + 8 ≤ length raw_file)%nat as Hle4.
  { unfold read_be_signed in Hbsz.
    apply outcome_bind_Ok in Hbsz as ([? ?] & Hbsz & _).
    by apply read_be_le in Hbsz. }
  destruct (read_string_app _ extra _ _ _ Hrev ltac:(lia)) as [Hrev' Hlt4].
  destruct (read_string_app _ extra _ _ _ Hver ltac:(lia)) as [Hver' _].
  destruct (read_string_app _ extra _ _ _ Hsig ltac:(lia)) as [Hsig' _].
  rewrite Hsig', lift_Ok_bind.
  rewrite (read_be_app _ _ extra _ _ Hv), lift_Ok_bind.
  rewrite Hver', lift_Ok_bind. rewrite Hrev', lift_Ok_bind.
  rewrite decide_False by done.
  rewrite (read_be_signed_app _ _ extra _ _ Hbsz), lift_Ok_bind.
  rewrite (read_be_app _ _ extra _ _ Hcbs), lift_Ok_bind.
  rewrite (read_be_app _ _ extra _ _ Hubs), lift_Ok_bind.
  rewrite (read_be_app _ _ extra _ _ Hfl), lift_Ok_bind.
  rewrite Hal, lift_Ok_bind.
  rewrite (get_span_app _ _ extra _ _ Hspan), lift_Ok_bind.
  exact Hrun.
Qed.

Lemma decompress_blocks_app (game_mode : GameMode)
    (raw_file extra : list byte) (bl : list ArchiveBlockInfo.t) :
  ∀ (pos : nat) (all : list byte) (nb : list ArchiveBlockInfo.t)
    (log : list warning) (r : list byte * list ArchiveBlockInfo.t),
    decompress_blocks game_mode raw_file bl pos all nb = Logged log (Ok r) →
    decompress_blocks game_mode (raw_file ++ extra) bl pos all nb
    = Logged log (Ok r).
Proof.
  induction bl as [|blk bl IH]; intros pos all nb log r Hrun; [done |].
  cbn [decompress_blocks] in *.
  apply lift_bind_Ok in Hrun as ([compressed_bytes pos'] & Hspan & Hrun).
  rewrite (get_span_app _ _ extra _ _ Hspan), lift_Ok_bind.
  apply logged_bind_Ok in Hrun as (raw & l1 & l2 & Hraw & Hrun & ->).
  rewrite Hraw. apply IH in Hrun.
  unfold mbind, logged_bind. cbn [value stderr]. by rewrite Hrun.
Qed.

(** X18: what follows the last block in the input is not looked at: a
    conversion that succeeds gives the same output and the same log when
    any bytes are appended to the input. *)
Theorem trailing_bytes_ignored (raw_file extra : list byte)
    (game_mode : GameMode) (log : list warning) (out : list byte) :
  process_file raw_file game_mode = Logged log (Ok out) →
  process_file (raw_file ++ extra) game_mode = Logged log (Ok out).
Proof.
  unfold process_file. intros Hrun.
  apply logged_bind_Ok in Hrun as (b & l1 & l2 & Hb & Hrun & ->).
  rewrite (read_bundle_app _ extra _ _ Hb).
  unfold rewrite_bundle in *.
  apply lift_bind_Ok in Hrun as (pos & Hpos & Hrun).
  apply logged_bind_Ok in Hrun as ([all nb] & la & lb & Hdb & Hrun & ->).
  apply (decompress_blocks_app _ _ extra) in Hdb.
  unfold mbind at 1, logged_bind at 1. cbn [value stderr].
  rewrite Hpos, lift_Ok_bind, Hdb.
  unfold mbind, logged_bind. cbn [value stderr].
  by rewrite Hrun.
Qed.

(** ** What is logged *)

Lemma decompress_block_stderr_le (type : CompressionType.t) (src : list byte)
    (decompressed_size : Z) (mode : GameMode) :
  (length (stderr (decompress_block type src decompressed_size mode)) ≤ 1)%nat.
Proof.
  destruct mode; [rewrite decompress_block_Standard_stderr; simpl; lia |].
  destruct type;
    try (rewrite (decompress_block_mode _ _ _ Arknights Standard)
           by discriminate;
         rewrite decompress_block_Standard_stderr; simpl; lia).
  cbn [decompress_block]. unfold decompress_lzak.
  destruct src as [|b0 src]; [simpl; lia |].
  destruct (lzak_rewrite _ _) as [st|e]; [|simpl; lia].
  rewrite lift_Ok_bind.
  destruct (vector_alloc _) as [dest|e]; [|simpl; lia].
  rewrite lift_Ok_bind.
  destruct (LZ4_decompress_safe _ _ _) as [result out].
  repeat case_decide; simpl; lia.
Qed.

Lemma decompress_blocks_stderr_le (game_mode : GameMode) (raw_file : list byte)
    (bl : list ArchiveBlockInfo.t) :
  ∀ (pos : nat) (all : list byte) (nb : list ArchiveBlockInfo.t),
    (length (stderr (decompress_blocks game_mode raw_file bl pos all nb))
     ≤ length bl)%nat.
Proof.
  induction bl as [|blk bl IH]; intros pos all nb; [simpl; lia |].
  cbn [decompress_blocks].
  destruct (get_span _ raw_file pos) as [[compressed_bytes pos']|e];
    [|simpl; lia].
  rewrite lift_Ok_bind.
  pose proof (decompress_block_stderr_le
                (ArchiveBlockInfo.get_compression blk) compressed_bytes
                (ArchiveBlockInfo.uncompressed_size blk) game_mode) as Hone.
  destruct (decompress_block _ compressed_bytes _ game_mode) as [l [raw|e]];
    unfold mbind, logged_bind; cbn [value stderr] in *; [|simpl; lia].
  rewrite length_app.
  match goal with
  | |- context [decompress_blocks ?m ?r bl ?p ?a ?n] =>
      pose proof (IH p a n)
  end.
  simpl. lia.
Qed.

Lemma decompress_blocks_Standard_stderr (raw_file : list byte)
    (bl : list ArchiveBlockInfo.t) :
  ∀ (pos : nat) (all : list byte) (nb : list ArchiveBlockInfo.t),
    stderr (decompress_blocks Standard raw_file bl pos all nb) = [].
Proof.
  induction bl as [|blk bl IH]; intros pos all nb; [done |].
  cbn [decompress_blocks].
  apply stderr_bind; [done |]. intros [compressed_bytes pos'].
  apply stderr_bind; [apply decompress_block_Standard_stderr |].
  intros raw. apply IH.
Qed.

(** X19: warnings come from the blocks of a conversion for Arknights
    only: the conversion for the standard game logs nothing, whatever
    the input and the libraries, and the conversion for Arknights logs
    at most one line for each block of the table that was read. *)
Theorem warnings_only_for_arknights (raw_file : list byte) :
  stderr (process_file raw_file Standard) = []
  ∧ (∀ b : bundle,
        value (read_bundle raw_file) = Ok b →
        (length (stderr (process_file raw_file Arknights))
         ≤ length (blocks b))%nat).
Proof.
  split.
  - unfold process_file.
    apply stderr_bind; [apply read_bundle_stderr |]. intros b.
    unfold rewrite_bundle.
    apply stderr_bind; [done |]. intros pos.
    apply stderr_bind; [apply decompress_blocks_Standard_stderr |].
    by intros [all nb].
  - intros b Hb. apply read_bundle_value in Hb.
    rewrite (process_file_rewrite _ _ _ Hb), rewrite_bundle_start.
    pose proof (decompress_blocks_stderr_le Arknights raw_file (blocks b)
                  (data_start b) [] []) as Hle.
    destruct (decompress_blocks Arknights raw_file (blocks b) (data_start b)
                [] []) as [l [[all nb]|e]];
      unfold mbind, logged_bind; cbn [value stderr] in *;
      rewrite ?length_app; simpl; lia.
Qed.

(** ** The start of the header *)

Lemma until_zero_take (l : list byte) :
  (length (until_zero l) < length l)%nat →
  take (length (until_zero l) + 1) l = until_zero l ++ [Byte.x00].
Proof.
  induction l as [|b l IH]; simpl; [lia |].
  destruct (decide (byte.unsigned b ≠ 0)) as [|Hz]; simpl.
  - intros Hlt. by rewrite IH by lia.
  - intros _. rewrite take_0. f_equal.
    rewrite <- (byte.of_Z_unsigned b).
    by replace (byte.unsigned b) with 0 by lia.
Qed.

Lemma read_string_take (data : list byte) (pos pos' : nat) (s : list byte) :
  read_string data pos = Ok (s, pos') →
  (pos' ≤ length data)%nat →
  pos' = (pos + length (s ++ [Byte.x00]))%nat
  ∧ take (length (s ++ [Byte.x00])) (drop pos data) = s ++ [Byte.x00].
Proof.
  unfold read_string. rewrite read_string_loop_until_zero by lia.
  rewrite outcome_bind_Ok_l. cbv beta iota. intros [= <- <-] Hle.
  rewrite length_app. simpl. split; [lia |].
  apply until_zero_take. rewrite length_drop. lia.
Qed.

Lemma read_be_take (n : nat) (data : list byte) (pos pos' : nat) (v : Z) :
  read_be n data pos = Ok (v, pos') →
  pos' = (pos + n)%nat ∧ take n (drop pos data) = be n v.
Proof.
  unfold read_be. case_decide; [discriminate |]. intros [= <- <-].
  split; [done |].
  set (l := take n (drop pos data)).
  assert (length l = n) as Hl
    by (unfold l; rewrite length_take, length_drop; lia).
  unfold be. rewrite le_split_swap_endian. unfold be.
  rewrite rev_involutive, <- Hl. symmetry. apply split_le_combine.
Qed.

Lemma read_bundle_header (raw_file : list byte) (log : list warning)
    (b : bundle) :
  read_bundle raw_file = Logged log (Ok b) →
  let hs := header_start (version b) (unity_ver b) (unity_rev b) in
  take (length hs) raw_file = hs.
Proof.
  unfold read_bundle. intros Hrun.
  apply lift_bind_Ok in Hrun as ([signature p1] & Hsig & Hrun).
  apply lift_bind_Ok in Hrun as ([v p2] & Hv & Hrun).
  apply lift_bind_Ok in Hrun as ([ver p3] & Hver & Hrun).
  apply lift_bind_Ok in Hrun as ([rev p4] & Hrev & Hrun).
  destruct (decide (signature ≠ UnityFS)) as [|Heq]; [discriminate |].
  assert (signature = UnityFS) as -> by (by destruct (decide (signature = UnityFS))).
  apply lift_bind_Ok in Hrun as ([bsz p5] & Hbsz & Hrun).
  apply lift_bind_Ok in Hrun as ([csz p6] & _ & Hrun).
  apply lift_bind_Ok in Hrun as ([usz p7] & _ & Hrun).
  apply lift_bind_Ok in Hrun as ([fl p8] & _ & Hrun).
  apply lift_bind_Ok in Hrun as (p9 & _ & Hrun).
  apply lift_bind_Ok in Hrun as ([raw_block_info p10] & _ & Hrun).
  apply logged_bind_Ok in Hrun as (block_info_data & l1 & l2 & _ & Hrun & _).
  apply lift_bind_Ok in Hrun as ([bl nl] & _ & Hrun).
  injection Hrun as _ <-. cbn [version unity_ver unity_rev].
  pose proof (read_be_le _ _ _ _ Hv) as Hle1.
  assert (p4 + 8 ≤ length raw_file)%nat as Hle4.
  { unfold read_be_signed in Hbsz.
    apply outcome_bind_Ok in Hbsz as ([? ?] & Hbsz & _).
    by apply read_be_le in Hbsz. }
  destruct (read_string_app _ [] _ _ _ Hrev ltac:(lia)) as [_ Hlt4].
  apply read_string_take in Hsig as [-> Hsig]; [|lia].
  apply read_be_take in Hv as [-> Hv].
  apply read_string_take in Hver as [-> Hver]; [|lia].
  apply read_string_take in Hrev as [-> Hrev]; [|lia].
  rewrite drop_0 in Hsig. rewrite !Nat.add_0_l in *.
  set (A := UnityFS ++ [Byte.x00]) in *.
  set (C := ver ++ [Byte.x00]) in *.
  set (D := rev ++ [Byte.x00]) in *.
  assert (length (header_start v ver rev)
          = (length A + 4 + length C + length D)%nat) as ->.
  { unfold header_start. fold A C D. rewrite !length_app, length_be. lia. }
  rewrite <- !take_take_drop. rewrite Hsig, Hv, Hver, Hrev.
  unfold header_start. fold A C D. by rewrite <- !app_assoc.
Qed.

(** X20: the output starts as the input does: the bytes of the input
    up to its total-size field, the signature, the version and the two
    version strings with their zero bytes, are the first bytes of the
    output, unchanged. *)
Theorem header_start_preserved (raw_file : list byte) (game_mode : GameMode)
    (log : list warning) (out : list byte) :
  process_file raw_file game_mode = Logged log (Ok out) →
  ∃ b : bundle,
    value (read_bundle raw_file) = Ok b
    ∧ let hs := header_start (version b) (unity_ver b) (unity_rev b) in
      take (length hs) raw_file = hs
      ∧ take (length hs) out = hs
      ∧ take (length hs) out = take (length hs) raw_file.
Proof.
  intros Hrun.
  apply process_file_Ok in Hrun as (b & raws & l & Hb & _ & Hout).
  exists b. split; [by rewrite Hb |].
  pose proof (read_bundle_header _ _ _ Hb) as Hin. cbv zeta in *.
  assert (take (length (header_start (version b) (unity_ver b) (unity_rev b)))
            out
          = header_start (version b) (unity_ver b) (unity_rev b)) as Hhs.
  { rewrite Hout, write_bundle_bytes. cbv zeta. by rewrite take_app_length. }
  by rewrite Hin, Hhs.
Qed.

End ContainerFurther.

(** ** The file entries, from the input to the output *)

Lemma until_zero_take_snoc (l : list byte) :
  take (length (until_zero l) + 1) (l ++ [Byte.x00])
  = until_zero l ++ [Byte.x00].
Proof.
  induction l as [|b l IH]; simpl; [done |].
  destruct (decide (byte.unsigned b ≠ 0)) as [|Hz]; simpl.
  - by rewrite IH.
  - rewrite take_0. f_equal.
    rewrite <- (byte.of_Z_unsigned b).
    by replace (byte.unsigned b) with 0 by lia.
Qed.

(** What a read takes from the buffer, as a piece of what is left at the
    cursor. *)
Lemma take_drop_piece (n pos : nat) (data x : list byte) :
  take n (drop pos data) = x →
  drop pos data = x ++ drop (pos + n) data.
Proof.
  intros <-. by rewrite <- (drop_drop data n pos), take_drop.
Qed.

Lemma read_be_drop (n : nat) (data extra : list byte) (pos pos' : nat) (v : Z) :
  read_be n data pos = Ok (v, pos') →
  drop pos (data ++ extra) = be n v ++ drop pos' (data ++ extra).
Proof.
  intros Hr. pose proof (read_be_le _ _ _ _ Hr) as Hle.
  apply read_be_take in Hr as [-> Htake].
  apply take_drop_piece. rewrite drop_app_le by lia.
  by rewrite take_app_le by (rewrite length_drop; lia).
Qed.

Lemma read_be_signed_drop (data extra : list byte) (pos pos' : nat) (v : Z) :
  read_be_signed 8 data pos = Ok (v, pos') →
  (pos' ≤ length data)%nat
  ∧ drop pos (data ++ extra)
    = be 8 (to_unsigned 64 v) ++ drop pos' (data ++ extra)
  ∧ be 8 (to_unsigned 64 v) = be 8 v.
Proof.
  unfold read_be_signed. intros Hr.
  apply outcome_bind_Ok in Hr as ([val p] & Hval & Hr).
  injection Hr as <- <-.
  pose proof (read_be_le _ _ _ _ Hval) as Hle.
  pose proof (read_be_Ok _ _ _ _ _ Hval) as [_ ->].
  change (8 * Z.of_nat 8) with 64.
  assert (be 8 (to_unsigned 64 (to_signed 64 val)) = be 8 val) as Hbe.
  { rewrite to_unsigned_to_signed by lia. apply (be_mod 8 val). }
  split; [lia |]. split.
  - rewrite Hbe. by apply read_be_drop.
  - by rewrite Hbe, be_to_signed.
Qed.

Lemma read_bytes_drop (n : nat) (data extra : list byte) (pos pos' : nat)
    (x : list byte) :
  read_bytes n data pos = Ok (x, pos') →
  length x = n
  ∧ drop pos (data ++ extra) = x ++ drop pos' (data ++ extra).
Proof.
  unfold read_bytes. case_decide; [discriminate |]. intros [= <- <-].
  split; [rewrite length_take, length_drop; lia |].
  apply take_drop_piece. rewrite drop_app_le by lia.
  by rewrite take_app_le by (rewrite length_drop; lia).
Qed.

Lemma get_span_drop (n : nat) (data : list byte) (pos pos' : nat)
    (x : list byte) :
  get_span n data pos = Ok (x, pos') →
  length x = n ∧ drop pos data = x ++ drop pos' data.
Proof.
  unfold get_span. case_decide; [discriminate |]. intros [= <- <-].
  split; [rewrite length_take, length_drop; lia |].
  by apply take_drop_piece.
Qed.

(** A string of the table: its zero byte is in the table or is the end
    of the table. *)
Lemma read_string_drop (data : list byte) (pos pos' : nat) (s : list byte) :
  read_string data pos = Ok (s, pos') →
  (pos ≤ length data)%nat →
  drop pos (data ++ [Byte.x00])
  = (s ++ [Byte.x00]) ++ drop pos' (data ++ [Byte.x00]).
Proof.
  unfold read_string. rewrite read_string_loop_until_zero by lia.
  rewrite outcome_bind_Ok_l. cbv beta iota. intros [= <- <-] Hle.
  replace (S (pos + length (until_zero (drop pos data))))
    with (pos + (length (until_zero (drop pos data)) + 1))%nat by lia.
  apply take_drop_piece. rewrite drop_app_le by lia.
  apply until_zero_take_snoc.
Qed.

(** A string of the header: another read succeeded behind it, so its
    zero byte is in the file. *)
Lemma read_string_piece (data : list byte) (pos pos' : nat) (s : list byte) :
  read_string data pos = Ok (s, pos') →
  (pos' ≤ length data)%nat →
  pos' = (pos + length (s ++ [Byte.x00]))%nat
  ∧ drop pos data = (s ++ [Byte.x00]) ++ drop pos' data.
Proof.
  intros Hr Hle. apply read_string_take in Hr as [-> Htake]; [|done].
  split; [done |]. by apply take_drop_piece.
Qed.

Lemma read_blocks_drop (count : nat) :
  ∀ (data extra : list byte) (pos : nat) (bl : list ArchiveBlockInfo.t)
    (pos' : nat),
    read_blocks count data pos = Ok (bl, pos') →
    drop pos (data ++ extra)
    = concat (map block_bytes bl) ++ drop pos' (data ++ extra).
Proof.
  induction count as [|count IH]; intros data extra pos bl pos' Hrun;
    simpl in Hrun.
  - by injection Hrun as <- <-.
  - apply outcome_bind_Ok in Hrun as ([u p1] & Hu & Hrun).
    apply outcome_bind_Ok in Hrun as ([c p2] & Hc & Hrun).
    apply outcome_bind_Ok in Hrun as ([f p3] & Hf & Hrun).
    apply outcome_bind_Ok in Hrun as ([bl' p4] & Hbl & Hrun).
    injection Hrun as <- <-.
    rewrite (read_be_drop _ _ extra _ _ _ Hu), (read_be_drop _ _ extra _ _ _ Hc),
      (read_be_drop _ _ extra _ _ _ Hf), (IH _ extra _ _ _ Hbl).
    cbn [map concat]. unfold block_bytes at 2.
    cbn [ArchiveBlockInfo.uncompressed_size ArchiveBlockInfo.compressed_size
         ArchiveBlockInfo.flags].
    by rewrite <- !app_assoc.
Qed.

Lemma read_nodes_drop (count : nat) :
  ∀ (data : list byte) (pos : nat) (nl : list ArchiveNode.t) (pos' : nat),
    read_nodes count data pos = Ok (nl, pos') →
    drop pos (data ++ [Byte.x00])
    = concat (map node_bytes nl) ++ drop pos' (data ++ [Byte.x00]).
Proof.
  induction count as [|count IH]; intros data pos nl pos' Hrun;
    simpl in Hrun.
  - by injection Hrun as <- <-.
  - apply outcome_bind_Ok in Hrun as ([o p1] & Ho & Hrun).
    apply outcome_bind_Ok in Hrun as ([sz p2] & Hsz & Hrun).
    apply outcome_bind_Ok in Hrun as ([st p3] & Hst & Hrun).
    apply outcome_bind_Ok in Hrun as ([p p4] & Hp & Hrun).
    apply outcome_bind_Ok in Hrun as ([nl' p5] & Hnl & Hrun).
    injection Hrun as <- <-.
    pose proof (read_be_le _ _ _ _ Hst) as Hle3.
    pose proof (read_be_Ok _ _ _ _ _ Hst) as [_ ->].
    destruct (read_be_signed_drop _ [Byte.x00] _ _ _ Ho) as (_ & -> & _).
    destruct (read_be_signed_drop _ [Byte.x00] _ _ _ Hsz) as (_ & -> & _).
    rewrite (read_be_drop _ _ [Byte.x00] _ _ _ Hst).
    rewrite (read_string_drop _ _ _ _ Hp) by lia.
    rewrite (IH _ _ _ _ Hnl).
    cbn [map concat]. unfold node_bytes at 2.
    cbn [ArchiveNode.offset ArchiveNode.size ArchiveNode.status
         ArchiveNode.path].
    by rewrite <- !app_assoc.
Qed.

(** The table that was read, on the wire: the 16 bytes of the hash, the
    count and the descriptors of the blocks, the count of the nodes and
    the nodes, each with its offset, size, status word and path; the
    zero byte that closes the last path may be the end of the table. *)
Lemma read_block_info_bytes (block_info_data : list byte)
    (bl : list ArchiveBlockInfo.t) (nl : list ArchiveNode.t) :
  read_block_info block_info_data = Ok (bl, nl) →
  ∃ hash tail : list byte,
    length hash = 16%nat
    ∧ block_info_data ++ [Byte.x00]
      = hash
        ++ be 4 (Z.of_nat (length bl))
        ++ concat (map block_bytes bl)
        ++ be 4 (Z.of_nat (length nl))
        ++ concat (map node_bytes nl)
        ++ tail.
Proof.
  unfold read_block_info. intros Hrun.
  apply outcome_bind_Ok in Hrun as ([h p0] & Hh & Hrun).
  apply outcome_bind_Ok in Hrun as ([bc p1] & Hbc & Hrun).
  apply outcome_bind_Ok in Hrun as ([bl' p2] & Hbl & Hrun).
  apply outcome_bind_Ok in Hrun as ([nc p3] & Hnc & Hrun).
  apply outcome_bind_Ok in Hrun as ([nl' p4] & Hnl & Hrun).
  injection Hrun as <- <-.
  apply (read_bytes_drop _ _ [Byte.x00]) in Hh as [Hlen Hh].
  pose proof (read_blocks_Ok _ _ _ _ _ Hbl) as [Hcb _].
  pose proof (read_nodes_Ok _ _ _ _ _ Hnl) as [Hcn _].
  pose proof (read_be_Ok _ _ _ _ _ Hbc) as [Hbc0 _].
  pose proof (read_be_Ok _ _ _ _ _ Hnc) as [Hnc0 _].
  exists h, (drop p4 (block_info_data ++ [Byte.x00])).
  split; [done |].
  rewrite drop_0 in Hh. rewrite Hcb, Hcn, !Z2Nat.id by lia.
  etrans; [exact Hh |]. f_equal.
  etrans; [exact (read_be_drop _ _ [Byte.x00] _ _ _ Hbc) |]. f_equal.
  etrans; [exact (read_blocks_drop _ _ [Byte.x00] _ _ _ Hbl) |]. f_equal.
  etrans; [exact (read_be_drop _ _ [Byte.x00] _ _ _ Hnc) |]. f_equal.
  exact (read_nodes_drop _ _ _ _ _ Hnl).
Qed.

Section FileEntries.
Context `{Libraries}.

(** The input file of a bundle that was read: the header with its
    fields, the padding that [align] steps over, the compressed table,
    whose decompression is the table that was parsed, and the rest. *)
Lemma read_bundle_layout (raw_file : list byte) (log : list warning)
    (b : bundle) :
  read_bundle raw_file = Logged log (Ok b) →
  let hs := header_start (version b) (unity_ver b) (unity_rev b) in
  ∃ pad raw_block_info block_info_data rest : list byte,
    raw_file
    = hs
      ++ be 8 (bundle_size b)
      ++ be 4 (compressed_blocks_info_size b)
      ++ be 4 (uncompressed_blocks_info_size b)
      ++ be 4 (flags b)
      ++ pad ++ raw_block_info ++ rest
    ∧ length pad = header_pad (version b) (length hs + 20)
    ∧ length raw_block_info = Z.to_nat (compressed_blocks_info_size b)
    ∧ decompress_block
        (CompressionType.of_Z (Z.land (flags b) FLAG_COMPRESSION_MASK))
        raw_block_info (uncompressed_blocks_info_size b) Standard
      = Logged log (Ok block_info_data)
    ∧ read_block_info block_info_data = Ok (blocks b, nodes b).
Proof.
  unfold read_bundle. intros Hrun.
  apply lift_bind_Ok in Hrun as ([signature p1] & Hsig & Hrun).
  apply lift_bind_Ok in Hrun as ([v p2] & Hv & Hrun).
  apply lift_bind_Ok in Hrun as ([ver p3] & Hver & Hrun).
  apply lift_bind_Ok in Hrun as ([rev p4] & Hrev & Hrun).
  destruct (decide (signature ≠ UnityFS)) as [|Heq]; [discriminate |].
  assert (signature = UnityFS) as ->
    by (by destruct (decide (signature = UnityFS))).
  apply lift_bind_Ok in Hrun as ([bsz p5] & Hbsz & Hrun).
  apply lift_bind_Ok in Hrun as ([csz p6] & Hcsz & Hrun).
  apply lift_bind_Ok in Hrun as ([usz p7] & Husz & Hrun).
  apply lift_bind_Ok in Hrun as ([fl p8] & Hfl & Hrun).
  apply lift_bind_Ok in Hrun as (p9 & Hal & Hrun).
  apply lift_bind_Ok in Hrun as ([raw_block_info p10] & Hspan & Hrun).
  apply logged_bind_Ok in Hrun as (block_info_data & l1 & l2 & Hdec & Hrun & ->).
  apply lift_bind_Ok in Hrun as ([bl nl] & Hinfo & Hrun).
  injection Hrun as <- <-. rewrite app_nil_r.
  cbn [version unity_ver unity_rev bundle_size compressed_blocks_info_size
       uncompressed_blocks_info_size flags blocks nodes].
  pose proof (read_be_le _ _ _ _ Hv) as Hle1.
  destruct (read_be_signed_drop _ [] _ _ _ Hbsz) as (Hle5 & Hbsz' & Hbe).
  pose proof (read_be_Ok _ _ _ _ _ Hv) as [_ Hp2].
  assert (p5 = p4 + 8)%nat as Hp5.
  { unfold read_be_signed in Hbsz.
    apply outcome_bind_Ok in Hbsz as ([? ?] & Hb' & Hb'').
    injection Hb'' as _ <-. by apply read_be_Ok in Hb' as [_ ->]. }
  destruct (read_string_app _ [] _ _ _ Hrev ltac:(lia)) as [_ Hlt4].
  destruct (read_string_piece _ _ _ _ Hrev ltac:(lia)) as [Hp4 Hrev'].
  destruct (read_string_piece _ _ _ _ Hver ltac:(lia)) as [Hp3 Hver'].
  destruct (read_string_piece _ _ _ _ Hsig ltac:(lia)) as [Hp1 Hsig'].
  pose proof (read_be_drop _ _ [] _ _ _ Hv) as Hv'.
  pose proof (read_be_drop _ _ [] _ _ _ Hcsz) as Hcsz'.
  pose proof (read_be_drop _ _ [] _ _ _ Husz) as Husz'.
  pose proof (read_be_drop _ _ [] _ _ _ Hfl) as Hfl'.
  rewrite !app_nil_r in Hv', Hcsz', Husz', Hfl', Hbsz'.
  apply read_be_Ok in Hcsz as [_ Hp6], Husz as [_ Hp7], Hfl as [_ Hp8].
  pose proof Hspan as Hspan0.
  apply get_span_drop in Hspan as [Hlen Hspan'].
  assert (p10 ≤ length raw_file ∧ p9 ≤ p10)%nat as [Hle10 Hle9].
  { unfold get_span in Hspan0. case_decide; [discriminate |].
    injection Hspan0 as _ <-. lia. }
  set (hs := header_start v ver rev).
  assert (length hs = p4) as Hhs.
  { unfold hs. rewrite length_header_start.
    rewrite Hp4, Hp3, Hp2, Hp1, !length_app. simpl. lia. }
  assert (p9 = p8 + header_pad v p8)%nat as Hp9.
  { unfold header_pad. destruct (decide (7 ≤ v)).
    - rewrite reader_align_16 in Hal. by injection Hal as <-.
    - injection Hal as <-. lia. }
  exists (take (p9 - p8) (drop p8 raw_file)), raw_block_info, block_info_data,
    (drop p10 raw_file).
  split; [|split; [|done]].
  - rewrite <- (drop_0 raw_file) at 1.
    rewrite Hsig', Hv', Hver', Hrev', Hbsz', Hcsz', Husz', Hfl'.
    rewrite <- (take_drop (p9 - p8) (drop p8 raw_file)) at 1.
    rewrite drop_drop. replace (p8 + (p9 - p8))%nat with p9 by lia.
    rewrite Hspan', Hbe. unfold hs, header_start.
    by rewrite <- !app_assoc.
  - rewrite length_take, length_drop, Hhs. 
    replace (p4 + 20)%nat with p8 by lia. lia.
Qed.

(** C5: the new table holds as many file entries as the table of the
    input, and the entries themselves, offset, length, status word and
    path, in the same order.
    - The input: the file is its header, the compressed table and the
      rest; the table, inflated, holds behind the hash and the block
      descriptors the count of the nodes and the nodes on the wire, one
      after the other (the zero byte that closes the last path may be
      the end of the table).
    - The output: the directory part of the new blob is the same count
      and the same bytes, and reading the blob back gives those nodes.
    When the length of the blob fits its 32-bit size field, reading the
    whole output back gives them too. *)
Theorem file_entries_preserved (raw_file : list byte) (game_mode : GameMode)
    (log : list warning) (out : list byte) :
  process_file raw_file game_mode = Logged log (Ok out) →
  ∃ (b : bundle) (raws : list (list byte)),
    value (read_bundle raw_file) = Ok b
    ∧ Forall2 (inflates game_mode) (blocks b) raws
    ∧ Forall node_wf (nodes b)
    ∧ (∃ pad raw_block_info block_info_data hash tail rest : list byte,
          raw_file
          = header_start (version b) (unity_ver b) (unity_rev b)
            ++ be 8 (bundle_size b)
            ++ be 4 (compressed_blocks_info_size b)
            ++ be 4 (uncompressed_blocks_info_size b)
            ++ be 4 (flags b)
            ++ pad ++ raw_block_info ++ rest
          ∧ length pad
            = header_pad (version b)
                (length (header_start (version b) (unity_ver b) (unity_rev b))
                 + 20)
          ∧ length raw_block_info = Z.to_nat (compressed_blocks_info_size b)
          ∧ decompress_block
              (CompressionType.of_Z (Z.land (flags b) FLAG_COMPRESSION_MASK))
              raw_block_info (uncompressed_blocks_info_size b) Standard
            = Logged [] (Ok block_info_data)
          ∧ length hash = 16%nat
          ∧ block_info_data ++ [Byte.x00]
            = hash
              ++ be 4 (Z.of_nat (length (blocks b)))
              ++ concat (map block_bytes (blocks b))
              ++ be 4 (Z.of_nat (length (nodes b)))
              ++ concat (map node_bytes (nodes b))
              ++ tail)
    ∧ let new_blocks := map new_block raws in
      let blob := build_block_info new_blocks (nodes b) in
      out = write_bundle (version b) (unity_ver b) (unity_rev b) blob
              (concat raws)
      ∧ blob = replicate 16 Byte.x00
               ++ be 4 (Z.of_nat (length new_blocks))
               ++ concat (map block_bytes new_blocks)
               ++ be 4 (Z.of_nat (length (nodes b)))
               ++ concat (map node_bytes (nodes b))
      ∧ read_block_info blob = Ok (new_blocks, nodes b)
      ∧ (Z.of_nat (length blob) < 2 ^ 32 →
         ∃ b' : bundle,
           value (read_bundle out) = Ok b'
           ∧ nodes b' = nodes b
           ∧ length (nodes b') = length (nodes b)).
Proof.
  intros Hrun.
  apply process_file_Ok in Hrun as (b & raws & l & Hread & Hraws & Hout).
  exists b, raws. rewrite Hread.
  pose proof (Forall2_length _ _ _ Hraws) as Hlen. symmetry in Hlen.
  pose proof (read_block_info_new b l raw_file raws Hread Hlen) as Hinfo.
  pose proof (read_bundle_Ok _ _ _ Hread)
    as (Hv & Hver & Hrev & _ & Hnl & Hbc & Hnc & _).
  split; [done |]. split; [done |]. split; [done |]. split.
  { assert (l = []) as -> by (by rewrite <- (read_bundle_stderr raw_file), Hread).
    destruct (read_bundle_layout _ _ _ Hread)
      as (pad & raw_block_info & block_info_data & rest
          & Hraw & Hpad & Hlenr & Hdec & Htable).
    destruct (read_block_info_bytes _ _ _ Htable) as (hash & tail & Hhash & Hbytes).
    by exists pad, raw_block_info, block_info_data, hash, tail, rest. }
  intros new_blocks blob.
  split; [done |]. split; [|split; [done |]].
  - unfold blob. by rewrite build_block_info_bytes, !be_4_to_uint32.
  - intros Hblob.
    destruct (read_bundle_write_bundle (version b) (unity_ver b) (unity_rev b)
                new_blocks (nodes b) (concat raws))
      as (pos & Hback & _); try done.
    + apply Forall_forall. intros blk Hin.
      apply list_elem_of_fmap in Hin as (raw & -> & _). apply new_block_wf.
    + unfold new_blocks. by rewrite length_map, Hlen.
    + fold blob in Hback. fold new_blocks blob in Hout.
      rewrite <- Hout in Hback. rewrite Hback.
      eexists. split; [done |]. done.
Qed.

End FileEntries.


Lemma game_mode_only_for_lzham_witness :
  process_file (H := stored_libraries) two_block_bundle Arknights
  = process_file (H := stored_libraries) two_block_bundle Standard.
Proof.
  apply (@game_mode_only_for_lzham stored_libraries).
  intros b Hb. vm_compute in Hb. injection Hb as <-.
  repeat constructor; vm_compute; discriminate.
Defined.

Lemma process_file_idempotent_witness :
  process_file (H := stored_libraries) two_block_output Arknights
  = Logged [] (Ok two_block_output).
Proof.
  apply (@process_file_idempotent stored_libraries two_block_bundle
           Standard Arknights [] two_block_output).
  - vm_compute. reflexivity.
  - reflexivity.
Defined.

Lemma wrong_signature_witness :
  process_file (H := stored_libraries)
    (bs [0x55; 0x6E; 0x69; 0x74; 0x79; 0x57; 0x65; 0x62; 0; 0; 0; 0; 6])
    Standard
  = Logged [] (Raise Only_UnityFS_format_supported).
Proof.
  apply (@wrong_signature stored_libraries
           (bs [0x55; 0x6E; 0x69; 0x74; 0x79; 0x57; 0x65; 0x62; 0; 0; 0; 0; 6])
           Standard).
  vm_compute. discriminate.
Defined.

Lemma trailing_bytes_ignored_witness :
  process_file (H := stored_libraries) (two_block_bundle ++ bs [9; 9]) Standard
  = Logged [] (Ok two_block_output).
Proof.
  apply (@trailing_bytes_ignored stored_libraries).
  vm_compute. reflexivity.
Defined.

Lemma warnings_only_for_arknights_witness :
  stderr (process_file (H := stored_libraries) two_block_bundle Standard) = []
  ∧ (length (stderr (process_file (H := stored_libraries) two_block_bundle
                       Arknights)) ≤ 2)%nat.
Proof.
  destruct (@warnings_only_for_arknights stored_libraries two_block_bundle)
    as [Hstd Hark].
  split; [exact Hstd |].
  apply (Hark (Bundle 6 (bs [0x35]) (bs [0x78]) 0 68 68 0
                 [ArchiveBlockInfo.Build 3 3 0; ArchiveBlockInfo.Build 2 2 0]
                 [ArchiveNode.Build 0 5 4 (bs [0x61; 0x2E; 0x62])] 104)).
  vm_compute. reflexivity.
Defined.

Lemma header_start_preserved_witness :
  ∃ b : bundle,
    value (read_bundle (H := stored_libraries) two_block_bundle) = Ok b
    ∧ take (length (header_start (version b) (unity_ver b) (unity_rev b)))
        two_block_output
      = take (length (header_start (version b) (unity_ver b) (unity_rev b)))
          two_block_bundle.
Proof.
  destruct (@header_start_preserved stored_libraries two_block_bundle
              Standard [] two_block_output)
    as (b & Hb & _ & _ & Hsame).
  - vm_compute. reflexivity.
  - exists b. split; [exact Hb | exact Hsame].
Defined.

Lemma file_entries_preserved_witness :
  ∃ (b b' : bundle) (block_info_data hash tail : list byte),
    value (read_bundle (H := stored_libraries) two_block_bundle) = Ok b
    ∧ nodes b = [ArchiveNode.Build 0 5 4 (bs [0x61; 0x2E; 0x62])]
    ∧ block_info_data ++ [Byte.x00]
      = hash
        ++ be 4 (Z.of_nat (length (blocks b)))
        ++ concat (map block_bytes (blocks b))
        ++ be 4 1
        ++ node_bytes (ArchiveNode.Build 0 5 4 (bs [0x61; 0x2E; 0x62]))
        ++ tail
    ∧ value (read_bundle (H := stored_libraries) two_block_output) = Ok b'
    ∧ nodes b' = [ArchiveNode.Build 0 5 4 (bs [0x61; 0x2E; 0x62])].
Proof.
  destruct (@file_entries_preserved stored_libraries two_block_bundle
              Standard [] two_block_output)
    as (b & raws & Hread & _ & _ & Hin & Hout & _ & _ & Hback).
  - vm_compute. reflexivity.
  - destruct Hin as (pad & raw_block_info & block_info_data & hash & tail
                     & rest & _ & _ & _ & _ & _ & Hbytes).
    destruct Hback as (b' & Hread' & Hnodes & _).
    + apply (f_equal (@length byte)) in Hout.
      rewrite write_bundle_bytes in Hout.
      rewrite !length_app in Hout.
      change (length two_block_output) with 109%nat in Hout.
      lia.
    + assert (nodes b = [ArchiveNode.Build 0 5 4 (bs [0x61; 0x2E; 0x62])])
        as Hnl.
      { vm_compute in Hread. injection Hread as <-. reflexivity. }
      rewrite Hnl in Hbytes, Hnodes.
      exists b, b', block_info_data, hash, tail.
      split; [exact Hread |]. split; [exact Hnl |].
      split; [|split; [exact Hread' | exact Hnodes]].
      rewrite Hbytes. cbn [map concat length]. by rewrite app_nil_r.
Defined.
